(** * Fuzzy medicine matcher: a shallow embedding of
      [src/utils/fuzzyMedicineMatcher.js] and the properties checked on it.

    Conventions of the embedding.
    - A JavaScript string is a [string]; its code units are 7-bit ASCII
      characters (other bytes are opaque: neither white space nor letters
      with a case).
    - A JavaScript number is a rational ([Q]) where the code computes
      fractions (similarities, thresholds) and a [nat] or [Z] where it
      counts; [NaN] and the infinities are outside the model.
    - [null]/[undefined] are [None]; a falsy string is [None] or the empty
      string.
    - The reference store ([medicinePool]) is a value holding the catalog
      table, the [pg_trgm] similarity of the database and an oracle telling
      which queries throw; the resolver runs in a state monad whose state
      is the list of queries issued so far.
    - Rows that tie on every key of an ORDER BY come in the order of the
      table.
    - Where the type of an argument decides what happens, a function is
      embedded twice: on arguments typed as its JSDoc gives them (a salt is
      a string or absent), where it always returns, and, under a name
      ending in [_any], on values of any type, where a call can also end
      in an exception.  The two agree on typed arguments.
    - Logging ([console.log], [console.error]) and the timing with
      [Date.now] have no part in what the functions return and are left
      out. *)

From Stdlib Require Import String Ascii List ZArith QArith Qminmax Lia Bool.
From Stdlib Require Import Sorted Permutation Lqa.
From stdpp Require Import base list strings.

(* ===================================================================== *)
(** ** JavaScript string primitives *)
(* ===================================================================== *)

Module Js.

(** [c.toLowerCase()] on one ASCII code unit. *)
Definition lower_char (c : ascii) : ascii :=
  let n := nat_of_ascii c in
  if (65 <=? n) && (n <=? 90) then ascii_of_nat (n + 32) else c.

(** [s.toLowerCase()]. *)
Fixpoint toLowerCase (s : string) : string :=
  match s with
  | EmptyString => EmptyString
  | String c s' => String (lower_char c) (toLowerCase s')
  end.

(** White space of [String.prototype.trim] and of the regular
    expression class [\s]: TAB, LF, VT, FF, CR and SPACE. *)
Definition is_space (c : ascii) : bool :=
  let n := nat_of_ascii c in
  ((9 <=? n) && (n <=? 13)) || (n =? 32).

(** The regular expression class [\d]. *)
Definition is_digit (c : ascii) : bool :=
  let n := nat_of_ascii c in
  (48 <=? n) && (n <=? 57).

Fixpoint trimStart (s : string) : string :=
  match s with
  | EmptyString => EmptyString
  | String c s' => if is_space c then trimStart s' else s
  end.

Fixpoint trimEnd (s : string) : string :=
  match s with
  | EmptyString => EmptyString
  | String c s' =>
      match trimEnd s' with
      | EmptyString => if is_space c then EmptyString else String c EmptyString
      | t => String c t
      end
  end.

(** [s.trim()]. *)
Definition trim (s : string) : string := trimEnd (trimStart s).

(** [s.startsWith(p)], used by [includes]. *)
Fixpoint startsWith (s p : string) : bool :=
  match p, s with
  | EmptyString, _ => true
  | String _ _, EmptyString => false
  | String a p', String b s' => Ascii.eqb a b && startsWith s' p'
  end.

(** [s.includes(sub)]. *)
Fixpoint includes (s sub : string) : bool :=
  startsWith s sub ||
  match s with
  | EmptyString => false
  | String _ s' => includes s' sub
  end.

(** [s.replace(/a/g, b)] for single characters [a] and [b]. *)
Fixpoint replace_char (a b : ascii) (s : string) : string :=
  match s with
  | EmptyString => EmptyString
  | String c s' => String (if Ascii.eqb c a then b else c) (replace_char a b s')
  end.

(** [s.includes(c)] for a single character [c]. *)
Fixpoint has_char (c : ascii) (s : string) : bool :=
  match s with
  | EmptyString => false
  | String d s' => Ascii.eqb d c || has_char c s'
  end.

(** Truthiness of a possibly absent string: [null], [undefined] and the
    empty string are falsy. *)
Definition truthy (v : option string) : bool :=
  match v with
  | None => false
  | Some EmptyString => false
  | Some (String _ _) => true
  end.

(** [s[i]] for an index inside the string; the code never reads
    outside, and the model returns the NUL character there. *)
Definition char_at (s : string) (i : nat) : ascii :=
  match String.get i s with
  | Some c => c
  | None => Ascii.zero
  end.

(** [Number(n)] for a count. *)
Definition num (n : nat) : Q := inject_Z (Z.of_nat n).

End Js.

(* ===================================================================== *)
(** ** Regular expressions

    The patterns of the source use character classes, literals,
    concatenation, alternation, greedy repetition of a single class and the
    end anchor.  The matcher follows the backtracking semantics of
    ECMAScript: a pattern is run against the rest of the input with a
    continuation, alternatives are tried left to right and a greedy
    repetition tries the longest run first. *)
(* ===================================================================== *)

Module Regex.

Inductive regex : Type :=
| Eps                                   (* empty pattern *)
| Chr (p : ascii -> bool)               (* one character of a class *)
| Seq (r1 r2 : regex)                   (* r1r2 *)
| Alt (r1 r2 : regex)                   (* r1|r2 *)
| Star (p : ascii -> bool)              (* c*, greedy, c a class *)
| End.                                  (* $ without the m flag *)

(** [c+] *)
Definition Plus (p : ascii -> bool) : regex := Seq (Chr p) (Star p).
(** [r?], greedy *)
Definition Opt (r : regex) : regex := Alt r Eps.

(** A literal character under the [i] flag. *)
Definition chr_ci (c : ascii) : regex :=
  Chr (fun d => Ascii.eqb (Js.lower_char d) (Js.lower_char c)).

(** A literal word under the [i] flag. *)
Fixpoint lit_ci (w : string) : regex :=
  match w with
  | EmptyString => Eps
  | String c w' => Seq (chr_ci c) (lit_ci w')
  end.

(** [r1|r2|...|rn] *)
Fixpoint alts (rs : list regex) : regex :=
  match rs with
  | [] => Eps
  | [r] => r
  | r :: rs' => Alt r (alts rs')
  end.

Section Matcher.
Context {A : Type}.

(** Greedy repetition of a class: consume one more character when
    possible and fall back to stopping here when the rest fails. *)
Fixpoint star_match (p : ascii -> bool) (s : string)
         (k : string -> option A) : option A :=
  match s with
  | String c s' =>
      if p c then
        match star_match p s' k with
        | Some x => Some x
        | None => k s
        end
      else k s
  | EmptyString => k s
  end.

(** [rmatch r s k]: match [r] at the start of [s], then run the
    continuation [k] on what is left. *)
Fixpoint rmatch (r : regex) (s : string) (k : string -> option A)
  : option A :=
  match r with
  | Eps => k s
  | Chr p =>
      match s with
      | String c s' => if p c then k s' else None
      | EmptyString => None
      end
  | Seq r1 r2 => rmatch r1 s (fun s' => rmatch r2 s' k)
  | Alt r1 r2 =>
      match rmatch r1 s k with
      | Some x => Some x
      | None => rmatch r2 s k
      end
  | Star p => star_match p s k
  | End =>
      match s with
      | EmptyString => k s
      | String _ _ => None
      end
  end.
End Matcher.

(** A match of [r] at the very start of [s]: what is left after it. *)
Definition match_here (r : regex) (s : string) : option string :=
  rmatch r s Some.

(** The first [n] characters of [s]. *)
Fixpoint take (n : nat) (s : string) : string :=
  match n, s with
  | S n', String c s' => String c (take n' s')
  | _, _ => EmptyString
  end.

(** The text consumed by a match at the start of [s] that left [rest]. *)
Definition consumed (s rest : string) : string :=
  take (String.length s - String.length rest) s.

(** [r.exec(s)] without the [g] flag: the leftmost match, as the text
    before it, the matched text and the text after it. *)
Fixpoint search (r : regex) (s : string) : option (string * string * string) :=
  match match_here r s with
  | Some rest => Some (EmptyString, consumed s rest, rest)
  | None =>
      match s with
      | EmptyString => None
      | String c s' =>
          match search r s' with
          | Some (pre, m, post) => Some (String c pre, m, post)
          | None => None
          end
      end
  end.

(** [s.match(r)] with the [g] flag: every match, left to right, each
    search resuming where the previous match ended (one character
    further after an empty match).  [skip] counts the characters of the
    current match still to pass over.  JavaScript returns [null] where
    this list is empty. *)
Fixpoint match_all_from (r : regex) (skip : nat) (s : string) : list string :=
  match skip, s with
  | S n, String _ s' => match_all_from r n s'
  | S _, EmptyString => []
  | 0, _ =>
      match match_here r s with
      | Some rest =>
          let m := consumed s rest in
          m :: match s with
               | EmptyString => []
               | String _ s' => match_all_from r (String.length m - 1) s'
               end
      | None =>
          match s with
          | EmptyString => []
          | String _ s' => match_all_from r 0 s'
          end
      end
  end.

Definition match_all (r : regex) (s : string) : list string :=
  match_all_from r 0 s.

(** [s.replace(r, rep)] with the [g] flag, for a replacement text
    without [$] patterns. *)
Fixpoint replace_all_from (r : regex) (rep : string) (skip : nat)
         (s : string) : string :=
  match skip, s with
  | S n, String _ s' => replace_all_from r rep n s'
  | S _, EmptyString => EmptyString
  | 0, _ =>
      match match_here r s with
      | Some rest =>
          let m := consumed s rest in
          rep +:+
          match s with
          | EmptyString => EmptyString
          | String c s' =>
              match String.length m with
              | 0 => String c (replace_all_from r rep 0 s')
              | S n => replace_all_from r rep n s'
              end
          end
      | None =>
          match s with
          | EmptyString => EmptyString
          | String c s' => String c (replace_all_from r rep 0 s')
          end
      end
  end.

Definition replace_all (r : regex) (rep : string) (s : string) : string :=
  replace_all_from r rep 0 s.

End Regex.

(* ===================================================================== *)
(** ** String similarity: [levenshteinDistance] and [calculateSimilarity] *)
(* ===================================================================== *)

(** The two-dimensional array [matrix] of [levenshteinDistance]: an array
    of rows.  Every row is an array of its own (they are created by
    [map]), so a write to one row leaves the others as they are. *)
Abbreviation Matrix := (list (list nat)) (only parsing).

(** [matrix[i][j]] *)
Definition mget (m : Matrix) (i j : nat) : nat := (m !!! i) !!! j.

(** [matrix[i][j] = v]; all writes of the source are inside the array. *)
Definition mset (m : Matrix) (i j v : nat) : Matrix :=
  <[i := <[j := v]> (m !!! i)]> m.

(** [Math.min(a, b, c)] *)
Definition min3 (a b c : nat) : nat := Nat.min a (Nat.min b c).

(** The substitution cost of the inner loop. *)
Definition subst_cost (a b : ascii) : nat :=
  if Ascii.eqb (Js.lower_char a) (Js.lower_char b) then 0 else 1.

Definition levenshteinDistance (str1 str2 : string) : nat :=
  let len1 := String.length str1 in
  let len2 := String.length str2 in
  let matrix : Matrix := replicate (len1 + 1) (replicate (len2 + 1) 0) in
  (* for (let i = 0; i <= len1; i++) matrix[i][0] = i; *)
  let matrix := foldl (fun m i => mset m i 0 i) matrix (seq 0 (len1 + 1)) in
  (* for (let j = 0; j <= len2; j++) matrix[0][j] = j; *)
  let matrix := foldl (fun m j => mset m 0 j j) matrix (seq 0 (len2 + 1)) in
  (* for (let i = 1; i <= len1; i++) for (let j = 1; j <= len2; j++) *)
  let matrix :=
    foldl (fun m i =>
      foldl (fun m j =>
        let cost := subst_cost (Js.char_at str1 (i - 1)) (Js.char_at str2 (j - 1)) in
        mset m i j (min3 (mget m (i - 1) j + 1)
                         (mget m i (j - 1) + 1)
                         (mget m (i - 1) (j - 1) + cost)))
      m (seq 1 len2))
    matrix (seq 1 len1) in
  mget matrix len1 len2.

(** [calculateSimilarity(str1, str2)].  The arguments may be [null]
    (a brand name read from the store), hence [option]. *)
Definition calculateSimilarity (str1 str2 : option string) : Q :=
  match str1, str2 with
  | Some (String c1 r1), Some (String c2 r2) =>
      let s1 := Js.trim (Js.toLowerCase (String c1 r1)) in
      let s2 := Js.trim (Js.toLowerCase (String c2 r2)) in
      (* Exact match *)
      if String.eqb s1 s2 then 1
      (* Contains match *)
      else if Js.includes s1 s2 || Js.includes s2 s1 then
        let longer := if String.length s2 <? String.length s1 then s1 else s2 in
        let shorter := if String.length s2 <? String.length s1 then s2 else s1 in
        0.8 * (Js.num (String.length shorter) / Js.num (String.length longer))
      else
        (* Levenshtein distance-based similarity *)
        let maxLength := Nat.max (String.length s1) (String.length s2) in
        if maxLength =? 0 then 1
        else
          let distance := levenshteinDistance s1 s2 in
          Qmax 0 (1 - Js.num distance / Js.num maxLength)
  | _, _ => 0     (* if (!str1 || !str2) return 0; *)
  end.

(* ===================================================================== *)
(** ** Dosage extraction and name normalisation *)
(* ===================================================================== *)

Definition MEDICINE_SUFFIXES : list string :=
  [ "tablet"; "tablets"; "tab"; "tabs";
    "capsule"; "capsules"; "cap"; "caps";
    "syrup"; "suspension"; "solution";
    "injection"; "inj";
    "cream"; "ointment"; "gel";
    "drops"; "drop";
    "powder"; "granules";
    "mr"; "sr"; "xr"; "er"; "cr"; "la"; "xl"; "ds" ].

(** [/(\d+(?:\.\d+)?)/] *)
Definition numberPattern : Regex.regex :=
  Regex.Seq (Regex.Plus Js.is_digit)
            (Regex.Opt (Regex.Seq (Regex.Chr (Ascii.eqb ".")) (Regex.Plus Js.is_digit))).

(** [/(mg|gm|ml|mcg|g|l|iu|%)/i] *)
Definition unitPattern : Regex.regex :=
  Regex.alts (map Regex.lit_ci ["mg"; "gm"; "ml"; "mcg"; "g"; "l"; "iu"; "%"]).

(** [/(\d+(?:\.\d+)?)\s*(mg|gm|ml|mcg|g|l|iu|%)/gi] *)
Definition strengthPattern : Regex.regex :=
  Regex.Seq numberPattern (Regex.Seq (Regex.Star Js.is_space) unitPattern).

(** The object returned by [extractStrengthFromName], with its properties
    [name], [strength], [unit] and [fullDose]. *)
Record Extracted : Type := mkExtracted {
  ex_name : string;
  ex_strength : option string;
  ex_unit : option string;
  ex_fullDose : option string
}.

Definition extractStrengthFromName (medicineName : string) : Extracted :=
  match medicineName with
  | EmptyString => mkExtracted "" None None None
  | _ =>
      match Regex.match_all strengthPattern medicineName with
      | m0 :: _ =>
          let fullDose := Js.trim (Js.toLowerCase m0) in
          let numMatch := Regex.search numberPattern fullDose in
          let unitMatch := Regex.search unitPattern fullDose in
          let strength :=
            match numMatch with Some (_, m, _) => Some m | None => None end in
          let unit :=
            match unitMatch with
            | Some (_, m, _) => Some (Js.toLowerCase m)
            | None => None
            end in
          (* Remove dosage from name *)
          let name := Js.trim (Regex.replace_all strengthPattern "" medicineName) in
          mkExtracted name strength unit (Some fullDose)
      | [] => mkExtracted (Js.trim medicineName) None None None
      end
  end.

(** [new RegExp(`\\s+${suffix}\\s*$`, 'gi')] *)
Definition suffixPattern (suffix : string) : Regex.regex :=
  Regex.Seq (Regex.Plus Js.is_space)
            (Regex.Seq (Regex.lit_ci suffix)
                       (Regex.Seq (Regex.Star Js.is_space) Regex.End)).

Definition removeSuffixes (name : string) : string :=
  match name with
  | EmptyString => ""
  | _ =>
      let cleaned := Js.trim (Js.toLowerCase name) in
      let cleaned :=
        foldl (fun cleaned suffix =>
                 Regex.replace_all (suffixPattern suffix) "" cleaned)
              cleaned MEDICINE_SUFFIXES in
      Js.trim cleaned
  end.

(** A JavaScript [Set] of strings keeps its elements in insertion order;
    [add] of an element already present changes nothing. *)
Definition set_has (x : string) (vs : list string) : bool :=
  existsb (String.eqb x) vs.

Definition set_add (x : string) (vs : list string) : list string :=
  if set_has x vs then vs else vs ++ [x].

(** One round of the OCR loop of [generateMedicineNameVariations]. *)
Definition ocr_variations (variations : list string) (base : string) : list string :=
  let lowerBase := Js.toLowerCase base in
  let variations :=
    if Js.has_char "o" lowerBase || Js.has_char "0" lowerBase then
      set_add (Js.replace_char "0" "o" lowerBase)
              (set_add (Js.replace_char "o" "0" lowerBase) variations)
    else variations in
  let variations :=
    if Js.has_char "i" lowerBase || Js.has_char "1" lowerBase || Js.has_char "l" lowerBase then
      set_add (Js.replace_char "l" "i" lowerBase)
              (set_add (Js.replace_char "1" "i" lowerBase)
                       (set_add (Js.replace_char "i" "1" lowerBase) variations))
    else variations in
  if Js.has_char "s" lowerBase || Js.has_char "5" lowerBase then
    set_add (Js.replace_char "5" "s" lowerBase)
            (set_add (Js.replace_char "s" "5" lowerBase) variations)
  else variations.

Definition generateMedicineNameVariations (medicineName : string) : list string :=
  match medicineName with
  | EmptyString => []
  | _ =>
      let cleaned := Js.trim medicineName in
      (* Original name *)
      let variations := set_add (Js.toLowerCase cleaned) (set_add cleaned []) in
      (* Extract name without dosage *)
      let extracted := extractStrengthFromName cleaned in
      let variations :=
        if Js.truthy (Some (ex_name extracted))
           && negb (String.eqb (ex_name extracted) cleaned)
        then set_add (Js.toLowerCase (ex_name extracted))
                     (set_add (ex_name extracted) variations)
        else variations in
      (* Remove suffixes *)
      let withoutSuffix := removeSuffixes cleaned in
      let variations :=
        if Js.truthy (Some withoutSuffix)
           && negb (String.eqb withoutSuffix (Js.toLowerCase cleaned))
        then set_add withoutSuffix variations
        else variations in
      (* Generate OCR variations (limit to avoid explosion) *)
      let baseVariations := firstn 3 variations in
      let variations := foldl ocr_variations variations baseVariations in
      List.filter (fun v => 2 <=? String.length v) variations
  end.

(* ===================================================================== *)
(** ** The reference store: the [med_details] table and its queries *)
(* ===================================================================== *)

(** One composition slot [N] of a [med_details] row: the columns
    [med_composition_id_N], [med_composition_name_N],
    [med_composition_strength_N] and [med_composition_unit_N]. *)
Record Slot : Type := mkSlot {
  slot_id : option Z;
  slot_name : option string;
  slot_strength : option string;
  slot_unit : option string
}.

(** A row of [med_details].  Every column but the key may be NULL. *)
Record MedDetails : Type := mkMed {
  med_id : Z;
  med_brand_name : option string;
  med_generic_id : option Z;
  med_composition_1 : Slot;
  med_composition_2 : Slot;
  med_composition_3 : Slot;
  med_composition_4 : Slot;
  med_composition_5 : Slot;
  med_price : option string;
  med_manufacturer_name : option string;
  med_pack_size : option string;
  med_type : option string;
  med_weightage : option Z;
  is_active : option Z;
  is_deactivated : option Z
}.

Definition slots (r : MedDetails) : list Slot :=
  [ med_composition_1 r; med_composition_2 r; med_composition_3 r;
    med_composition_4 r; med_composition_5 r ].

Definition Slot_eq_dec (a b : Slot) : {a = b} + {a <> b}.
Proof. repeat decide equality. Defined.

Definition MedDetails_eq_dec (a b : MedDetails) : {a = b} + {a <> b}.
Proof. decide equality; try apply Slot_eq_dec; repeat decide equality. Defined.

(** Generic stable insertion sort: [x] is placed before the first element
    it must not come after. *)
Section StableSort.
Context {A : Type} (before : A -> A -> bool).

Fixpoint insert_sorted (x : A) (l : list A) : list A :=
  match l with
  | [] => [x]
  | y :: l' => if before x y then x :: y :: l' else y :: insert_sorted x l'
  end.

Definition stable_sort (l : list A) : list A :=
  foldr insert_sorted [] l.
End StableSort.

Module Sql.

(** SQL truth values: [None] is NULL. *)
Definition tv := option bool.

Definition and3 (a b : tv) : tv :=
  match a, b with
  | Some false, _ | _, Some false => Some false
  | Some true, Some true => Some true
  | _, _ => None
  end.

Definition or3 (a b : tv) : tv :=
  match a, b with
  | Some true, _ | _, Some true => Some true
  | Some false, Some false => Some false
  | _, _ => None
  end.

(** A condition of WHERE or CASE WHEN holds when it is TRUE. *)
Definition holds (a : tv) : bool :=
  match a with Some true => true | _ => false end.

(** [LOWER(x)] *)
Definition lower (x : option string) : option string :=
  option_map Js.toLowerCase x.

(** [x = y] on text *)
Definition eq_text (x y : option string) : tv :=
  match x, y with
  | Some a, Some b => Some (String.eqb a b)
  | _, _ => None
  end.

(** [x = y] on integers *)
Definition eq_int (x y : option Z) : tv :=
  match x, y with
  | Some a, Some b => Some (Z.eqb a b)
  | _, _ => None
  end.

(** [COALESCE(x, '')] *)
Definition coalesce (x : option string) : string :=
  match x with Some a => a | None => "" end.

(** [s LIKE p] on non-NULL text: [%] stands for any run of characters,
    [_] for one character and a backslash makes the next pattern
    character literal.  (A pattern ending in a lone backslash is an
    error in PostgreSQL; the patterns built below all end in [%].) *)
Fixpoint like_match (p s : string) : bool :=
  match p with
  | EmptyString => match s with EmptyString => true | _ => false end
  | String "%" p' =>
      (fix any (s : string) : bool :=
         like_match p' s ||
         match s with
         | EmptyString => false
         | String _ s' => any s'
         end) s
  | String "_" p' =>
      match s with
      | EmptyString => false
      | String _ s' => like_match p' s'
      end
  | String "\" (String c p') =>
      match s with
      | EmptyString => false
      | String d s' => Ascii.eqb c d && like_match p' s'
      end
  | String c p' =>
      match s with
      | EmptyString => false
      | String d s' => Ascii.eqb c d && like_match p' s'
      end
  end.

(** [x LIKE p] *)
Definition like (x p : option string) : tv :=
  match x, p with
  | Some s, Some q => Some (like_match q s)
  | _, _ => None
  end.

(** [x || y] on text *)
Definition concat (x y : option string) : option string :=
  match x, y with
  | Some a, Some b => Some (a +:+ b)
  | _, _ => None
  end.

(** [ORDER BY k DESC NULLS LAST] on an integer key: [a] may stay before
    [b]. *)
Definition desc_nulls_last (a b : option Z) : comparison :=
  match a, b with
  | Some x, Some y => Z.compare y x
  | Some _, None => Lt
  | None, Some _ => Gt
  | None, None => Eq
  end.

(** Lexicographic combination of sort keys. *)
Definition then_by (c1 c2 : comparison) : comparison :=
  match c1 with Eq => c2 | _ => c1 end.

Definition not_after (c : comparison) : bool :=
  match c with Gt => false | _ => true end.

(** [SELECT DISTINCT]: one copy of every row, [seen] being the rows
    already kept. *)
Fixpoint distinct_from (seen l : list MedDetails) : list MedDetails :=
  match l with
  | [] => []
  | r :: l' =>
      if in_dec MedDetails_eq_dec r seen then distinct_from seen l'
      else r :: distinct_from (r :: seen) l'
  end.

Definition distinct (l : list MedDetails) : list MedDetails :=
  distinct_from [] l.

(** [LIMIT n]; a negative limit is an error. *)
Definition limit {A : Type} (n : Z) (l : list A) : option (list A) :=
  if (n <? 0)%Z then None else Some (firstn (Z.to_nat n) l).

End Sql.

(** The statements sent to the store, each with its parameters. *)
Inductive Query : Type :=
| ExactQuery (variant : string)
| FuzzyQuery (variant : string) (maxResults : Z)
| CompositionStrengthQuery (name strength unit : string) (maxResults : Z)
| CompositionQuery (name : string) (maxResults : Z).

(** A row of a result set.  The statements select every column of the
    table but the two flags, which their WHERE clause fixes, so the row
    carries the table row itself, and next to it the computed columns of
    the statement ([None] where the statement has no such column). *)
Record Row : Type := mkRow {
  row_med : MedDetails;
  match_score : option Z;
  comp_similarity : option Q;
  comp_match_score : option Z
}.

Section Statements.
(** The table, and the two things [pg_trgm] brings: the function
    [similarity(text, text)] and the threshold of the operator [%]. *)
Variable catalog : list MedDetails.
Variable similarity : string -> string -> Q.
Variable similarity_threshold : Q.

(** [md.is_active = 1 AND md.is_deactivated = 0] *)
Definition where_active (r : MedDetails) : Sql.tv :=
  Sql.and3 (Sql.eq_int (is_active r) (Some 1%Z))
           (Sql.eq_int (is_deactivated r) (Some 0%Z)).

(** [x % y]: the similarity reaches the threshold. *)
Definition trgm_similar (x y : option string) : Sql.tv :=
  match x, y with
  | Some a, Some b => Some (Qle_bool similarity_threshold (similarity a b))
  | _, _ => None
  end.

(** The statement of [tryExactMatch]. *)
Definition exact_statement (p1 : string) : option (list Row) :=
  let rows :=
    List.filter (fun r =>
      Sql.holds (Sql.and3 (where_active r)
                          (Sql.eq_text (Sql.lower (med_brand_name r))
                                       (Sql.lower (Some p1)))))
      catalog in
  let rows :=
    stable_sort (fun a b =>
      Sql.not_after (Sql.desc_nulls_last (med_weightage a) (med_weightage b)))
      rows in
  Sql.limit 1 (map (fun r => mkRow r None None None) rows).

(** The CASE expression [match_score] of [tryFuzzyLikeSearch]. *)
Definition fuzzy_match_score (p1 : string) (r : MedDetails) : Z :=
  let brand := Sql.lower (med_brand_name r) in
  let q := Sql.lower (Some p1) in
  if Sql.holds (Sql.eq_text brand q) then 100
  else if Sql.holds (Sql.like brand (Sql.concat q (Some "%"))) then 90
  else if Sql.holds (Sql.like brand (Sql.concat (Sql.concat (Some "%") q) (Some "%")))
  then 80
  else 70.

(** The statement of [tryFuzzyLikeSearch]. *)
Definition fuzzy_statement (p1 : string) (p2 : Z) : option (list Row) :=
  let rows :=
    List.filter (fun r =>
      Sql.holds (Sql.and3 (where_active r)
                          (Sql.like (Sql.lower (med_brand_name r))
                                    (Sql.concat (Sql.concat (Some "%") (Sql.lower (Some p1)))
                                                (Some "%")))))
      catalog in
  let rows := map (fun r => mkRow r (Some (fuzzy_match_score p1 r)) None None) rows in
  let rows :=
    stable_sort (fun a b =>
      Sql.not_after
        (Sql.then_by (Sql.desc_nulls_last (match_score a) (match_score b))
                     (Sql.desc_nulls_last (med_weightage (row_med a))
                                          (med_weightage (row_med b)))))
      rows in
  Sql.limit p2 rows.

(** [GREATEST(similarity(LOWER(COALESCE(name_N, '')), LOWER($1)), ...)] *)
Definition comp_similarity_of (p1 : string) (r : MedDetails) : Q :=
  let sim (s : Slot) :=
    similarity (Js.toLowerCase (Sql.coalesce (slot_name s))) (Js.toLowerCase p1) in
  Qmax (sim (med_composition_1 r))
    (Qmax (sim (med_composition_2 r))
      (Qmax (sim (med_composition_3 r))
        (Qmax (sim (med_composition_4 r)) (sim (med_composition_5 r))))).

(** [LOWER(name_N) % LOWER($1)] *)
Definition slot_similar (p1 : string) (s : Slot) : Sql.tv :=
  trgm_similar (Sql.lower (slot_name s)) (Sql.lower (Some p1)).

(** [LOWER(name_N) % LOWER($1) AND strength_N = $2
     AND LOWER(unit_N) = LOWER($3)] *)
Definition slot_exact (p1 p2 p3 : string) (s : Slot) : Sql.tv :=
  Sql.and3 (Sql.and3 (slot_similar p1 s)
                     (Sql.eq_text (slot_strength s) (Some p2)))
           (Sql.eq_text (Sql.lower (slot_unit s)) (Sql.lower (Some p3))).

(** The CASE expression [comp_match_score]: the first branch that
    holds, slot after slot. *)
Definition comp_match_score_of (p1 p2 p3 : string) (r : MedDetails) : Z :=
  if existsb (fun s => Sql.holds (slot_exact p1 p2 p3 s)) (slots r) then 100
  else if existsb (fun s => Sql.holds (slot_similar p1 s)) (slots r) then 80
  else 70.

(** The WHERE clause of both composition statements. *)
Definition where_composition (p1 : string) (r : MedDetails) : Sql.tv :=
  Sql.and3 (where_active r)
    (Sql.or3 (Sql.or3 (Sql.or3 (Sql.or3 (slot_similar p1 (med_composition_1 r))
                                        (slot_similar p1 (med_composition_2 r)))
                               (slot_similar p1 (med_composition_3 r)))
                      (slot_similar p1 (med_composition_4 r)))
             (slot_similar p1 (med_composition_5 r))).

Definition desc_Q (a b : option Q) : comparison :=
  match a, b with
  | Some x, Some y => (y ?= x)%Q
  | Some _, None => Lt
  | None, Some _ => Gt
  | None, None => Eq
  end.

(** The statement of [tryCompositionSearch] with strength matching. *)
Definition composition_strength_statement (p1 p2 p3 : string) (p4 : Z)
  : option (list Row) :=
  let rows := List.filter (fun r => Sql.holds (where_composition p1 r)) catalog in
  let rows := Sql.distinct rows in
  let rows :=
    map (fun r => mkRow r None (Some (comp_similarity_of p1 r))
                        (Some (comp_match_score_of p1 p2 p3 r))) rows in
  let rows :=
    stable_sort (fun a b =>
      Sql.not_after
        (Sql.then_by (Sql.desc_nulls_last (comp_match_score a) (comp_match_score b))
           (Sql.then_by (desc_Q (comp_similarity a) (comp_similarity b))
              (Sql.desc_nulls_last (med_weightage (row_med a))
                                   (med_weightage (row_med b))))))
      rows in
  Sql.limit p4 rows.

(** The statement of [tryCompositionSearch] without strength matching. *)
Definition composition_statement (p1 : string) (p2 : Z) : option (list Row) :=
  let rows := List.filter (fun r => Sql.holds (where_composition p1 r)) catalog in
  let rows := Sql.distinct rows in
  let rows := map (fun r => mkRow r None (Some (comp_similarity_of p1 r)) None) rows in
  let rows :=
    stable_sort (fun a b =>
      Sql.not_after
        (Sql.then_by (desc_Q (comp_similarity a) (comp_similarity b))
           (Sql.desc_nulls_last (med_weightage (row_med a))
                                (med_weightage (row_med b)))))
      rows in
  Sql.limit p2 rows.

(** What the database answers to a statement; [None] is an error. *)
Definition run_statement (q : Query) : option (list Row) :=
  match q with
  | ExactQuery v => exact_statement v
  | FuzzyQuery v n => fuzzy_statement v n
  | CompositionStrengthQuery name strength unit n =>
      composition_strength_statement name strength unit n
  | CompositionQuery name n => composition_statement name n
  end.
End Statements.

(** [medicinePool]: the catalog behind it, the [pg_trgm] settings of the
    database, and an oracle for the calls of [query] that throw
    (connection lost, time-out), which may depend on the calls made
    before. *)
Record Pool : Type := mkPool {
  catalog : list MedDetails;
  pg_similarity : string -> string -> Q;
  pg_similarity_threshold : Q;
  query_throws : list Query -> Query -> bool
}.

(** Computations that talk to the store: the state is the list of the
    statements sent so far, oldest first. *)
Definition M (A : Type) : Type := list Query -> A * list Query.

Definition ret {A : Type} (x : A) : M A := fun log => (x, log).

Definition bind {A B : Type} (m : M A) (f : A -> M B) : M B :=
  fun log => let (x, log') := m log in f x log'.

Notation "'do' x <- m ; k" := (bind m (fun x => k))
  (at level 10, x name, m at level 100, k at level 200).

(** [await medicinePool.query(query, params)] inside [try]; [None] when
    it throws. *)
Definition pool_query (pool : Pool) (q : Query) : M (option (list Row)) :=
  fun log =>
    (if query_throws pool log q then None
     else run_statement (catalog pool) (pg_similarity pool)
                        (pg_similarity_threshold pool) q,
     log ++ [q]).

(* ===================================================================== *)
(** ** Result formatting *)
(* ===================================================================== *)

(** [buildDoseString(strength, unit)] *)
Definition buildDoseString (strength unit : option string) : option string :=
  match strength, unit with
  | Some s, Some u =>
      if Js.truthy strength && Js.truthy unit then Some (s +:+ u) else None
  | _, _ => None
  end.

(** The text-valued properties of a JavaScript object, by name;
    [None] is [undefined] or [null]. *)
Definition Obj : Type := string -> option string.

(** The decimal numeral of a small index, as in a template literal. *)
Definition index_text (i : nat) : string :=
  String (ascii_of_nat (48 + i)) EmptyString.

(** [buildCompositionString(medicine)]: reads the properties
    [compositionN_name], [compositionN_strength] and [compositionN_unit]
    for N from 1 to 5. *)
Definition buildCompositionString (medicine : Obj) : option string :=
  let parts :=
    flat_map (fun i =>
      let name := medicine ("composition" +:+ index_text i +:+ "_name") in
      let strength := medicine ("composition" +:+ index_text i +:+ "_strength") in
      let unit := medicine ("composition" +:+ index_text i +:+ "_unit") in
      match name with
      | Some n =>
          if Js.truthy name then
            let dose :=
              match strength, unit with
              | Some s, Some u =>
                  if Js.truthy strength && Js.truthy unit
                  then " " +:+ s +:+ u else ""
              | _, _ => ""
              end in
            [n +:+ dose]
          else []
      | None => []
      end) (seq 1 5) in
  match parts with
  | [] => None
  | p :: ps => Some (foldl (fun acc q => acc +:+ " + " +:+ q) p ps)
  end.

(** The text-valued properties of a row object as the driver builds it:
    they are named after the selected columns. *)
Definition row_properties (r : MedDetails) : Obj :=
  fun key =>
    let slot_property (i : nat) (s : Slot) : option (option string) :=
      if String.eqb key ("med_composition_name_" +:+ index_text i) then Some (slot_name s)
      else if String.eqb key ("med_composition_strength_" +:+ index_text i)
      then Some (slot_strength s)
      else if String.eqb key ("med_composition_unit_" +:+ index_text i)
      then Some (slot_unit s)
      else None in
    if String.eqb key "med_brand_name" then med_brand_name r
    else if String.eqb key "med_price" then med_price r
    else if String.eqb key "med_manufacturer_name" then med_manufacturer_name r
    else if String.eqb key "med_pack_size" then med_pack_size r
    else if String.eqb key "med_type" then med_type r
    else
      match omap (fun '(i, s) => slot_property i s) (zip (seq 1 5) (slots r)) with
      | v :: _ => v
      | [] => None
      end.

(** The five properties [compositionN_id], [..._name], [..._strength],
    [..._unit] and [..._dose] of a formatted medicine. *)
Record FormattedSlot : Type := mkFormattedSlot {
  composition_id : option Z;
  composition_name : option string;
  composition_strength : option string;
  composition_unit : option string;
  composition_dose : option string
}.

Definition formatSlot (s : Slot) : FormattedSlot :=
  mkFormattedSlot (slot_id s) (slot_name s) (slot_strength s) (slot_unit s)
                  (buildDoseString (slot_strength s) (slot_unit s)).

(** The object built by [formatMedicineResult].  The properties
    [med_generic_id], [med_type] and [med_weightage] are the fields
    [generic_id], [type_] and [weightage] here, the other names being
    taken by the columns of the table. *)
Record Medicine : Type := mkMedicine {
  med_drug_id : Z;
  drug_name : option string;
  generic_id : option Z;
  composition1 : FormattedSlot;
  composition2 : FormattedSlot;
  composition3 : FormattedSlot;
  composition4 : FormattedSlot;
  composition5 : FormattedSlot;
  composition : option string;
  mrp : option string;
  manufacturer : option string;
  pack_size : option string;
  type_ : option string;
  weightage : option Z
}.

Definition formatMedicineResult (medicine : MedDetails) : Medicine :=
  {| med_drug_id := med_id medicine;
     drug_name := med_brand_name medicine;
     generic_id := med_generic_id medicine;
     composition1 := formatSlot (med_composition_1 medicine);
     composition2 := formatSlot (med_composition_2 medicine);
     composition3 := formatSlot (med_composition_3 medicine);
     composition4 := formatSlot (med_composition_4 medicine);
     composition5 := formatSlot (med_composition_5 medicine);
     composition := buildCompositionString (row_properties medicine);
     mrp := med_price medicine;
     manufacturer := med_manufacturer_name medicine;
     pack_size := med_pack_size medicine;
     type_ := med_type medicine;
     weightage := med_weightage medicine |}.

(* ===================================================================== *)
(** ** The search strategies and the resolver *)
(* ===================================================================== *)

(** The object returned by [fuzzySearchMedicine]; a property the object
    does not have is [None].  The property [match] is the field [match_]. *)
Record SearchResult : Type := mkResult {
  success : bool;
  match_ : option Medicine;
  confidence : Q;
  matchType : option string;
  searchTerm : option string;
  message : option string
}.

(** An element of [fuzzyResults], with its properties [medicine],
    [similarity], [matchScore] and [searchTerm]. *)
Record Candidate : Type := mkCandidate {
  medicine : Medicine;
  similarity : Q;
  matchScore : Z;
  cand_searchTerm : string
}.

(** [tryExactMatch(variations)] *)
Fixpoint tryExactMatch (pool : Pool) (variations : list string)
  : M (option SearchResult) :=
  match variations with
  | [] => ret None
  | variant :: rest =>
      do result <- pool_query pool (ExactQuery variant);
      match result with
      | Some (row :: _) =>
          ret (Some {| success := true;
                       match_ := Some (formatMedicineResult (row_med row));
                       confidence := 1;
                       matchType := Some "exact";
                       searchTerm := Some variant;
                       message := None |})
      | Some [] | None => tryExactMatch pool rest
      end
  end.

(** [tryFuzzyLikeSearch(variations, maxResults)]; [fuzzyResults] is the
    array filled so far. *)
Fixpoint tryFuzzyLikeSearch_from (pool : Pool) (fuzzyResults : list Candidate)
         (variations : list string) (maxResults : Z) : M (list Candidate) :=
  match variations with
  | [] => ret fuzzyResults
  | variant :: rest =>
      do result <- pool_query pool (FuzzyQuery variant maxResults);
      let fuzzyResults :=
        match result with
        | Some rows =>
            fuzzyResults ++
            map (fun row =>
                   {| medicine := formatMedicineResult (row_med row);
                      similarity :=
                        calculateSimilarity (Some variant) (med_brand_name (row_med row));
                      matchScore := default 0%Z (match_score row);
                      cand_searchTerm := variant |}) rows
        | None => fuzzyResults
        end in
      tryFuzzyLikeSearch_from pool fuzzyResults rest maxResults
  end.

Definition tryFuzzyLikeSearch (pool : Pool) (variations : list string)
           (maxResults : Z) : M (list Candidate) :=
  tryFuzzyLikeSearch_from pool [] variations maxResults.

(** [x || d] on text. *)
Definition or_text (x d : string) : string :=
  match x with EmptyString => d | _ => x end.

(** [tryCompositionSearch(salt, maxResults)] *)
Definition tryCompositionSearch (pool : Pool) (salt : option string)
           (maxResults : Z) : M (list Candidate) :=
  match salt with
  | Some (String c0 s0) =>
      let salt := String c0 s0 in
      let extracted := extractStrengthFromName salt in
      let query :=
        match ex_strength extracted, ex_unit extracted with
        | Some strength, Some unit =>
            if Js.truthy (Some strength) && Js.truthy (Some unit) then
              CompositionStrengthQuery (or_text (ex_name extracted) salt)
                                       strength unit maxResults
            else CompositionQuery (or_text (ex_name extracted) salt) maxResults
        | _, _ => CompositionQuery (or_text (ex_name extracted) salt) maxResults
        end in
      do result <- pool_query pool query;
      match result with
      | Some rows =>
          ret (map (fun row =>
                 {| medicine := formatMedicineResult (row_med row);
                    similarity :=
                      match comp_similarity row with
                      | Some q => if Qeq_bool q 0 then 0.7 else q
                      | None => 0.7
                      end;
                    matchScore :=
                      match comp_match_score row with
                      | Some z => if (z =? 0)%Z then 80%Z else z
                      | None => 80%Z
                      end;
                    cand_searchTerm := salt |}) rows)
      | None => ret []
      end
  | _ => ret []      (* if (!salt) return []; *)
  end.

(** The argument [options] of [fuzzySearchMedicine]; a property left out
    is [None] and takes its default in the destructuring. *)
Record Options : Type := mkOptions {
  minSimilarity : option Q;
  maxResults : option Z;
  includeSalt : option string;
  preferExactMatch : option bool
}.

(** A value passed as [medicineName]: a string or anything else. *)
Inductive NameArg : Type :=
| NotAString
| Name (s : string).

(** The comparison function given to [fuzzyResults.sort]. *)
Definition compareCandidates (a b : Candidate) : Q :=
  if negb (Z.eqb (matchScore b) (matchScore a)) then
    inject_Z (matchScore b - matchScore a)
  else if negb (Qeq_bool (similarity b) (similarity a)) then
    similarity b - similarity a
  else
    inject_Z (default 0%Z (weightage (medicine b)) - default 0%Z (weightage (medicine a))).

(** [Array.prototype.sort] is stable: [a] stays before [b] unless the
    comparison is positive. *)
Definition sortCandidates (l : list Candidate) : list Candidate :=
  stable_sort (fun a b => Qle_bool (compareCandidates a b) 0) l.

Definition validationFailure : SearchResult :=
  {| success := false; match_ := None; confidence := 0; matchType := None;
     searchTerm := None;
     message := Some "Medicine name must be at least 2 characters long" |}.

Definition noMatch : SearchResult :=
  {| success := false; match_ := None; confidence := 0; matchType := None;
     searchTerm := None;
     message := Some "No matching medicine found" |}.

Definition fuzzySearchMedicine (pool : Pool) (medicineName : NameArg)
           (options : Options) : M SearchResult :=
  let minSimilarity := default 0.7%Q (minSimilarity options) in
  let maxResults := default 5%Z (maxResults options) in
  let includeSalt := includeSalt options in
  let preferExactMatch := default true (preferExactMatch options) in
  match medicineName with
  | NotAString => ret validationFailure
  | Name medicineName =>
      if String.length (Js.trim medicineName) <? 2 then ret validationFailure
      else
        (* Step 1: Generate variations *)
        let variations := generateMedicineNameVariations medicineName in
        (* Step 2: Try exact match *)
        do exactMatch <-
          (if preferExactMatch then tryExactMatch pool variations else ret None);
        match exactMatch with
        | Some found => ret found
        | None =>
            (* Step 3: Try fuzzy LIKE search *)
            do fuzzyResults <- tryFuzzyLikeSearch pool variations maxResults;
            (* Step 4: Try composition-based search *)
            do fuzzyResults <-
              (if Js.truthy includeSalt && (length fuzzyResults =? 0) then
                 do compositionResults <-
                   tryCompositionSearch pool includeSalt maxResults;
                 ret (fuzzyResults ++ compositionResults)
               else ret fuzzyResults);
            (* Step 5: Sort and return best match *)
            match sortCandidates fuzzyResults with
            | bestMatch :: _ =>
                if Qle_bool minSimilarity (similarity bestMatch) then
                  ret {| success := true;
                         match_ := Some (medicine bestMatch);
                         confidence := similarity bestMatch;
                         matchType :=
                           Some (if (matchScore bestMatch =? 100)%Z
                                 then "exact-composition" else "fuzzy");
                         searchTerm := Some (cand_searchTerm bestMatch);
                         message := None |}
                else ret noMatch
            | [] => ret noMatch
            end
        end
  end.

(** An element of the array given to [batchFuzzySearch], typed as the
    JSDoc gives it: an object whose [medicine_salt] is a string or is
    absent.  [Element], further down, is an element of any type, and
    [batch_loop_any] the loop on such elements, with the exceptions it
    lets through; on elements of this type the two loops agree
    ([batch_loop_any_typed]). *)
Record Item : Type := mkItem {
  medicine_name : NameArg;
  medicine_salt : option string
}.

(** An element of the array returned by [batchFuzzySearch]. *)
Record BatchEntry : Type := mkEntry {
  original : Item;
  searchResult : SearchResult;
  index : nat
}.

(** A value passed as [medicines]: an array or anything else. *)
Inductive BatchArg : Type :=
| NotAnArray (truthy : bool)
| Items (l : list Item).

(** The object literal [{...options, includeSalt: medicine.medicine_salt}]. *)
Definition item_options (options : Options) (medicine : Item) : Options :=
  {| minSimilarity := minSimilarity options;
     maxResults := maxResults options;
     includeSalt := medicine_salt medicine;
     preferExactMatch := preferExactMatch options |}.

(** The loop of [batchFuzzySearch] from index [i] on, [results] being the
    array filled so far. *)
Fixpoint batch_loop (pool : Pool) (options : Options) (results : list BatchEntry)
         (i : nat) (medicines : list Item) : M (list BatchEntry) :=
  match medicines with
  | [] => ret results
  | medicine :: rest =>
      do searchResult <-
        fuzzySearchMedicine pool (medicine_name medicine)
                            (item_options options medicine);
      batch_loop pool options
                 (results ++ [{| original := medicine;
                                 searchResult := searchResult;
                                 index := i |}])
                 (S i) rest
  end.

Definition batchFuzzySearch (pool : Pool) (medicines : BatchArg)
           (options : Options) : M (list BatchEntry) :=
  match medicines with
  | NotAnArray _ => ret []
  | Items [] => ret []
  | Items l => batch_loop pool options [] 0 l
  end.

(* ===================================================================== *)
(** ** A concrete store for the examples

    [similarity] of [pg_trgm] belongs to the database, not to this
    program; the theorems below hold for any such function.  The
    examples need one: the trigram similarity of the extension's
    documentation (lower-case the text, split it into words of letters and
    digits, pad each word with two blanks before and one after, collect
    the sets of three-character windows, and divide the number of shared
    trigrams by the number of all of them), with its default threshold
    0.3. *)
(* ===================================================================== *)

Module PgTrgm.

Definition is_alnum (c : ascii) : bool :=
  let n := nat_of_ascii c in
  Js.is_digit c || ((97 <=? n) && (n <=? 122)).

(** The words of a lower-case text; [cur] is the word being read,
    last character first. *)
Fixpoint words_from (cur : list ascii) (s : string) : list (list ascii) :=
  match s with
  | EmptyString => match cur with [] => [] | _ => [rev cur] end
  | String c s' =>
      if is_alnum c then words_from (c :: cur) s'
      else match cur with
           | [] => words_from [] s'
           | _ => rev cur :: words_from [] s'
           end
  end.

Fixpoint windows (l : list ascii) : list (ascii * ascii * ascii) :=
  match l with
  | a :: ((b :: c :: _) as l') => (a, b, c) :: windows l'
  | _ => []
  end.

Definition tri_eqb (x y : ascii * ascii * ascii) : bool :=
  let '(a, b, c) := x in
  let '(d, e, f) := y in
  Ascii.eqb a d && Ascii.eqb b e && Ascii.eqb c f.

Fixpoint dedup (l : list (ascii * ascii * ascii)) : list (ascii * ascii * ascii) :=
  match l with
  | [] => []
  | x :: l' => if existsb (tri_eqb x) l' then dedup l' else x :: dedup l'
  end.

Definition trigrams (s : string) : list (ascii * ascii * ascii) :=
  dedup (flat_map (fun w => windows ([" "; " "] ++ w ++ [" "])%char)
                  (words_from [] (Js.toLowerCase s))).

Definition similarity (a b : string) : Q :=
  let ta := trigrams a in
  let tb := trigrams b in
  let common := length (List.filter (fun x => existsb (tri_eqb x) tb) ta) in
  match ta, tb with
  | [], _ | _, [] => 0
  | _, _ => Js.num common / Js.num (length ta + length tb - common)
  end.

Definition threshold : Q := 0.3.

End PgTrgm.

(** A store over a given catalog whose queries never throw. *)
Definition reliable_pool (rows : list MedDetails) : Pool :=
  {| catalog := rows;
     pg_similarity := PgTrgm.similarity;
     pg_similarity_threshold := PgTrgm.threshold;
     query_throws := fun _ _ => false |}.

Definition empty_slot : Slot := mkSlot None None None None.

(** A catalog row with one composition. *)
Definition simple_med (id : Z) (brand : string) (comp strength unit : string)
           (w : option Z) (active deactivated : Z) : MedDetails :=
  {| med_id := id;
     med_brand_name := Some brand;
     med_generic_id := None;
     med_composition_1 := mkSlot (Some id) (Some comp) (Some strength) (Some unit);
     med_composition_2 := empty_slot;
     med_composition_3 := empty_slot;
     med_composition_4 := empty_slot;
     med_composition_5 := empty_slot;
     med_price := None;
     med_manufacturer_name := None;
     med_pack_size := None;
     med_type := None;
     med_weightage := w;
     is_active := Some active;
     is_deactivated := Some deactivated |}.

Definition default_options : Options := mkOptions None None None None.

Definition sample_catalog : list MedDetails :=
  [ simple_med 1 "Crocin" "Paracetamol" "500" "mg" (Some 10%Z) 1 0;
    simple_med 2 "Dolo 650" "Paracetamol" "650" "mg" (Some 20%Z) 1 0;
    simple_med 3 "Calpol" "Paracetamol (Acetaminophen)" "500" "mg" None 1 0;
    simple_med 4 "Oldcin" "Paracetamol" "500" "mg" (Some 99%Z) 0 0;
    simple_med 5 "Gonecin" "Paracetamol" "500" "mg" (Some 99%Z) 1 1;
    simple_med 6 "Pantoprazole" "Pantoprazole" "40" "mg" (Some 5%Z) 1 0 ].


(* ===================================================================== *)
(** ** The API layer

    The first checks of the handler [batchSearchMedicines] on the property
    [medicines] of the request body, which it makes before it looks at the
    items and before it calls [batchFuzzySearch].  [Some (message, status)]
    is the [sendError] the handler returns with; [None] lets it go on. *)
(* ===================================================================== *)

Definition batchSearchMedicines_array_checks (medicines : BatchArg)
  : option (string * Z) :=
  match medicines with
  | NotAnArray false => Some ("medicines array is required", 400%Z)
  | NotAnArray true => Some ("medicines must be an array", 400%Z)
  | Items l =>
      if length l =? 0 then Some ("medicines array cannot be empty", 400%Z)
      else if 100 <? length l
           then Some ("Maximum 100 medicines allowed per batch", 400%Z)
           else None
  end.

(** A store whose failures do not depend on the calls made before. *)
Definition history_free (pool : Pool) : Prop :=
  forall h1 h2 q, query_throws pool h1 q = query_throws pool h2 q.

(** A table row of the catalog that is active and not deactivated. *)
Definition live_in (cat : list MedDetails) (r : MedDetails) : Prop :=
  In r cat /\ is_active r = Some 1%Z /\ is_deactivated r = Some 0%Z.

(** A formatted medicine that comes from such a row. *)
Definition from_live_row (pool : Pool) (m : Medicine) : Prop :=
  exists r : MedDetails, live_in (catalog pool) r /\ m = formatMedicineResult r.

(* ===================================================================== *)
(** ** The steps of [fuzzySearchMedicine], one at a time

    The properties of the resolver speak about what it holds between its
    steps: the candidates the fuzzy strategy produced, the merged
    candidates the sort starts from.  The definitions below cut the body
    of [fuzzySearchMedicine] at those points; [fuzzySearchMedicine_steps]
    proves that running them in sequence is the function itself. *)
(* ===================================================================== *)

(** Where a run of the resolver stands. *)
Inductive Stage : Type :=
| Rejected                                  (* the guard returned *)
| ExactHit (found : SearchResult)           (* step 2 returned *)
| Candidates (fuzzyResults : list Candidate). (* the array at this point *)

(** From the start to the end of step 3. *)
Definition upto_step3 (pool : Pool) (medicineName : NameArg) (options : Options)
  : M Stage :=
  match medicineName with
  | NotAString => ret Rejected
  | Name medicineName =>
      if String.length (Js.trim medicineName) <? 2 then ret Rejected
      else
        let variations := generateMedicineNameVariations medicineName in
        do exactMatch <-
          (if default true (preferExactMatch options)
           then tryExactMatch pool variations else ret None);
        match exactMatch with
        | Some found => ret (ExactHit found)
        | None =>
            do fuzzyResults <-
              tryFuzzyLikeSearch pool variations (default 5%Z (maxResults options));
            ret (Candidates fuzzyResults)
        end
  end.

(** Step 4. *)
Definition step4 (pool : Pool) (options : Options) (st : Stage) : M Stage :=
  match st with
  | Candidates fuzzyResults =>
      if Js.truthy (includeSalt options) && (length fuzzyResults =? 0) then
        do compositionResults <-
          tryCompositionSearch pool (includeSalt options)
                               (default 5%Z (maxResults options));
        ret (Candidates (fuzzyResults ++ compositionResults))
      else ret st
  | _ => ret st
  end.

(** From the start to the end of step 4. *)
Definition upto_step4 (pool : Pool) (medicineName : NameArg) (options : Options)
  : M Stage :=
  do st <- upto_step3 pool medicineName options;
  step4 pool options st.

(** Step 5 and the final return. *)
Definition step5 (options : Options) (st : Stage) : SearchResult :=
  match st with
  | Rejected => validationFailure
  | ExactHit found => found
  | Candidates fuzzyResults =>
      match sortCandidates fuzzyResults with
      | bestMatch :: _ =>
          if Qle_bool (default 0.7%Q (minSimilarity options)) (similarity bestMatch) then
            {| success := true;
               match_ := Some (medicine bestMatch);
               confidence := similarity bestMatch;
               matchType :=
                 Some (if (matchScore bestMatch =? 100)%Z
                       then "exact-composition" else "fuzzy");
               searchTerm := Some (cand_searchTerm bestMatch);
               message := None |}
          else noMatch
      | [] => noMatch
      end
  end.

(** The statements of the composition strategy. *)
Definition is_composition_query (q : Query) : bool :=
  match q with
  | CompositionStrengthQuery _ _ _ _ | CompositionQuery _ _ => true
  | ExactQuery _ | FuzzyQuery _ _ => false
  end.

(** A catalog with one medicine whose composition name is longer than
    the usual salt name. *)
Definition calpol_catalog : list MedDetails :=
  [ simple_med 3 "Calpol" "Paracetamol (Acetaminophen)" "500" "mg" None 1 0 ].

Definition salt_options (salt : string) : Options :=
  mkOptions None None (Some salt) None.

(* ===================================================================== *)
(** ** Edit distance, as a reference for [levenshteinDistance] *)
(* ===================================================================== *)

(** The Levenshtein distance by its recurrence on the first characters,
    letters compared without their case. *)
Fixpoint edit_distance (s t : list ascii) : nat :=
  match s with
  | [] => length t
  | a :: s' =>
      (fix inner (t : list ascii) : nat :=
         match t with
         | [] => length s
         | b :: t' =>
             min3 (edit_distance s' t + 1)
                  (inner t' + 1)
                  (edit_distance s' t' + subst_cost a b)
         end) t
  end.

(** [edit_script s t n]: [s] is turned into [t] by deletions, insertions
    and substitutions of single characters of total cost [n], each
    deletion and insertion costing 1 and a substitution costing 1 unless
    the two characters are the same letter. *)
Inductive edit_script : list ascii -> list ascii -> nat -> Prop :=
| script_done : edit_script [] [] 0
| script_delete (a : ascii) (s t : list ascii) (n : nat) :
    edit_script s t n -> edit_script (a :: s) t (S n)
| script_insert (b : ascii) (s t : list ascii) (n : nat) :
    edit_script s t n -> edit_script s (b :: t) (S n)
| script_substitute (a b : ascii) (s t : list ascii) (n : nat) :
    edit_script s t n -> edit_script (a :: s) (b :: t) (n + subst_cost a b).

(** The characters of a string. *)
Definition chars (s : string) : list ascii := list_ascii_of_string s.

(** The similarity as the specification words it: the first rule that
    applies, on the strings as they are given. *)
Definition specified_similarity (a b : string) : Q :=
  if String.eqb (Js.toLowerCase a) (Js.toLowerCase b) then 1
  else if Js.includes (Js.toLowerCase a) (Js.toLowerCase b)
          || Js.includes (Js.toLowerCase b) (Js.toLowerCase a) then
    0.8 * (Js.num (Nat.min (String.length a) (String.length b))
           / Js.num (Nat.max (String.length a) (String.length b)))
  else
    Qmax 0 (1 - Js.num (edit_distance (chars a) (chars b))
                / Js.num (Nat.max (String.length a) (String.length b))).

(** The matrix has [H] rows of [W] cells. *)
Definition shape (H W : nat) (m : Matrix) : Prop :=
  length m = H /\ forall i, i < H -> length (m !!! i) = W.

(** The distance between the first [i] characters of [str1] and the
    first [j] characters of [str2]. *)
Definition prefix_distance (str1 str2 : string) (i j : nat) : nat :=
  edit_distance (rev (firstn i (chars str1))) (rev (firstn j (chars str2))).

(** The cells of the matrix that hold their final value when the third
    loop of [levenshteinDistance] is in row [i] at column [j]. *)
Definition filled_upto (str1 str2 : string) (i j : nat) (m : Matrix) : Prop :=
  shape (String.length str1 + 1) (String.length str2 + 1) m
  /\ forall a b, a <= String.length str1 -> b <= String.length str2 ->
                 (a = 0 \/ b = 0 \/ a < i \/ (a = i /\ b < j)) ->
                 mget m a b = prefix_distance str1 str2 a b.

(* ===================================================================== *)
(** ** What the patterns match, as a reference for the matcher *)
(* ===================================================================== *)

(** [lang r m]: the text [m] is matched by the pattern [r] ([$] matching
    the empty text). *)
Inductive lang : Regex.regex -> string -> Prop :=
| lang_eps : lang Regex.Eps ""
| lang_chr (p : ascii -> bool) (c : ascii) :
    p c = true -> lang (Regex.Chr p) (String c "")
| lang_seq (r1 r2 : Regex.regex) (m1 m2 : string) :
    lang r1 m1 -> lang r2 m2 -> lang (Regex.Seq r1 r2) (m1 +:+ m2)
| lang_alt_l (r1 r2 : Regex.regex) (m : string) :
    lang r1 m -> lang (Regex.Alt r1 r2) m
| lang_alt_r (r1 r2 : Regex.regex) (m : string) :
    lang r2 m -> lang (Regex.Alt r1 r2) m
| lang_star_nil (p : ascii -> bool) : lang (Regex.Star p) ""
| lang_star_cons (p : ascii -> bool) (c : ascii) (m : string) :
    p c = true -> lang (Regex.Star p) m -> lang (Regex.Star p) (String c m)
| lang_end : lang Regex.End "".

(** The units of [strengthPattern]. *)
Definition UNITS : list string := ["mg"; "gm"; "ml"; "mcg"; "g"; "l"; "iu"; "%"].

(** Every character of a text is in a class. *)
Fixpoint all_chars (p : ascii -> bool) (s : string) : bool :=
  match s with
  | EmptyString => true
  | String c s' => p c && all_chars p s'
  end.

(** The text from position [k] on. *)
Fixpoint drop (k : nat) (s : string) : string :=
  match k, s with
  | S k', String _ s' => drop k' s'
  | _, _ => s
  end.

(** Runs of white space made single blanks. *)
Fixpoint collapse_spaces (s : string) : string :=
  match s with
  | EmptyString => EmptyString
  | String c s' =>
      if Js.is_space c then
        match s' with
        | String d _ => if Js.is_space d then collapse_spaces s'
                        else String " " (collapse_spaces s')
        | EmptyString => String " " EmptyString
        end
      else String c (collapse_spaces s')
  end.

(** The base name as the specification words it: the first match taken
    out, white space collapsed and trimmed. *)
Definition specified_base_name (name : string) : string :=
  match Regex.search strengthPattern name with
  | Some (pre, _, post) => Js.trim (collapse_spaces (pre +:+ post))
  | None => Js.trim name
  end.

(** A text that can follow a number: it starts with neither a digit nor
    a point. *)
Definition after_number (rest : string) : Prop :=
  match rest with
  | String c _ => Js.is_digit c = false /\ c <> "."%char
  | EmptyString => True
  end.

(** The characters of a number and of the blanks after it. *)
Definition number_or_space (c : ascii) : bool :=
  Js.is_digit c || Js.is_space c || Ascii.eqb c ".".

(** A character that is not white space; a word is a non-empty text of
    such characters. *)
Definition not_space (c : ascii) : bool := negb (Js.is_space c).

(** What [suffixPattern y] does at a blank followed by the word [x]:
    it matches to the end when [x] is [y], and fails otherwise. *)
Definition suffix_at_blank (x y : string) : bool :=
  match Regex.match_here (suffixPattern y) (String " " x) with
  | Some rest => String.eqb x y && String.eqb rest ""
  | None => negb (String.eqb x y)
  end.
(* ===================================================================== *)
(** ** The ranking of the candidates *)
(* ===================================================================== *)

(** [med_weightage || 0] of a candidate. *)
Definition weight (c : Candidate) : Z := default 0%Z (weightage (medicine c)).

(** [a] ranks no lower than [b]: a higher match score, or the same score
    and a higher similarity, or the same of both and a weightage that is
    not lower. *)
Definition ranks_no_lower (a b : Candidate) : Prop :=
  (matchScore b < matchScore a)%Z
  \/ (matchScore b = matchScore a /\ (similarity b < similarity a)%Q)
  \/ (matchScore b = matchScore a /\ (similarity b == similarity a)%Q
      /\ (weight b <= weight a)%Z).

(** [a] and [b] have the same match score, similarity and weightage. *)
Definition ties (a b : Candidate) : bool :=
  (matchScore a =? matchScore b)%Z
  && Qeq_bool (similarity a) (similarity b)
  && (weight a =? weight b)%Z.

(* ===================================================================== *)
(** ** Patterns of LIKE without wildcards *)
(* ===================================================================== *)

(** A character that stands for itself in a pattern of LIKE: neither of
    the wildcards [%] and [_] nor the escape character. *)
Definition plain_char (c : ascii) : bool :=
  negb (Ascii.eqb c "%" || Ascii.eqb c "_" || Ascii.eqb c "\").

Definition plain (s : string) : bool := all_chars plain_char s.

(* ===================================================================== *)
(** ** Arguments of any type

    The functions take what the caller gives them: the handler
    [batchSearchMedicines] checks the [medicine_name] of every element and
    nothing else, so the elements of a request body reach
    [batchFuzzySearch] with a [medicine_salt] of any JSON type.  The
    definitions below follow the code on such values, with the exceptions
    that nothing on the way catches. *)
(* ===================================================================== *)

(** A value passed as [medicine_salt] or [includeSalt]. *)
Inductive SaltArg : Type :=
| SaltFalsy              (* undefined, null, false, 0, NaN *)
| SaltText (s : string)  (* a string *)
| SaltOther.             (* any other value: a number but 0, true, an array, an object *)

(** Truthiness of such a value. *)
Definition salt_truthy (salt : SaltArg) : bool :=
  match salt with
  | SaltFalsy => false
  | SaltText s => Js.truthy (Some s)
  | SaltOther => true
  end.

(** How a call ends: with a value, or with an exception thrown (for an
    [async] function, a rejected promise). *)
Inductive Outcome (A : Type) : Type :=
| Returned (a : A)
| Threw.

Arguments Returned {A} a.
Arguments Threw {A}.

(** [tryCompositionSearch(salt, maxResults)] on a salt of any type.
    [extractStrengthFromName(salt)] is called before the [try]: on a
    truthy value that is not a string it passes its guard
    [if (!medicineName)] and throws at [medicineName.match], which such a
    value does not have. *)
Definition tryCompositionSearch_any (pool : Pool) (salt : SaltArg) (maxResults : Z)
  : M (Outcome (list Candidate)) :=
  match salt with
  | SaltFalsy => ret (Returned [])        (* if (!salt) return []; *)
  | SaltText s =>
      do compositionResults <- tryCompositionSearch pool (Some s) maxResults;
      ret (Returned compositionResults)
  | SaltOther => ret Threw
  end.

(** [fuzzySearchMedicine(medicineName, options)], the property
    [includeSalt] of [options] being of any type and given apart.  The
    function has no [try]: what step 4 throws, it throws. *)
Definition fuzzySearchMedicine_any (pool : Pool) (medicineName : NameArg)
           (options : Options) (includeSalt : SaltArg) : M (Outcome SearchResult) :=
  let maxResults := default 5%Z (maxResults options) in
  let preferExactMatch := default true (preferExactMatch options) in
  match medicineName with
  | NotAString => ret (Returned validationFailure)
  | Name medicineName =>
      if String.length (Js.trim medicineName) <? 2 then ret (Returned validationFailure)
      else
        (* Step 1: Generate variations *)
        let variations := generateMedicineNameVariations medicineName in
        (* Step 2: Try exact match *)
        do exactMatch <-
          (if preferExactMatch then tryExactMatch pool variations else ret None);
        match exactMatch with
        | Some found => ret (Returned found)
        | None =>
            (* Step 3: Try fuzzy LIKE search *)
            do fuzzyResults <- tryFuzzyLikeSearch pool variations maxResults;
            (* Step 4: Try composition-based search *)
            if salt_truthy includeSalt && (length fuzzyResults =? 0) then
              do compositionResults <-
                tryCompositionSearch_any pool includeSalt maxResults;
              match compositionResults with
              | Returned compositionResults =>
                  (* Step 5: Sort and return best match *)
                  ret (Returned (step5 options
                                   (Candidates (fuzzyResults ++ compositionResults))))
              | Threw => ret Threw
              end
            else ret (Returned (step5 options (Candidates fuzzyResults)))
        end
  end.

(** An element of the array given to [batchFuzzySearch]: [null] or
    [undefined], or any other value, taken by its properties
    [medicine_name] and [medicine_salt] (a property the value does not
    have reads as [undefined]). *)
Inductive Element : Type :=
| Nullish
| Props (name : NameArg) (salt : SaltArg).

(** An element of the array returned by [batchFuzzySearch]. *)
Record AnyEntry : Type := mkAnyEntry {
  any_original : Element;
  any_searchResult : SearchResult;
  any_index : nat
}.

(** The loop of [batchFuzzySearch] from index [i] on, on elements of any
    type.  Reading [medicine.medicine_name] throws on [null] and
    [undefined]; the loop has no [try], so an exception of
    [fuzzySearchMedicine] ends it, and with it the call: the entries
    collected so far are not returned. *)
Fixpoint batch_loop_any (pool : Pool) (options : Options) (results : list AnyEntry)
         (i : nat) (medicines : list Element) : M (Outcome (list AnyEntry)) :=
  match medicines with
  | [] => ret (Returned results)
  | Nullish :: _ => ret Threw
  | (Props name salt as medicine) :: rest =>
      do searchResult <- fuzzySearchMedicine_any pool name options salt;
      match searchResult with
      | Returned searchResult =>
          batch_loop_any pool options
                         (results ++ [{| any_original := medicine;
                                         any_searchResult := searchResult;
                                         any_index := i |}])
                         (S i) rest
      | Threw => ret Threw
      end
  end.

(** [batchFuzzySearch(medicines, options)] on an array of elements of
    any type. *)
Definition batchFuzzySearch_any (pool : Pool) (medicines : list Element)
           (options : Options) : M (Outcome (list AnyEntry)) :=
  match medicines with
  | [] => ret (Returned [])
  | _ => batch_loop_any pool options [] 0 medicines
  end.






(* ===================================================================== *)
(** * Properties *)
(* ===================================================================== *)

(** ** Validation *)

(** The guard at the head of [fuzzySearchMedicine]. *)
Lemma short_name_rejected :
  forall (pool : Pool) (s : string) (options : Options) (log : list Query),
    String.length (Js.trim s) < 2 ->
    fuzzySearchMedicine pool (Name s) options log = (validationFailure, log).
Proof.
  intros pool s options log Hlen. unfold fuzzySearchMedicine.
  apply Nat.ltb_lt in Hlen. rewrite Hlen. reflexivity.
Qed.

(** C7.  A name that is not a string, or whose trimmed length is below 2,
    makes [fuzzySearchMedicine] return the validation failure
    (success false, confidence 0, a message other than the one of
    "no match") whatever the store holds, and no statement is sent. *)
Theorem validation_fails_fast :
  forall (pool : Pool) (medicineName : NameArg) (options : Options) (log : list Query),
    (medicineName = NotAString \/
     exists s, medicineName = Name s /\ String.length (Js.trim s) < 2) ->
    fuzzySearchMedicine pool medicineName options log = (validationFailure, log)
    /\ success validationFailure = false
    /\ confidence validationFailure = 0%Q
    /\ match_ validationFailure = None
    /\ message validationFailure <> message noMatch.
Proof.
  intros pool medicineName options log Hshort.
  split; [| repeat split; discriminate].
  destruct Hshort as [-> | (s & -> & Hlen)]; [reflexivity |].
  now apply short_name_rejected.
Qed.

Lemma validation_fails_fast_witness :
  fuzzySearchMedicine (reliable_pool sample_catalog) (Name " a ") default_options []
  = (validationFailure, []).
Proof.
  apply (validation_fails_fast (reliable_pool sample_catalog) (Name " a ")
                               default_options []).
  right. exists " a ". split; [reflexivity | vm_compute; lia].
Defined.

(** ** Batches *)

(** C10.  [batchFuzzySearch] on something that is not an array, or on an
    empty array, returns the empty list and sends no statement; it is the
    handler of the API layer that rejects such a body, with status 400. *)
Theorem batch_of_nothing :
  forall (pool : Pool) (options : Options) (log : list Query) (truthy : bool),
    batchFuzzySearch pool (NotAnArray truthy) options log = ([], log)
    /\ batchFuzzySearch pool (Items []) options log = ([], log)
    /\ (exists msg, batchSearchMedicines_array_checks (NotAnArray truthy) = Some (msg, 400%Z))
    /\ (exists msg, batchSearchMedicines_array_checks (Items []) = Some (msg, 400%Z)).
Proof.
  intros pool options log truthy. repeat split.
  - destruct truthy; eexists; reflexivity.
  - eexists; reflexivity.
Qed.

(** The results already collected are only extended. *)
Lemma batch_loop_results :
  forall pool options medicines results i log,
    batch_loop pool options results i medicines log =
    (results ++ fst (batch_loop pool options [] i medicines log),
     snd (batch_loop pool options [] i medicines log)).
Proof.
  intros pool options medicines.
  induction medicines as [| m rest IH]; intros results i log; simpl.
  - unfold ret. simpl. now rewrite app_nil_r.
  - unfold bind.
    destruct (fuzzySearchMedicine pool (medicine_name m) (item_options options m) log)
      as [r log1].
    rewrite IH. rewrite (IH [_]). simpl. now rewrite <- app_assoc.
Qed.

(** One step of the loop, seen from outside. *)
Lemma batch_loop_cons :
  forall pool options m rest i log,
    batch_loop pool options [] i (m :: rest) log =
    let r := fuzzySearchMedicine pool (medicine_name m) (item_options options m) log in
    (mkEntry m (fst r) i :: fst (batch_loop pool options [] (S i) rest (snd r)),
     snd (batch_loop pool options [] (S i) rest (snd r))).
Proof.
  intros. simpl. unfold bind.
  destruct (fuzzySearchMedicine pool (medicine_name m) (item_options options m) log)
    as [r log1].
  simpl. now rewrite batch_loop_results.
Qed.

Lemma batchFuzzySearch_loop :
  forall pool options l log,
    batchFuzzySearch pool (Items l) options log = batch_loop pool options [] 0 l log.
Proof. intros pool options [| m rest] log; reflexivity. Qed.

(** The statements a run leaves in the log do not depend on the index the
    entries are numbered from. *)
Lemma batch_loop_log_index :
  forall pool options l i j log,
    snd (batch_loop pool options [] i l log) = snd (batch_loop pool options [] j l log).
Proof.
  intros pool options l. induction l as [| m rest IH]; intros i j log.
  - reflexivity.
  - rewrite !batch_loop_cons. simpl. apply IH.
Qed.

Lemma batch_loop_length :
  forall pool options l i log,
    length (fst (batch_loop pool options [] i l log)) = length l.
Proof.
  intros pool options l. induction l as [| m rest IH]; intros i log.
  - reflexivity.
  - rewrite batch_loop_cons. simpl. now rewrite IH.
Qed.

Lemma batch_loop_lookup :
  forall pool options l i log k (item : Item),
    l !! k = Some item ->
    fst (batch_loop pool options [] i l log) !! k =
    Some (mkEntry item
            (fst (fuzzySearchMedicine pool (medicine_name item)
                    (item_options options item)
                    (snd (batch_loop pool options [] i (take k l) log))))
            (i + k)).
Proof.
  intros pool options l. induction l as [| m rest IH]; intros i log k item Hk.
  - discriminate.
  - rewrite batch_loop_cons. destruct k as [| k].
    + injection Hk as ->. simpl. now rewrite Nat.add_0_r.
    + simpl in Hk. cbn [fst lookup list_lookup].
      rewrite (IH (S i) _ k item Hk).
      change (take (S k) (m :: rest)) with (m :: take k rest).
      rewrite batch_loop_cons. cbn [snd].
      replace (S i + k) with (i + S k) by lia.
      reflexivity.
Qed.

(** *** What a run returns when the store's failures ignore the past *)

Section HistoryFree.
Variable pool : Pool.
Hypothesis Hfree : history_free pool.

Lemma pool_query_history (q : Query) (h1 h2 : list Query) :
  fst (pool_query pool q h1) = fst (pool_query pool q h2).
Proof. unfold pool_query. simpl. now rewrite (Hfree h1 h2 q). Qed.

Lemma tryExactMatch_history (variations : list string) (h1 h2 : list Query) :
  fst (tryExactMatch pool variations h1) = fst (tryExactMatch pool variations h2).
Proof.
  revert h1 h2. induction variations as [| v rest IH]; intros h1 h2; [reflexivity |].
  simpl. unfold bind, pool_query. rewrite (Hfree h1 h2 (ExactQuery v)).
  destruct (if query_throws pool h2 (ExactQuery v) then None else _) as [[| row rows] |];
    auto.
Qed.

Lemma tryFuzzyLikeSearch_history (variations : list string) (n : Z) :
  forall (acc : list Candidate) (h1 h2 : list Query),
    fst (tryFuzzyLikeSearch_from pool acc variations n h1) =
    fst (tryFuzzyLikeSearch_from pool acc variations n h2).
Proof.
  induction variations as [| v rest IH]; intros acc h1 h2; [reflexivity |].
  simpl. unfold bind, pool_query. rewrite (Hfree h1 h2 (FuzzyQuery v n)).
  apply IH.
Qed.

Lemma tryCompositionSearch_history (salt : option string) (n : Z) (h1 h2 : list Query) :
  fst (tryCompositionSearch pool salt n h1) = fst (tryCompositionSearch pool salt n h2).
Proof.
  destruct salt as [[| c s] |]; try reflexivity.
  unfold tryCompositionSearch, bind, pool_query.
  match goal with
  | |- context [query_throws pool h1 ?q] => rewrite (Hfree h1 h2 q)
  end.
  match goal with
  | |- context [if ?b then None else ?r] => destruct (if b then None else r)
  end; reflexivity.
Qed.

Lemma fuzzySearchMedicine_history (medicineName : NameArg) (options : Options)
      (h1 h2 : list Query) :
  fst (fuzzySearchMedicine pool medicineName options h1) =
  fst (fuzzySearchMedicine pool medicineName options h2).
Proof.
  unfold fuzzySearchMedicine.
  destruct medicineName as [| s]; [reflexivity |].
  destruct (String.length (Js.trim s) <? 2); [reflexivity |].
  unfold bind.
  set (vs := generateMedicineNameVariations s).
  assert (Hexact :
    forall h h', fst ((if default true (preferExactMatch options)
                       then tryExactMatch pool vs else ret None) h) =
                 fst ((if default true (preferExactMatch options)
                       then tryExactMatch pool vs else ret None) h')).
  { intros h h'. destruct (default true (preferExactMatch options));
      [apply tryExactMatch_history | reflexivity]. }
  specialize (Hexact h1 h2).
  destruct ((if default true (preferExactMatch options)
             then tryExactMatch pool vs else ret None) h1) as [e1 k1].
  destruct ((if default true (preferExactMatch options)
             then tryExactMatch pool vs else ret None) h2) as [e2 k2].
  simpl in Hexact. subst e2.
  destruct e1 as [found |]; [reflexivity |].
  pose proof (tryFuzzyLikeSearch_history vs (default 5%Z (maxResults options)) [] k1 k2)
    as Hfuzzy.
  unfold tryFuzzyLikeSearch.
  destruct (tryFuzzyLikeSearch_from pool [] vs _ k1) as [f1 j1].
  destruct (tryFuzzyLikeSearch_from pool [] vs _ k2) as [f2 j2].
  simpl in Hfuzzy. subst f2.
  destruct (Js.truthy (includeSalt options) && (length f1 =? 0)).
  - pose proof (tryCompositionSearch_history (includeSalt options)
                  (default 5%Z (maxResults options)) j1 j2) as Hcomp.
    destruct (tryCompositionSearch pool _ _ j1) as [c1 i1].
    destruct (tryCompositionSearch pool _ _ j2) as [c2 i2].
    simpl in Hcomp. subst c2. unfold ret.
    destruct (sortCandidates (f1 ++ c1)) as [| b bs]; [reflexivity |].
    destruct (Qle_bool _ _); reflexivity.
  - unfold ret.
    destruct (sortCandidates f1) as [| b bs]; [reflexivity |].
    destruct (Qle_bool _ _); reflexivity.
Qed.
End HistoryFree.

(** The loop on items typed as the JSDoc gives them: [n] items give [n]
    entries in the order of the items; the entry at position [k] carries
    the [k]-th item, the index [k] and what [fuzzySearchMedicine] returns
    for that item's name with that item's salt as [includeSalt], run
    after the items before it.  When the failures of the store do not
    depend on the past, that result is the one of the item resolved on
    its own.  What the loop does on elements of any type is
    [batch_entries_any], further down. *)
Lemma batch_entries :
  forall (pool : Pool) (options : Options) (medicines : list Item) (log : list Query),
    let results := fst (batchFuzzySearch pool (Items medicines) options log) in
    length results = length medicines
    /\ (forall (k : nat) (item : Item),
          medicines !! k = Some item ->
          exists r : SearchResult,
            results !! k = Some (mkEntry item r k)
            /\ r = fst (fuzzySearchMedicine pool (medicine_name item)
                          (item_options options item)
                          (snd (batchFuzzySearch pool (Items (take k medicines))
                                                 options log)))
            /\ includeSalt (item_options options item) = medicine_salt item
            /\ (history_free pool ->
                r = fst (fuzzySearchMedicine pool (medicine_name item)
                           (item_options options item) []))).
Proof.
  intros pool options medicines log results. subst results.
  rewrite batchFuzzySearch_loop. split.
  - apply batch_loop_length.
  - intros k item Hk. eexists. split; [| split; [| split]].
    + rewrite (batch_loop_lookup _ _ _ _ _ _ _ Hk). reflexivity.
    + now rewrite batchFuzzySearch_loop.
    + reflexivity.
    + intros Hfree. apply fuzzySearchMedicine_history, Hfree.
Qed.

(** The batch of the specification: three items, the second too short. *)
Lemma batch_of_three :
  forall (pool : Pool) (options : Options) (a c : Item) (short : string) (salt : option string)
         (log : list Query),
    String.length (Js.trim short) < 2 ->
    exists ra rc log',
      fst (batchFuzzySearch pool (Items [a; mkItem (Name short) salt; c]) options log)
      = [mkEntry a ra 0; mkEntry (mkItem (Name short) salt) validationFailure 1;
         mkEntry c rc 2]
      /\ ra = fst (fuzzySearchMedicine pool (medicine_name a) (item_options options a) log)
      /\ log' = snd (fuzzySearchMedicine pool (medicine_name a) (item_options options a) log)
      /\ rc = fst (fuzzySearchMedicine pool (medicine_name c) (item_options options c) log').
Proof.
  intros pool options a c short salt log Hshort.
  do 3 eexists. split; [| split; [| split]]; try reflexivity.
  rewrite batchFuzzySearch_loop. repeat (rewrite batch_loop_cons; cbv zeta).
  change (medicine_name (mkItem (Name short) salt)) with (Name short).
  rewrite !(short_name_rejected _ _ _ _ Hshort). reflexivity.
Qed.

(** ** Sorting *)

Section StableSortFacts.
Context {A : Type} (before : A -> A -> bool).

Lemma insert_sorted_perm (x : A) (l : list A) :
  Permutation (insert_sorted before x l) (x :: l).
Proof.
  induction l as [| y l IH]; simpl; [reflexivity |].
  destruct (before x y); [reflexivity |].
  rewrite IH. apply perm_swap.
Qed.

Lemma stable_sort_perm (l : list A) : Permutation (stable_sort before l) l.
Proof.
  induction l as [| x l IH]; simpl; [reflexivity |].
  rewrite insert_sorted_perm. now rewrite IH.
Qed.

Lemma stable_sort_In (l : list A) (x : A) : In x (stable_sort before l) <-> In x l.
Proof.
  split; apply Permutation_in; [| symmetry]; apply stable_sort_perm.
Qed.

Lemma stable_sort_nil (l : list A) : stable_sort before l = [] <-> l = [].
Proof.
  split; intros H.
  - apply Permutation_nil. rewrite <- H. apply stable_sort_perm.
  - now subst.
Qed.

(** Sortedness for any transitive order the comparison agrees with. *)
Section Sorted.
Variable R : A -> A -> Prop.
Hypothesis R_trans : forall a b c, R a b -> R b c -> R a c.
Hypothesis before_R : forall a b, before a b = true -> R a b.
Hypothesis after_R : forall a b, before a b = false -> R b a.

Lemma insert_sorted_sorted (x : A) (l : list A) :
  StronglySorted R l -> StronglySorted R (insert_sorted before x l).
Proof.
  induction 1 as [| y l Hl IH Hy]; simpl.
  - repeat constructor.
  - destruct (before x y) eqn:Hxy.
    + constructor; [now constructor |].
      constructor; [now apply before_R |].
      eapply Forall_impl; [exact Hy |]. intros z Hz. simpl.
      eapply R_trans; [apply before_R, Hxy | exact Hz].
    + constructor; [exact IH |].
      rewrite List.Forall_forall. intros z Hz.
      apply (Permutation_in _ (insert_sorted_perm x l)) in Hz.
      destruct Hz as [<- | Hz]; [now apply after_R |].
      rewrite List.Forall_forall in Hy. now apply Hy.
Qed.

Lemma stable_sort_sorted (l : list A) : StronglySorted R (stable_sort before l).
Proof.
  induction l as [| x l IH]; simpl; [constructor |].
  now apply insert_sorted_sorted.
Qed.
End Sorted.
End StableSortFacts.

(** ** Deactivated records *)

Lemma where_active_holds (r : MedDetails) :
  Sql.holds (where_active r) = true <->
  is_active r = Some 1%Z /\ is_deactivated r = Some 0%Z.
Proof.
  unfold where_active, Sql.eq_int.
  destruct (is_active r) as [a |], (is_deactivated r) as [d |]; simpl;
    try destruct (Z.eqb_spec a 1); try destruct (Z.eqb_spec d 0); simpl;
    split; try discriminate; try (intros [? ?]; congruence);
    intros; subst; auto.
Qed.

Lemma and3_holds (a b : Sql.tv) :
  Sql.holds (Sql.and3 a b) = true <-> Sql.holds a = true /\ Sql.holds b = true.
Proof.
  destruct a as [[] |], b as [[] |]; simpl; split; try discriminate; auto;
    intros [? ?]; discriminate.
Qed.

Lemma In_firstn {A : Type} (n : nat) (l : list A) (x : A) :
  In x (firstn n l) -> In x l.
Proof.
  revert l. induction n as [| n IH]; intros [| y l]; simpl; try tauto.
  intros [-> | H]; [now left | right; now apply IH].
Qed.

Lemma limit_In {A : Type} (n : Z) (l out : list A) (x : A) :
  Sql.limit n l = Some out -> In x out -> In x l.
Proof.
  unfold Sql.limit. destruct (n <? 0)%Z; [discriminate |].
  intros [= <-]. apply In_firstn.
Qed.

Lemma distinct_from_In (seen l : list MedDetails) (x : MedDetails) :
  In x (Sql.distinct_from seen l) -> In x l.
Proof.
  revert seen. induction l as [| r l IH]; intros seen; simpl; [tauto |].
  destruct (in_dec MedDetails_eq_dec r seen).
  - intros H. right. eapply IH, H.
  - intros [-> | H]; [now left | right; eapply IH, H].
Qed.

Section LiveRows.
Variable cat : list MedDetails.
Variable sim : string -> string -> Q.
Variable th : Q.

Lemma exact_statement_live (v : string) (rows : list Row) (row : Row) :
  exact_statement cat v = Some rows -> In row rows -> live_in cat (row_med row).
Proof.
  unfold exact_statement. intros Hrows Hin.
  apply (limit_In _ _ _ _ Hrows) in Hin.
  apply in_map_iff in Hin as (r & <- & Hin).
  apply stable_sort_In, filter_In in Hin as [Hcat Hw].
  apply and3_holds in Hw as [Hw _]. apply where_active_holds in Hw.
  simpl. split; tauto.
Qed.

Lemma fuzzy_statement_live (v : string) (n : Z) (rows : list Row) (row : Row) :
  fuzzy_statement cat v n = Some rows -> In row rows -> live_in cat (row_med row).
Proof.
  unfold fuzzy_statement. intros Hrows Hin.
  apply (limit_In _ _ _ _ Hrows), stable_sort_In in Hin.
  apply in_map_iff in Hin as (r & <- & Hin).
  apply filter_In in Hin as [Hcat Hw].
  apply and3_holds in Hw as [Hw _]. apply where_active_holds in Hw.
  simpl. split; tauto.
Qed.

Lemma where_composition_live (p1 : string) (l : list MedDetails) (r : MedDetails) :
  In r (Sql.distinct (List.filter (fun r => Sql.holds (where_composition sim th p1 r)) l)) ->
  In r l /\ is_active r = Some 1%Z /\ is_deactivated r = Some 0%Z.
Proof.
  intros Hin. apply distinct_from_In, filter_In in Hin as [Hcat Hw].
  apply and3_holds in Hw as [Hw _]. apply where_active_holds in Hw. tauto.
Qed.

Lemma composition_strength_statement_live (p1 p2 p3 : string) (n : Z)
      (rows : list Row) (row : Row) :
  composition_strength_statement cat sim th p1 p2 p3 n = Some rows ->
  In row rows -> live_in cat (row_med row).
Proof.
  unfold composition_strength_statement. intros Hrows Hin.
  apply (limit_In _ _ _ _ Hrows), stable_sort_In in Hin.
  apply in_map_iff in Hin as (r & <- & Hin).
  now apply where_composition_live in Hin.
Qed.

Lemma composition_statement_live (p1 : string) (n : Z) (rows : list Row) (row : Row) :
  composition_statement cat sim th p1 n = Some rows ->
  In row rows -> live_in cat (row_med row).
Proof.
  unfold composition_statement. intros Hrows Hin.
  apply (limit_In _ _ _ _ Hrows), stable_sort_In in Hin.
  apply in_map_iff in Hin as (r & <- & Hin).
  now apply where_composition_live in Hin.
Qed.

(** Every statement answers with live rows only. *)
Lemma run_statement_live (q : Query) (rows : list Row) (row : Row) :
  run_statement cat sim th q = Some rows -> In row rows -> live_in cat (row_med row).
Proof.
  destruct q; simpl.
  - apply exact_statement_live.
  - apply fuzzy_statement_live.
  - apply composition_strength_statement_live.
  - apply composition_statement_live.
Qed.
End LiveRows.

Lemma pool_query_live (pool : Pool) (q : Query) (log : list Query)
      (rows : list Row) (row : Row) :
  fst (pool_query pool q log) = Some rows -> In row rows ->
  live_in (catalog pool) (row_med row).
Proof.
  unfold pool_query. simpl. destruct (query_throws pool log q); [discriminate |].
  apply run_statement_live.
Qed.

Lemma tryExactMatch_live (pool : Pool) (variations : list string) :
  forall (log : list Query) (r : SearchResult),
    fst (tryExactMatch pool variations log) = Some r ->
    exists m, match_ r = Some m /\ from_live_row pool m.
Proof.
  induction variations as [| v rest IH]; intros log r; simpl; [discriminate |].
  unfold bind.
  destruct (pool_query pool (ExactQuery v) log) as [res log1] eqn:Hq.
  assert (Hres : fst (pool_query pool (ExactQuery v) log) = res) by now rewrite Hq.
  destruct res as [[| row rows] |]; try apply IH.
  unfold ret. simpl. intros [= <-]. simpl. eexists. split; [reflexivity |].
  exists (row_med row). split; [| reflexivity].
  eapply pool_query_live; [exact Hres | now left].
Qed.

Lemma tryFuzzyLikeSearch_live (pool : Pool) (variations : list string) (n : Z) :
  forall (acc : list Candidate) (log : list Query),
    Forall (fun c => from_live_row pool (medicine c)) acc ->
    Forall (fun c => from_live_row pool (medicine c))
           (fst (tryFuzzyLikeSearch_from pool acc variations n log)).
Proof.
  induction variations as [| v rest IH]; intros acc log Hacc; simpl; [exact Hacc |].
  unfold bind.
  destruct (pool_query pool (FuzzyQuery v n) log) as [res log1] eqn:Hq.
  assert (Hres : fst (pool_query pool (FuzzyQuery v n) log) = res) by now rewrite Hq.
  apply IH. destruct res as [rows |]; [| exact Hacc].
  apply Forall_app. split; [exact Hacc |].
  rewrite List.Forall_forall. intros c Hc.
  apply in_map_iff in Hc as (row & <- & Hrow). simpl.
  exists (row_med row). split; [| reflexivity].
  eapply pool_query_live; eauto.
Qed.

Lemma tryCompositionSearch_live (pool : Pool) (salt : option string) (n : Z)
      (log : list Query) :
  Forall (fun c => from_live_row pool (medicine c))
         (fst (tryCompositionSearch pool salt n log)).
Proof.
  destruct salt as [[| c0 s0] |]; try (simpl; constructor).
  unfold tryCompositionSearch, bind.
  match goal with
  | |- context [pool_query pool ?q log] =>
      destruct (pool_query pool q log) as [res log1] eqn:Hq;
      assert (Hres : fst (pool_query pool q log) = res) by now rewrite Hq
  end.
  destruct res as [rows |]; [| simpl; constructor].
  unfold ret. simpl. rewrite List.Forall_forall. intros c Hc.
  apply in_map_iff in Hc as (row & <- & Hrow). simpl.
  exists (row_med row). split; [| reflexivity].
  eapply pool_query_live; eauto.
Qed.

(** ** The steps of the resolver *)

Lemma fuzzySearchMedicine_steps :
  forall (pool : Pool) (medicineName : NameArg) (options : Options) (log : list Query),
    fuzzySearchMedicine pool medicineName options log =
    (step5 options (fst (upto_step4 pool medicineName options log)),
     snd (upto_step4 pool medicineName options log)).
Proof.
  intros pool [| s] options log; [reflexivity |].
  unfold fuzzySearchMedicine, upto_step4, upto_step3.
  destruct (String.length (Js.trim s) <? 2); [reflexivity |].
  unfold bind.
  destruct ((if default true (preferExactMatch options)
             then tryExactMatch pool (generateMedicineNameVariations s)
             else ret None) log) as [[found |] log1]; [reflexivity |].
  destruct (tryFuzzyLikeSearch pool _ _ log1) as [fuzzyResults log2].
  unfold ret, step4.
  destruct (Js.truthy (includeSalt options) && (length fuzzyResults =? 0)).
  - unfold bind.
    destruct (tryCompositionSearch pool _ _ log2) as [compositionResults log3].
    unfold ret, step5. simpl.
    destruct (sortCandidates _) as [| b bs]; [reflexivity |].
    destruct (Qle_bool _ _); reflexivity.
  - unfold ret, step5. simpl.
    destruct (sortCandidates _) as [| b bs]; [reflexivity |].
    destruct (Qle_bool _ _); reflexivity.
Qed.

(** C9.  Whatever the name, the options and the state of the store, the
    rows a statement of any strategy returns are rows of the catalog with
    [is_active = 1] and [is_deactivated = 0]; so are the rows behind the
    candidates of the fuzzy and of the composition strategy and behind the
    medicine of the final result.  A record with [is_active = 0] or
    [is_deactivated = 1] is therefore never among them. *)
Theorem deactivated_never_returned :
  forall (pool : Pool),
    (forall q log rows row,
        fst (pool_query pool q log) = Some rows -> In row rows ->
        live_in (catalog pool) (row_med row)
        /\ forall d, (is_active d = Some 0%Z \/ is_deactivated d = Some 1%Z) ->
                     row_med row <> d)
    /\ (forall variations log r,
          fst (tryExactMatch pool variations log) = Some r ->
          exists m, match_ r = Some m /\ from_live_row pool m)
    /\ (forall variations n log c,
          In c (fst (tryFuzzyLikeSearch pool variations n log)) ->
          from_live_row pool (medicine c))
    /\ (forall salt n log c,
          In c (fst (tryCompositionSearch pool salt n log)) ->
          from_live_row pool (medicine c))
    /\ (forall medicineName options log m,
          match_ (fst (fuzzySearchMedicine pool medicineName options log)) = Some m ->
          from_live_row pool m).
Proof.
  intros pool. split; [| split; [| split; [| split]]].
  - intros q log rows row Hq Hin.
    pose proof (pool_query_live pool q log rows row Hq Hin) as Hlive.
    split; [exact Hlive |].
    destruct Hlive as (_ & Ha & Hd). intros d [H | H] Heq; subst d; congruence.
  - apply tryExactMatch_live.
  - intros variations n log c Hc.
    pose proof (tryFuzzyLikeSearch_live pool variations n [] log (List.Forall_nil _)) as H.
    rewrite List.Forall_forall in H. now apply H.
  - intros salt n log c Hc.
    pose proof (tryCompositionSearch_live pool salt n log) as H.
    rewrite List.Forall_forall in H. now apply H.
  - intros medicineName options log m.
    rewrite fuzzySearchMedicine_steps. cbn [fst].
    unfold upto_step4, upto_step3, bind.
    destruct medicineName as [| s]; [discriminate |].
    destruct (String.length (Js.trim s) <? 2); [discriminate |].
    destruct ((if default true (preferExactMatch options)
               then tryExactMatch pool (generateMedicineNameVariations s)
               else ret None) log) as [[found |] log1] eqn:Hexact.
    + simpl. intros Hm.
      destruct (default true (preferExactMatch options)); [| discriminate].
      destruct (tryExactMatch_live pool (generateMedicineNameVariations s) log found)
        as (m' & Hm' & Hlive).
      { now rewrite Hexact. }
      congruence.
    + pose proof (tryFuzzyLikeSearch_live pool (generateMedicineNameVariations s)
                    (default 5%Z (maxResults options)) [] log1 (List.Forall_nil _)) as Hf.
      fold (tryFuzzyLikeSearch pool (generateMedicineNameVariations s)
              (default 5%Z (maxResults options)) log1) in Hf.
      destruct (tryFuzzyLikeSearch pool _ _ log1) as [fuzzyResults log2].
      cbn [fst] in Hf. unfold ret, step4.
      assert (Hgate : forall merged,
                 Forall (fun c => from_live_row pool (medicine c)) merged ->
                 match_ (step5 options (Candidates merged)) = Some m ->
                 from_live_row pool m).
      { intros merged Hall. unfold step5.
        destruct (sortCandidates merged) as [| b bs] eqn:Hsort; [discriminate |].
        destruct (Qle_bool _ _); [| discriminate].
        simpl. intros [= <-].
        rewrite List.Forall_forall in Hall. apply Hall.
        unfold sortCandidates in Hsort.
        eapply stable_sort_In. rewrite Hsort. now left. }
      destruct (Js.truthy (includeSalt options) && (length fuzzyResults =? 0)).
      * unfold bind.
        pose proof (tryCompositionSearch_live pool (includeSalt options)
                      (default 5%Z (maxResults options)) log2) as Hc.
        destruct (tryCompositionSearch pool _ _ log2) as [compositionResults log3].
        cbn [fst] in Hc. unfold ret. cbn [fst]. apply Hgate.
        apply Forall_app. now split.
      * cbn [fst]. now apply Hgate.
Qed.

Lemma deactivated_never_returned_witness :
  from_live_row (reliable_pool sample_catalog)
    (formatMedicineResult (simple_med 1 "Crocin" "Paracetamol" "500" "mg" (Some 10%Z) 1 0)).
Proof.
  destruct (deactivated_never_returned (reliable_pool sample_catalog))
    as (_ & _ & _ & _ & H).
  apply (H (Name "crocin") default_options []).
  vm_compute. reflexivity.
Defined.

(** The inactive "Oldcin" and the deactivated "Gonecin" of the sample
    catalog are not found under their own names. *)
Example deactivated_by_name :
  fst (fuzzySearchMedicine (reliable_pool sample_catalog) (Name "Oldcin") default_options [])
  = noMatch
  /\ fst (fuzzySearchMedicine (reliable_pool sample_catalog) (Name "Gonecin") default_options [])
     = noMatch.
Proof. split; vm_compute; reflexivity. Qed.

(** ** The acceptance gate *)

Lemma variations_length (medicineName v : string) :
  In v (generateMedicineNameVariations medicineName) -> 2 <= String.length v.
Proof.
  unfold generateMedicineNameVariations. destruct medicineName; [intros [] |].
  intros H. apply filter_In in H as [_ H]. now apply Nat.leb_le in H.
Qed.

Lemma toLowerCase_length (s : string) :
  String.length (Js.toLowerCase s) = String.length s.
Proof. induction s as [| c s IH]; simpl; congruence. Qed.

(** Two non-empty strings that differ in letter case only have
    similarity 1. *)
Lemma calculateSimilarity_same_letters (a b : string) :
  a <> EmptyString ->
  Js.toLowerCase a = Js.toLowerCase b ->
  calculateSimilarity (Some a) (Some b) = 1%Q.
Proof.
  intros Ha Hab.
  destruct a as [| c1 r1]; [congruence |].
  destruct b as [| c2 r2]; [discriminate |].
  unfold calculateSimilarity. rewrite Hab. now rewrite String.eqb_refl.
Qed.

(** A hit of the exact strategy: the row's brand name is the variant up
    to letter case, so that their similarity is 1, the confidence
    returned. *)
Lemma tryExactMatch_hit (pool : Pool) (variations : list string) :
  forall (log : list Query) (found : SearchResult),
    (forall v, In v variations -> 2 <= String.length v) ->
    fst (tryExactMatch pool variations log) = Some found ->
    success found = true
    /\ confidence found = 1%Q
    /\ matchType found = Some "exact"
    /\ exists (variant : string) (row : MedDetails),
         In variant variations
         /\ searchTerm found = Some variant
         /\ match_ found = Some (formatMedicineResult row)
         /\ calculateSimilarity (Some variant) (med_brand_name row) = 1%Q.
Proof.
  induction variations as [| v rest IH]; intros log found Hlen; simpl; [discriminate |].
  unfold bind.
  destruct (pool_query pool (ExactQuery v) log) as [res log1] eqn:Hq.
  assert (Hres : fst (pool_query pool (ExactQuery v) log) = res) by now rewrite Hq.
  assert (Hrest : forall found',
             fst (tryExactMatch pool rest log1) = Some found' ->
             success found' = true /\ confidence found' = 1%Q
             /\ matchType found' = Some "exact"
             /\ exists variant row,
                  In variant (v :: rest) /\ searchTerm found' = Some variant
                  /\ match_ found' = Some (formatMedicineResult row)
                  /\ calculateSimilarity (Some variant) (med_brand_name row) = 1%Q).
  { intros found' H. destruct (IH log1 found') as (? & ? & ? & variant & row & ? & ?); auto.
    - intros v' Hv'. apply Hlen. now right.
    - repeat split; auto. exists variant, row. split; [now right | assumption]. }
  destruct res as [[| row rows] |]; try apply Hrest.
  unfold ret. simpl. intros [= <-]. simpl. repeat split.
  exists v, (row_med row). repeat split; [now left |].
  (* the WHERE clause of the statement *)
  unfold pool_query in Hres. simpl in Hres.
  destruct (query_throws pool log (ExactQuery v)); [discriminate |].
  simpl in Hres. unfold exact_statement in Hres.
  assert (Hin : In row (row :: rows)) by now left.
  apply (limit_In _ _ _ _ Hres) in Hin.
  apply in_map_iff in Hin as (r & <- & Hin). simpl.
  apply stable_sort_In, filter_In in Hin as [_ Hw].
  apply and3_holds in Hw as [_ Hw].
  destruct (med_brand_name r) as [b |]; [| discriminate]. simpl in Hw.
  destruct (String.eqb_spec (Js.toLowerCase b) (Js.toLowerCase v)) as [Heq |]; [| discriminate].
  apply calculateSimilarity_same_letters; [| now symmetry].
  intros ->. specialize (Hlen "" (or_introl eq_refl)). simpl in Hlen. lia.
Qed.




(** ** The composition fallback *)

(** What each strategy sends to the store. *)
Lemma tryExactMatch_sent (pool : Pool) (variations : list string) :
  forall log, exists sent,
    snd (tryExactMatch pool variations log) = log ++ sent
    /\ Forall (fun q => is_composition_query q = false) sent.
Proof.
  induction variations as [| v rest IH]; intros log; simpl.
  - exists []. split; [now rewrite app_nil_r | constructor].
  - unfold bind, pool_query.
    destruct (if query_throws pool log (ExactQuery v) then None else _)
      as [[| row rows] |].
    2: { exists [ExactQuery v]. split; [reflexivity | now repeat constructor]. }
    all: destruct (IH (log ++ [ExactQuery v])) as (sent & -> & Hsent);
      exists (ExactQuery v :: sent); split;
      [now rewrite <- app_assoc | now constructor].
Qed.

Lemma tryFuzzyLikeSearch_sent (pool : Pool) (variations : list string) (n : Z) :
  forall acc log, exists sent,
    snd (tryFuzzyLikeSearch_from pool acc variations n log) = log ++ sent
    /\ Forall (fun q => is_composition_query q = false) sent.
Proof.
  induction variations as [| v rest IH]; intros acc log; simpl.
  - exists []. split; [now rewrite app_nil_r | constructor].
  - unfold bind, pool_query.
    match goal with
    | |- context [tryFuzzyLikeSearch_from pool ?acc' rest n (log ++ [FuzzyQuery v n])] =>
        destruct (IH acc' (log ++ [FuzzyQuery v n])) as (sent & -> & Hsent)
    end.
    exists (FuzzyQuery v n :: sent). split; [now rewrite <- app_assoc | now constructor].
Qed.

Lemma tryCompositionSearch_sent (pool : Pool) (salt : option string) (n : Z)
      (log : list Query) :
  Js.truthy salt = true ->
  exists q, snd (tryCompositionSearch pool salt n log) = log ++ [q]
            /\ is_composition_query q = true.
Proof.
  destruct salt as [[| c0 s0] |]; try discriminate. intros _.
  unfold tryCompositionSearch, bind, pool_query.
  match goal with
  | |- context [query_throws pool log ?q] => exists q
  end.
  split.
  - match goal with
    | |- context [if ?b then None else ?r] => destruct (if b then None else r)
    end; reflexivity.
  - destruct (ex_strength (extractStrengthFromName (String c0 s0))) as [st |],
             (ex_unit (extractStrengthFromName (String c0 s0))) as [u |];
      try reflexivity.
    destruct (Js.truthy (Some st) && Js.truthy (Some u)); reflexivity.
Qed.

Lemma upto_step3_sent (pool : Pool) (medicineName : NameArg) (options : Options)
      (log : list Query) :
  exists sent,
    snd (upto_step3 pool medicineName options log) = log ++ sent
    /\ Forall (fun q => is_composition_query q = false) sent.
Proof.
  assert (Hnone : exists sent : list Query,
             log = log ++ sent /\ Forall (fun q => is_composition_query q = false) sent).
  { exists []. split; [now rewrite app_nil_r | constructor]. }
  unfold upto_step3. destruct medicineName as [| s]; [exact Hnone |].
  destruct (String.length (Js.trim s) <? 2); [exact Hnone |].
  unfold bind.
  assert (Hexact : exists sent,
             snd ((if default true (preferExactMatch options)
                   then tryExactMatch pool (generateMedicineNameVariations s)
                   else ret None) log) = log ++ sent
             /\ Forall (fun q => is_composition_query q = false) sent).
  { destruct (default true (preferExactMatch options));
      [apply tryExactMatch_sent | exact Hnone]. }
  destruct ((if default true (preferExactMatch options)
             then tryExactMatch pool (generateMedicineNameVariations s)
             else ret None) log) as [[found |] log1];
    destruct Hexact as (sent1 & Hlog1 & Hsent1); simpl in Hlog1; subst log1.
  - exists sent1. split; [reflexivity | assumption].
  - destruct (tryFuzzyLikeSearch_sent pool (generateMedicineNameVariations s)
                (default 5%Z (maxResults options)) [] (log ++ sent1))
      as (sent2 & Hlog2 & Hsent2).
    unfold tryFuzzyLikeSearch.
    destruct (tryFuzzyLikeSearch_from pool [] _ _ (log ++ sent1)) as [f log2].
    simpl in Hlog2. subst log2. simpl.
    exists (sent1 ++ sent2). split; [now rewrite app_assoc | now apply Forall_app].
Qed.

(** The comparison of [sort] ranks by match score first. *)
Lemma compareCandidates_not_after (a b : Candidate) :
  Qle_bool (compareCandidates a b) 0 = true -> (matchScore b <= matchScore a)%Z.
Proof.
  unfold compareCandidates. destruct (Z.eqb_spec (matchScore b) (matchScore a)) as [-> |];
    simpl; [lia |].
  rewrite Qle_bool_iff. unfold Qle. simpl. lia.
Qed.

Lemma compareCandidates_after (a b : Candidate) :
  Qle_bool (compareCandidates a b) 0 = false -> (matchScore a <= matchScore b)%Z.
Proof.
  unfold compareCandidates. destruct (Z.eqb_spec (matchScore b) (matchScore a)) as [-> |];
    simpl; [lia |].
  intros H. destruct (Z.le_gt_cases (matchScore a) (matchScore b)) as [| Hlt]; [assumption |].
  exfalso. assert (Hle : Qle_bool (inject_Z (matchScore b - matchScore a)) 0 = true).
  { rewrite Qle_bool_iff. unfold Qle. simpl. lia. }
  congruence.
Qed.

Lemma sortCandidates_by_score (l : list Candidate) :
  StronglySorted (fun a b => (matchScore b <= matchScore a)%Z) (sortCandidates l).
Proof.
  apply stable_sort_sorted.
  - intros a b c. lia.
  - apply compareCandidates_not_after.
  - apply compareCandidates_after.
Qed.

Lemma eq_text_holds (x : option string) (p : string) :
  Sql.holds (Sql.eq_text x (Some p)) = true <-> x = Some p.
Proof.
  destruct x as [a |]; simpl; [| split; discriminate].
  destruct (String.eqb_spec a p); split; congruence.
Qed.

(** The branch 100 of [comp_match_score]. *)
Lemma comp_match_score_100 (sim : string -> string -> Q) (th : Q)
      (p1 p2 p3 : string) (r : MedDetails) :
  comp_match_score_of sim th p1 p2 p3 r = 100%Z <->
  exists s, In s (slots r)
            /\ Sql.holds (slot_similar sim th p1 s) = true
            /\ slot_strength s = Some p2
            /\ Sql.lower (slot_unit s) = Some (Js.toLowerCase p3).
Proof.
  unfold comp_match_score_of.
  destruct (existsb (fun s => Sql.holds (slot_exact sim th p1 p2 p3 s)) (slots r)) eqn:Hex.
  - split; [intros _ | reflexivity].
    apply existsb_exists in Hex as (s & Hs & Hh). exists s. split; [exact Hs |].
    unfold slot_exact in Hh. apply and3_holds in Hh as [Hh Hu].
    apply and3_holds in Hh as [Hh Hst].
    apply eq_text_holds in Hst. apply (eq_text_holds _ (Js.toLowerCase p3)) in Hu. tauto.
  - split.
    + intros H. destruct (existsb _ (slots r)) in H; discriminate.
    + intros (s & Hs & Hh & Hst & Hu). exfalso.
      assert (existsb (fun s => Sql.holds (slot_exact sim th p1 p2 p3 s)) (slots r) = true);
        [| congruence].
      apply existsb_exists. exists s. split; [exact Hs |].
      unfold slot_exact. apply and3_holds. split; [apply and3_holds; split |].
      * exact Hh.
      * now apply eq_text_holds.
      * now apply (eq_text_holds _ (Js.toLowerCase p3)).
Qed.

Lemma step4_sent (pool : Pool) (options : Options) (st : Stage) (log : list Query) :
  exists sent,
    snd (step4 pool options st log) = log ++ sent
    /\ ((exists q, In q sent /\ is_composition_query q = true) <->
        (Js.truthy (includeSalt options) = true /\ st = Candidates [])).
Proof.
  assert (Hnone : ~ (Js.truthy (includeSalt options) = true /\ st = Candidates []) ->
            exists sent : list Query,
              log = log ++ sent
              /\ ((exists q, In q sent /\ is_composition_query q = true) <->
                  (Js.truthy (includeSalt options) = true /\ st = Candidates []))).
  { intros Hno. exists []. split; [now rewrite app_nil_r |].
    split; [intros (q & [] & _) | intros H; now destruct Hno]. }
  unfold step4. destruct st as [| found | f]; try (apply Hnone; intros [_ ?]; discriminate).
  destruct (Js.truthy (includeSalt options)) eqn:Hsalt; simpl.
  2: { apply Hnone. intros [? _]; discriminate. }
  destruct f as [| c f]; simpl.
  2: { apply Hnone. intros [_ ?]; discriminate. }
  unfold bind.
  destruct (tryCompositionSearch_sent pool (includeSalt options)
              (default 5%Z (maxResults options)) log Hsalt) as (q & Hq & Hcomp).
  destruct (tryCompositionSearch pool _ _ log) as [c log'].
  simpl in Hq. subst log'. simpl.
  exists [q]. split; [reflexivity |].
  split; [auto | intros _; exists q; split; [now left | assumption]].
Qed.

(** C4 (as amended).  The run of [fuzzySearchMedicine] sends a statement
    of the composition strategy exactly when a non-empty salt was given
    and the fuzzy strategy ran and produced no candidate.  When the first
    of the sorted merged candidates has match score 100 and its similarity
    is at least [minSimilarity], the result is a success with matchType
    "exact-composition".  The sort ranks by match score first, so that no
    candidate stands before one of a higher score, and the store gives
    score 100 exactly to the rows with a slot whose name is
    trigram-similar to the salt name and whose strength and unit are those
    of the salt. *)
Theorem composition_fallback :
  forall (pool : Pool) (medicineName : NameArg) (options : Options) (log : list Query),
    let threshold := default 0.7%Q (minSimilarity options) in
    let out := fuzzySearchMedicine pool medicineName options log in
    (exists sent,
        snd out = log ++ sent
        /\ ((exists q, In q sent /\ is_composition_query q = true) <->
            (Js.truthy (includeSalt options) = true
             /\ fst (upto_step3 pool medicineName options log) = Candidates [])))
    /\ (forall merged best rest,
          fst (upto_step4 pool medicineName options log) = Candidates merged ->
          sortCandidates merged = best :: rest ->
          matchScore best = 100%Z ->
          (threshold <= similarity best)%Q ->
          success (fst out) = true
          /\ matchType (fst out) = Some "exact-composition"
          /\ match_ (fst out) = Some (medicine best))
    /\ (forall merged,
          StronglySorted (fun a b => (matchScore b <= matchScore a)%Z)
                         (sortCandidates merged))
    /\ (forall p1 p2 p3 r,
          comp_match_score_of (pg_similarity pool) (pg_similarity_threshold pool)
                              p1 p2 p3 r = 100%Z <->
          exists s, In s (slots r)
                    /\ Sql.holds (slot_similar (pg_similarity pool)
                                               (pg_similarity_threshold pool) p1 s) = true
                    /\ slot_strength s = Some p2
                    /\ Sql.lower (slot_unit s) = Some (Js.toLowerCase p3)).
Proof.
  intros pool medicineName options log threshold out. subst out.
  rewrite fuzzySearchMedicine_steps. cbn [fst snd].
  split; [| split; [| split]].
  - unfold upto_step4, bind.
    destruct (upto_step3_sent pool medicineName options log) as (sent1 & Hlog1 & Hsent1).
    destruct (upto_step3 pool medicineName options log) as [st log1].
    simpl in Hlog1. subst log1. cbn [fst].
    destruct (step4_sent pool options st (log ++ sent1)) as (sent2 & Hlog2 & Hiff).
    exists (sent1 ++ sent2). split; [now rewrite Hlog2, app_assoc |].
    rewrite <- Hiff. split.
    + intros (q & Hin & Hq). apply in_app_or in Hin as [Hin | Hin].
      * rewrite List.Forall_forall in Hsent1. rewrite (Hsent1 q Hin) in Hq. discriminate.
      * now exists q.
    + intros (q & Hin & Hq). exists q. split; [apply in_or_app; now right | assumption].
  - intros merged best rest -> Hsort Hscore Hgate.
    unfold step5. rewrite Hsort. fold threshold.
    apply Qle_bool_iff in Hgate. rewrite Hgate, Hscore. repeat split.
  - apply sortCandidates_by_score.
  - apply comp_match_score_100.
Qed.

Lemma composition_fallback_witness :
  matchType (fst (fuzzySearchMedicine (reliable_pool sample_catalog) (Name "Zz")
                    (salt_options "Paracetamol 500mg") []))
  = Some "exact-composition".
Proof.
  destruct (composition_fallback (reliable_pool sample_catalog) (Name "Zz")
              (salt_options "Paracetamol 500mg") []) as (_ & H & _).
  eapply H.
  - vm_compute. reflexivity.
  - vm_compute. reflexivity.
  - reflexivity.
  - vm_compute. discriminate.
Defined.

(** C4 as stated fails below the threshold: the only row has a slot that
    is trigram-similar to the salt name (similarity 12/22) with the salt's
    strength and unit, the composition strategy runs and its candidate has
    match score 100, and the result is "no match". *)
Lemma composition_fallback_counterexample :
  let pool := reliable_pool calpol_catalog in
  let options := salt_options "Paracetamol 500mg" in
  let out := fuzzySearchMedicine pool (Name "Zz") options [] in
  fst (upto_step3 pool (Name "Zz") options []) = Candidates []
  /\ In (CompositionStrengthQuery "Paracetamol" "500" "mg" 5) (snd out)
  /\ (exists best,
         fst (upto_step4 pool (Name "Zz") options []) = Candidates [best]
         /\ sortCandidates [best] = [best]
         /\ matchScore best = 100%Z
         /\ similarity best = (12 # 22)%Q)
  /\ matchType (fst out) <> Some "exact-composition"
  /\ fst out = noMatch.
Proof.
  vm_compute. split; [reflexivity |]. split; [tauto |]. split.
  - eexists. repeat split.
  - split; [discriminate | reflexivity].
Qed.

(** ** Edit distance *)

Lemma edit_distance_nil_r (s : list ascii) : edit_distance s [] = length s.
Proof. destruct s; reflexivity. Qed.

Lemma edit_distance_cons (a b : ascii) (s t : list ascii) :
  edit_distance (a :: s) (b :: t) =
  min3 (edit_distance s (b :: t) + 1)
       (edit_distance (a :: s) t + 1)
       (edit_distance s t + subst_cost a b).
Proof. reflexivity. Qed.

Lemma min3_cases (a b c : nat) :
  (min3 a b c = a /\ a <= b /\ a <= c)
  \/ (min3 a b c = b /\ b <= a /\ b <= c)
  \/ (min3 a b c = c /\ c <= a /\ c <= b).
Proof. unfold min3. lia. Qed.

Lemma script_insert_all (t : list ascii) : edit_script [] t (length t).
Proof. induction t as [| b t IH]; simpl; [constructor | now apply script_insert]. Qed.

Lemma script_delete_all (s : list ascii) : edit_script s [] (length s).
Proof. induction s as [| a s IH]; simpl; [constructor | now apply script_delete]. Qed.

(** The recurrence is the cost of some script ... *)
Lemma edit_distance_script (s t : list ascii) : edit_script s t (edit_distance s t).
Proof.
  revert t. induction s as [| a s IHs]; intros t.
  - apply script_insert_all.
  - induction t as [| b t IHt].
    + rewrite edit_distance_nil_r. apply script_delete_all.
    + rewrite edit_distance_cons.
      destruct (min3_cases (edit_distance s (b :: t) + 1)
                           (edit_distance (a :: s) t + 1)
                           (edit_distance s t + subst_cost a b))
        as [(-> & _) | [(-> & _) | (-> & _)]].
      * rewrite Nat.add_1_r. apply script_delete, IHs.
      * rewrite Nat.add_1_r. apply script_insert, IHt.
      * apply script_substitute, IHs.
Qed.

(** ... and no script is cheaper. *)
Lemma edit_distance_least (s t : list ascii) (n : nat) :
  edit_script s t n -> edit_distance s t <= n.
Proof.
  induction 1 as [| a s t n _ IH | b s t n _ IH | a b s t n _ IH].
  - simpl. lia.
  - destruct t as [| b t].
    + rewrite edit_distance_nil_r in *. simpl. lia.
    + rewrite edit_distance_cons. unfold min3. lia.
  - destruct s as [| a s].
    + simpl in *. lia.
    + rewrite edit_distance_cons. unfold min3. lia.
  - rewrite edit_distance_cons. unfold min3. lia.
Qed.

(** Scripts can be extended at the far end as well. *)
Lemma script_delete_last (a : ascii) (s t : list ascii) (n : nat) :
  edit_script s t n -> edit_script (s ++ [a]) t (S n).
Proof.
  induction 1 as [| a0 s t n _ IH | b0 s t n _ IH | a0 b0 s t n _ IH]; simpl.
  - apply script_delete. constructor.
  - now apply script_delete.
  - now apply script_insert.
  - change (S (n + subst_cost a0 b0)) with (S n + subst_cost a0 b0).
    now apply script_substitute.
Qed.

Lemma script_insert_last (b : ascii) (s t : list ascii) (n : nat) :
  edit_script s t n -> edit_script s (t ++ [b]) (S n).
Proof.
  induction 1 as [| a0 s t n _ IH | b0 s t n _ IH | a0 b0 s t n _ IH]; simpl.
  - apply script_insert. constructor.
  - now apply script_delete.
  - now apply script_insert.
  - change (S (n + subst_cost a0 b0)) with (S n + subst_cost a0 b0).
    now apply script_substitute.
Qed.

Lemma script_substitute_last (a b : ascii) (s t : list ascii) (n : nat) :
  edit_script s t n -> edit_script (s ++ [a]) (t ++ [b]) (n + subst_cost a b).
Proof.
  induction 1 as [| a0 s t n _ IH | b0 s t n _ IH | a0 b0 s t n _ IH]; simpl.
  - apply (script_substitute a b [] [] 0). constructor.
  - now apply script_delete.
  - now apply script_insert.
  - replace (n + subst_cost a0 b0 + subst_cost a b)
      with (n + subst_cost a b + subst_cost a0 b0) by lia.
    now apply script_substitute.
Qed.

Lemma script_rev (s t : list ascii) (n : nat) :
  edit_script s t n -> edit_script (rev s) (rev t) n.
Proof.
  induction 1 as [| a s t n _ IH | b s t n _ IH | a b s t n _ IH]; simpl.
  - constructor.
  - now apply script_delete_last.
  - now apply script_insert_last.
  - now apply script_substitute_last.
Qed.

(** Reading both strings backwards does not change the distance. *)
Lemma edit_distance_rev (s t : list ascii) :
  edit_distance (rev s) (rev t) = edit_distance s t.
Proof.
  apply Nat.le_antisymm.
  - apply edit_distance_least, script_rev, edit_distance_script.
  - rewrite <- (rev_involutive s), <- (rev_involutive t) at 1.
    apply edit_distance_least, script_rev, edit_distance_script.
Qed.

(** ** The matrix of [levenshteinDistance] *)

Lemma mset_shape (H W : nat) (m : Matrix) (i j v : nat) :
  shape H W m -> shape H W (mset m i j v).
Proof.
  intros [Hlen Hrows]. unfold mset. split.
  - now rewrite length_insert.
  - intros a Ha. destruct (decide (a = i)) as [-> | Hne].
    + rewrite list_lookup_total_insert_eq by lia.
      rewrite length_insert. now apply Hrows.
    + rewrite list_lookup_total_insert_ne by congruence. now apply Hrows.
Qed.

Lemma mget_mset_same (H W : nat) (m : Matrix) (i j v : nat) :
  shape H W m -> i < H -> j < W -> mget (mset m i j v) i j = v.
Proof.
  intros [Hlen Hrows] Hi Hj. unfold mget, mset.
  rewrite list_lookup_total_insert_eq by lia.
  rewrite list_lookup_total_insert_eq; [reflexivity |].
  rewrite Hrows; lia.
Qed.

Lemma mget_mset_other (m : Matrix) (i j v a b : nat) :
  a <> i \/ b <> j -> mget (mset m i j v) a b = mget m a b.
Proof.
  intros Hne. unfold mget, mset.
  destruct (decide (a = i)) as [-> | Ha].
  - destruct (decide (i < length m)) as [Hi | Hi].
    + rewrite list_lookup_total_insert_eq by lia.
      rewrite list_lookup_total_insert_ne; [reflexivity |].
      destruct Hne; congruence.
    + rewrite list_insert_ge by lia. reflexivity.
  - rewrite list_lookup_total_insert_ne by congruence. reflexivity.
Qed.

Lemma replicate_shape (H W : nat) : shape H W (replicate H (replicate W 0)).
Proof.
  split; [apply length_replicate |].
  intros i Hi. rewrite (list_lookup_total_correct _ _ (replicate W 0)).
  - apply length_replicate.
  - now apply lookup_replicate_2.
Qed.

(** A [for] loop over [a, a+1, ..., a+n-1] keeps an invariant indexed by
    the loop counter. *)
Lemma foldl_seq_invariant {S : Type} (P : nat -> S -> Prop) (step : S -> nat -> S) :
  forall (n a : nat) (st : S),
    P a st ->
    (forall k st', a <= k < a + n -> P k st' -> P (Datatypes.S k) (step st' k)) ->
    P (a + n) (foldl step st (seq a n)).
Proof.
  induction n as [| n IH]; intros a st Hstart Hstep; simpl.
  - now rewrite Nat.add_0_r.
  - replace (a + Datatypes.S n) with (Datatypes.S a + n) by lia.
    apply IH.
    + apply Hstep; [lia | assumption].
    + intros k st' Hk. apply Hstep. lia.
Qed.

Lemma chars_length (s : string) : length (chars s) = String.length s.
Proof. induction s as [| c s IH]; simpl; congruence. Qed.

Lemma char_at_nth (s : string) (i : nat) :
  Js.char_at s i = nth i (chars s) Ascii.zero.
Proof.
  unfold Js.char_at. revert i. induction s as [| c s IH]; intros [| i]; simpl; auto.
Qed.

Section Levenshtein.
Variables str1 str2 : string.
Abbreviation l1 := (chars str1).
Abbreviation l2 := (chars str2).
Abbreviation len1 := (String.length str1).
Abbreviation len2 := (String.length str2).
Abbreviation D := (prefix_distance str1 str2).
Abbreviation filled := (filled_upto str1 str2).

Lemma D_row0 (j : nat) : j <= len2 -> D 0 j = j.
Proof.
  intros Hj. unfold prefix_distance. simpl. rewrite length_rev, length_firstn.
  rewrite chars_length. lia.
Qed.

Lemma D_col0 (i : nat) : i <= len1 -> D i 0 = i.
Proof.
  intros Hi. unfold prefix_distance. simpl. rewrite edit_distance_nil_r, length_rev, length_firstn.
  rewrite chars_length. lia.
Qed.

Lemma firstn_snoc (l : list ascii) (i : nat) :
  i < length l -> firstn (S i) l = firstn i l ++ [nth i l Ascii.zero].
Proof.
  revert i. induction l as [| c l IH]; intros i Hi; simpl in Hi; [lia |].
  destruct i as [| i]; [reflexivity |].
  change (firstn (S (S i)) (c :: l)) with (c :: firstn (S i) l).
  rewrite IH by lia. reflexivity.
Qed.

Lemma D_step (i j : nat) :
  i < len1 -> j < len2 ->
  D (S i) (S j) =
  min3 (D i (S j) + 1) (D (S i) j + 1)
       (D i j + subst_cost (Js.char_at str1 i) (Js.char_at str2 j)).
Proof.
  intros Hi Hj. unfold prefix_distance.
  assert (H1 : i < length l1) by (rewrite chars_length; exact Hi).
  assert (H2 : j < length l2) by (rewrite chars_length; exact Hj).
  rewrite (firstn_snoc l1 i H1), (firstn_snoc l2 j H2), !rev_unit.
  rewrite edit_distance_cons, !char_at_nth. reflexivity.
Qed.

Lemma first_loops :
  filled 1 1
    (foldl (fun m j => mset m 0 j j)
       (foldl (fun m i => mset m i 0 i)
          (replicate (len1 + 1) (replicate (len2 + 1) 0)) (seq 0 (len1 + 1)))
       (seq 0 (len2 + 1))).
Proof.
  (* first loop: column 0 *)
  pose (P1 := fun (k : nat) (m : Matrix) =>
                shape (len1 + 1) (len2 + 1) m
                /\ forall a, a < k -> mget m a 0 = a).
  assert (H1 : P1 (0 + (len1 + 1))
                  (foldl (fun m i => mset m i 0 i)
                     (replicate (len1 + 1) (replicate (len2 + 1) 0)) (seq 0 (len1 + 1)))).
  { apply foldl_seq_invariant.
    - split; [apply replicate_shape | intros a Ha; lia].
    - intros k m Hk [Hshape Hcol]. split; [now apply mset_shape |].
      intros a Ha. destruct (decide (a = k)) as [-> | Hne].
      + eapply mget_mset_same; eauto; lia.
      + rewrite mget_mset_other by (left; exact Hne). apply Hcol. lia. }
  (* second loop: row 0 *)
  pose (P2 := fun (k : nat) (m : Matrix) =>
                shape (len1 + 1) (len2 + 1) m
                /\ (forall a, a <= len1 -> mget m a 0 = a)
                /\ forall b, b < k -> mget m 0 b = b).
  assert (H2 : P2 (0 + (len2 + 1))
                  (foldl (fun m j => mset m 0 j j)
                     (foldl (fun m i => mset m i 0 i)
                        (replicate (len1 + 1) (replicate (len2 + 1) 0))
                        (seq 0 (len1 + 1)))
                     (seq 0 (len2 + 1)))).
  { apply foldl_seq_invariant.
    - destruct H1 as [Hshape Hcol]. split; [exact Hshape |].
      split; [intros a Ha; apply Hcol; lia | intros b Hb; lia].
    - intros k m Hk (Hshape & Hcol & Hrow). split; [now apply mset_shape |]. split.
      + intros a Ha. destruct (decide (a = 0 /\ k = 0)) as [[-> ->] | Hne].
        * eapply mget_mset_same; eauto; lia.
        * rewrite mget_mset_other by lia. now apply Hcol.
      + intros b Hb. destruct (decide (b = k)) as [-> | Hne].
        * eapply mget_mset_same; eauto; lia.
        * rewrite mget_mset_other by (right; exact Hne). apply Hrow. lia. }
  destruct H2 as (Hshape & Hcol & Hrow). split; [exact Hshape |].
  intros a b Ha Hb Hcell.
  assert (Hedge : a = 0 \/ b = 0) by lia.
  destruct Hedge as [-> | ->].
  - rewrite D_row0 by exact Hb. apply Hrow. lia.
  - rewrite D_col0 by exact Ha. now apply Hcol.
Qed.

Lemma inner_loop (i : nat) (m : Matrix) :
  1 <= i <= len1 ->
  filled i 1 m ->
  filled (S i) 1
    (foldl (fun m j =>
              let cost := subst_cost (Js.char_at str1 (i - 1)) (Js.char_at str2 (j - 1)) in
              mset m i j (min3 (mget m (i - 1) j + 1)
                               (mget m i (j - 1) + 1)
                               (mget m (i - 1) (j - 1) + cost)))
           m (seq 1 len2)).
Proof.
  intros Hi Hstart.
  assert (Hend : filled i (1 + len2)
    (foldl (fun m j =>
              let cost := subst_cost (Js.char_at str1 (i - 1)) (Js.char_at str2 (j - 1)) in
              mset m i j (min3 (mget m (i - 1) j + 1)
                               (mget m i (j - 1) + 1)
                               (mget m (i - 1) (j - 1) + cost)))
           m (seq 1 len2))).
  { apply (foldl_seq_invariant (filled i)); [exact Hstart |].
    intros j m' Hj [Hshape Hcells]. split; [now apply mset_shape |].
    intros a b Ha Hb Hcell.
    destruct (decide (a = i /\ b = j)) as [[-> ->] | Hne].
    - erewrite mget_mset_same; eauto; try lia.
      rewrite !Hcells by lia.
      destruct i as [| i']; [lia |]. destruct j as [| j']; [lia |].
      replace (S i' - 1) with i' by lia. replace (S j' - 1) with j' by lia.
      rewrite D_step by lia. reflexivity.
    - rewrite mget_mset_other by lia. apply Hcells; lia. }
  destruct Hend as [Hshape Hcells]. split; [exact Hshape |].
  intros a b Ha Hb Hcell. apply Hcells; lia.
Qed.

(** [levenshteinDistance] computes the edit distance. *)
Lemma levenshteinDistance_edit_distance :
  levenshteinDistance str1 str2 = edit_distance l1 l2.
Proof.
  unfold levenshteinDistance.
  assert (Hall : filled (1 + len1) 1
    (foldl (fun m i =>
       foldl (fun m j =>
                let cost := subst_cost (Js.char_at str1 (i - 1)) (Js.char_at str2 (j - 1)) in
                mset m i j (min3 (mget m (i - 1) j + 1)
                                 (mget m i (j - 1) + 1)
                                 (mget m (i - 1) (j - 1) + cost)))
             m (seq 1 len2))
       (foldl (fun m j => mset m 0 j j)
          (foldl (fun m i => mset m i 0 i)
             (replicate (len1 + 1) (replicate (len2 + 1) 0)) (seq 0 (len1 + 1)))
          (seq 0 (len2 + 1)))
       (seq 1 len1))).
  { apply (foldl_seq_invariant (fun i => filled i 1)); [apply first_loops |].
    intros i m Hi Hm. apply inner_loop; [lia | exact Hm]. }
  destruct Hall as [_ Hcells]. rewrite Hcells by lia.
  unfold prefix_distance. rewrite edit_distance_rev.
  rewrite !firstn_all2; [reflexivity | |]; rewrite chars_length; lia.
Qed.
End Levenshtein.

(** ** Similarity *)

Lemma startsWith_prefix (s p : string) :
  Js.startsWith s p = true <-> exists post, s = p +:+ post.
Proof.
  revert s. induction p as [| a p IH]; intros s.
  - split; [intros _; now exists s | intros _; destruct s; reflexivity].
  - destruct s as [| b s]; simpl.
    + split; [discriminate | intros (post & H); discriminate].
    + rewrite andb_true_iff, IH. split.
      * intros [Hab (post & ->)]. apply Ascii.eqb_eq in Hab as ->. now exists post.
      * intros (post & [= -> ->]). split; [apply Ascii.eqb_refl | now exists post].
Qed.

(** [includes] is the substring test. *)
Lemma includes_substring (s sub : string) :
  Js.includes s sub = true <-> exists pre post, s = pre +:+ sub +:+ post.
Proof.
  induction s as [| c s IH].
  - cbn [Js.includes]. rewrite orb_false_r, startsWith_prefix. split.
    + intros (post & H). now exists "", post.
    + intros ([| d pre] & post & H); [now exists post | discriminate].
  - cbn [Js.includes]. rewrite orb_true_iff, startsWith_prefix, IH. split.
    + intros [(post & H) | (pre & post & ->)].
      * now exists "", post.
      * now exists (String c pre), post.
    + intros ([| d pre] & post & H).
      * left. now exists post.
      * right. injection H as -> ->. now exists pre, post.
Qed.

(** C3 (as amended).  The similarity of a non-empty string with itself
    is 1. *)
Theorem similarity_reflexive :
  forall s : string, s <> EmptyString -> calculateSimilarity (Some s) (Some s) = 1%Q.
Proof.
  intros s Hs. now apply calculateSimilarity_same_letters.
Qed.

Lemma similarity_reflexive_witness :
  calculateSimilarity (Some " Crocin 500mg") (Some " Crocin 500mg") = 1%Q.
Proof.
  apply (similarity_reflexive " Crocin 500mg"). discriminate.
Defined.

(** C3 as stated fails on the empty string, which the first guard of
    [calculateSimilarity] sends to 0. *)
Lemma similarity_reflexive_counterexample :
  calculateSimilarity (Some "") (Some "") = 0%Q
  /\ ~ (calculateSimilarity (Some "") (Some "") == 1)%Q.
Proof. split; [reflexivity | discriminate]. Qed.

(** C2 (as amended).  An empty argument gives 0.  Otherwise the two
    strings are lower-cased and trimmed, and the first rule that applies
    to the results gives the score: equal, 1; one a substring of the
    other, 0.8 times the shorter length over the longer; otherwise 1 minus
    the edit distance over the longer length, and 0 if that is negative.
    The edit distance is the least cost of a script of deletions,
    insertions and substitutions of unit cost that turns one string into
    the other, letters being compared without their case. *)
Theorem similarity_rules :
  forall a b : string,
    let a' := Js.trim (Js.toLowerCase a) in
    let b' := Js.trim (Js.toLowerCase b) in
    let contains :=
      (exists pre post, a' = pre +:+ b' +:+ post)
      \/ (exists pre post, b' = pre +:+ a' +:+ post) in
    let shorter := Nat.min (String.length a') (String.length b') in
    let longer := Nat.max (String.length a') (String.length b') in
    let distance := levenshteinDistance a' b' in
    (a = EmptyString \/ b = EmptyString -> calculateSimilarity (Some a) (Some b) = 0%Q)
    /\ (a <> EmptyString -> b <> EmptyString -> a' = b' ->
        calculateSimilarity (Some a) (Some b) = 1%Q)
    /\ (a <> EmptyString -> b <> EmptyString -> a' <> b' -> contains ->
        calculateSimilarity (Some a) (Some b) = (0.8 * (Js.num shorter / Js.num longer))%Q)
    /\ (a <> EmptyString -> b <> EmptyString -> a' <> b' -> ~ contains ->
        calculateSimilarity (Some a) (Some b)
        = Qmax 0 (1 - Js.num distance / Js.num longer))
    /\ edit_script (chars a') (chars b') distance
    /\ (forall n, edit_script (chars a') (chars b') n -> distance <= n).
Proof.
  intros a b a' b' contains shorter longer distance.
  assert (Hcontains : Js.includes a' b' || Js.includes b' a' = true <-> contains).
  { unfold contains. now rewrite orb_true_iff, !includes_substring. }
  split; [| split; [| split; [| split; [| split]]]].
  - intros [-> | ->]; [reflexivity |]. destruct a; reflexivity.
  - intros Ha Hb Heq.
    destruct a as [| c1 r1]; [congruence |]. destruct b as [| c2 r2]; [congruence |].
    unfold calculateSimilarity. fold a' b'. now rewrite Heq, String.eqb_refl.
  - intros Ha Hb Hne Hc.
    destruct a as [| c1 r1]; [congruence |]. destruct b as [| c2 r2]; [congruence |].
    unfold calculateSimilarity. fold a' b'.
    destruct (String.eqb_spec a' b') as [| _]; [congruence |].
    apply Hcontains in Hc. rewrite Hc. unfold shorter, longer.
    destruct (Nat.ltb_spec (String.length b') (String.length a')).
    + rewrite Nat.min_r, Nat.max_l by lia. reflexivity.
    + rewrite Nat.min_l, Nat.max_r by lia. reflexivity.
  - intros Ha Hb Hne Hc.
    destruct a as [| c1 r1]; [congruence |]. destruct b as [| c2 r2]; [congruence |].
    unfold calculateSimilarity. fold a' b'.
    destruct (String.eqb_spec a' b') as [| _]; [congruence |].
    destruct (Js.includes a' b' || Js.includes b' a') eqn:Hinc.
    { exfalso. apply Hc, Hcontains. reflexivity. }
    fold longer.
    destruct (Nat.eqb_spec longer 0) as [Hzero | _]; [| reflexivity].
    exfalso. apply Hne. unfold longer in Hzero.
    destruct a', b'; simpl in Hzero; try lia. reflexivity.
  - unfold distance. rewrite levenshteinDistance_edit_distance.
    apply edit_distance_script.
  - intros n Hn. unfold distance. rewrite levenshteinDistance_edit_distance.
    now apply edit_distance_least.
Qed.

Lemma similarity_rules_witness :
  calculateSimilarity (Some "Crocin") (Some "Crocin Advance")
  = (0.8 * (Js.num 6 / Js.num 14))%Q
  /\ calculateSimilarity (Some "Paracetmol") (Some "Paracetamol")
     = Qmax 0 (1 - Js.num (levenshteinDistance "paracetmol" "paracetamol") / Js.num 11).
Proof.
  split.
  - destruct (similarity_rules "Crocin" "Crocin Advance") as (_ & _ & H & _).
    apply H; [discriminate | discriminate | vm_compute; discriminate |].
    right. exists "", " advance". reflexivity.
  - destruct (similarity_rules "Paracetmol" "Paracetamol") as (_ & _ & _ & H & _).
    apply H; [discriminate | discriminate | vm_compute; discriminate |].
    intros Hc.
    assert (Hb : Js.includes "paracetmol" "paracetamol"
                 || Js.includes "paracetamol" "paracetmol" = true).
    { rewrite orb_true_iff, !includes_substring. exact Hc. }
    vm_compute in Hb. discriminate.
Defined.

(** C2 as stated fails where the code looks at the strings before it
    compares them: two empty strings are equal and score 0, and a string
    scores 1 against itself followed by a blank, although neither rule 1
    nor the lengths of rule 2 give that. *)
Lemma similarity_rules_counterexample :
  (specified_similarity "" "" = 1%Q
   /\ calculateSimilarity (Some "") (Some "") = 0%Q
   /\ ~ (calculateSimilarity (Some "") (Some "") == specified_similarity "" "")%Q)
  /\ (specified_similarity "abc " "abc" = (0.8 * (Js.num 3 / Js.num 4))%Q
      /\ calculateSimilarity (Some "abc ") (Some "abc") = 1%Q
      /\ ~ (calculateSimilarity (Some "abc ") (Some "abc")
            == specified_similarity "abc " "abc")%Q).
Proof.
  split; (split; [reflexivity | split; [reflexivity | vm_compute; discriminate]]).
Qed.

(** ** Name variations *)

Lemma set_add_In_new (x : string) (vs : list string) : In x (set_add x vs).
Proof.
  unfold set_add, set_has. destruct (existsb (String.eqb x) vs) eqn:Hx.
  - apply existsb_exists in Hx as (y & Hy & Heq).
    apply String.eqb_eq in Heq. now subst.
  - apply in_or_app. right. now left.
Qed.

Lemma set_add_In_old (x y : string) (vs : list string) :
  In x vs -> In x (set_add y vs).
Proof.
  unfold set_add. destruct (set_has y vs); [auto |].
  intros H. apply in_or_app. now left.
Qed.

Lemma ocr_variations_keeps (x base : string) (vs : list string) :
  In x vs -> In x (ocr_variations vs base).
Proof.
  intros H. unfold ocr_variations.
  repeat match goal with
         | |- context [if ?b then _ else _] => destruct b
         | |- In x (set_add _ _) => apply set_add_In_old
         end; assumption.
Qed.

Lemma ocr_loop_keeps (x : string) (bases vs : list string) :
  In x vs -> In x (foldl ocr_variations vs bases).
Proof.
  revert vs. induction bases as [| b bases IH]; intros vs H; simpl; [assumption |].
  apply IH. now apply ocr_variations_keeps.
Qed.

(** ** The matcher *)

Lemma append_cons (c : ascii) (a b : string) : String c a +:+ b = String c (a +:+ b).
Proof. reflexivity. Qed.

Lemma append_nil_r (s : string) : s +:+ "" = s.
Proof.
  induction s as [| c s IH]; [reflexivity |]. now rewrite append_cons, IH.
Qed.

Lemma append_assoc (a b c : string) : (a +:+ b) +:+ c = a +:+ b +:+ c.
Proof.
  induction a as [| x a IH]; [reflexivity |]. now rewrite !append_cons, IH.
Qed.

Lemma append_length (a b : string) :
  String.length (a +:+ b) = String.length a + String.length b.
Proof.
  induction a as [| x a IH]; [reflexivity |]. rewrite append_cons. simpl. now rewrite IH.
Qed.

Lemma take_append (m rest : string) : Regex.take (String.length m) (m +:+ rest) = m.
Proof.
  induction m as [| c m IH]; [now destruct rest |].
  rewrite append_cons. simpl. now rewrite IH.
Qed.

Lemma consumed_append (m rest : string) : Regex.consumed (m +:+ rest) rest = m.
Proof.
  unfold Regex.consumed. rewrite append_length.
  replace (String.length m + String.length rest - String.length rest)
    with (String.length m) by lia.
  apply take_append.
Qed.

(** Whatever the matcher accepts is a text of the pattern followed by
    the rest it hands to its continuation. *)
Lemma star_match_sound {A : Type} (p : ascii -> bool) (s : string)
      (k : string -> option A) (x : A) :
  Regex.star_match p s k = Some x ->
  exists m rest, s = m +:+ rest /\ lang (Regex.Star p) m /\ k rest = Some x.
Proof.
  induction s as [| c s IH]; simpl.
  - intros H. exists "", "". repeat split; [constructor | assumption].
  - destruct (p c) eqn:Hc.
    + destruct (Regex.star_match p s k) as [y |] eqn:Hrec.
      * intros [= ->]. destruct (IH eq_refl) as (m & rest & -> & Hm & Hk).
        exists (String c m), rest. repeat split; [now constructor | assumption].
      * intros H. exists "", (String c s). repeat split; [constructor | assumption].
    + intros H. exists "", (String c s). repeat split; [constructor | assumption].
Qed.

Lemma rmatch_sound {A : Type} (r : Regex.regex) :
  forall (s : string) (k : string -> option A) (x : A),
    Regex.rmatch r s k = Some x ->
    exists m rest, s = m +:+ rest /\ lang r m /\ k rest = Some x.
Proof.
  induction r as [| p | r1 IH1 r2 IH2 | r1 IH1 r2 IH2 | p |]; intros s k x; simpl.
  - intros H. exists "", s. repeat split; [constructor | assumption].
  - destruct s as [| c s]; [discriminate |].
    destruct (p c) eqn:Hc; [| discriminate].
    intros H. exists (String c ""), s. repeat split; [now constructor | assumption].
  - intros H. apply IH1 in H as (m1 & rest1 & -> & Hm1 & H).
    apply IH2 in H as (m2 & rest & -> & Hm2 & H).
    exists (m1 +:+ m2), rest. repeat split;
      [now rewrite append_assoc | now constructor | assumption].
  - destruct (Regex.rmatch r1 s k) as [y |] eqn:H1.
    + intros [= ->]. apply IH1 in H1 as (m & rest & -> & Hm & H).
      exists m, rest. repeat split; [now apply lang_alt_l | assumption].
    + intros H. apply IH2 in H as (m & rest & -> & Hm & H).
      exists m, rest. repeat split; [now apply lang_alt_r | assumption].
  - apply star_match_sound.
  - destruct s; [| discriminate].
    intros H. exists "", "". repeat split; [constructor | assumption].
Qed.

Lemma match_here_sound (r : Regex.regex) (s rest : string) :
  Regex.match_here r s = Some rest ->
  s = Regex.consumed s rest +:+ rest /\ lang r (Regex.consumed s rest).
Proof.
  intros H. apply rmatch_sound in H as (m & rest' & -> & Hm & [= ->]).
  now rewrite consumed_append.
Qed.

(** The leftmost match. *)
Lemma search_sound (r : Regex.regex) (s pre m post : string) :
  Regex.search r s = Some (pre, m, post) ->
  s = pre +:+ m +:+ post
  /\ lang r m
  /\ Regex.match_here r (m +:+ post) = Some post
  /\ forall k, k < String.length pre -> Regex.match_here r (drop k s) = None.
Proof.
  revert pre. induction s as [| c s IH]; intros pre; simpl.
  - destruct (Regex.match_here r "") as [rest |] eqn:Hm; [| discriminate].
    intros [= <- <- <-]. destruct (match_here_sound _ _ _ Hm) as [Hs Hl].
    simpl. rewrite <- Hs. repeat split; [assumption .. |]. simpl. lia.
  - destruct (Regex.match_here r (String c s)) as [rest |] eqn:Hm.
    + intros [= <- <- <-]. destruct (match_here_sound _ _ _ Hm) as [Hs Hl].
      simpl. rewrite <- Hs. repeat split; [assumption .. |]. simpl. lia.
    + destruct (Regex.search r s) as [[[pre' m'] post'] |]; [| discriminate].
      intros [= <- <- <-]. destruct (IH pre' eq_refl) as (-> & Hl & Hhere & Hleft).
      repeat split; [assumption .. |].
      intros [| k] Hk; [exact Hm |]. simpl. apply Hleft. simpl in Hk. lia.
Qed.

Lemma search_none (r : Regex.regex) (s : string) :
  Regex.search r s = None ->
  forall k, Regex.match_here r (drop k s) = None.
Proof.
  induction s as [| c s IH]; simpl.
  - destruct (Regex.match_here r "") eqn:Hm; [discriminate |].
    intros _ [| k]; exact Hm.
  - destruct (Regex.match_here r (String c s)) eqn:Hm; [discriminate |].
    destruct (Regex.search r s) as [[[pre' m'] post'] |]; [discriminate |].
    intros _ [| k]; [exact Hm |]. simpl. now apply IH.
Qed.

(** [match] with the [g] flag starts with the leftmost match, and
    returns nothing when there is none. *)
Lemma match_all_search (r : Regex.regex) (s : string) :
  match Regex.search r s with
  | Some (_, m, _) => exists more, Regex.match_all r s = m :: more
  | None => Regex.match_all r s = []
  end.
Proof.
  unfold Regex.match_all. induction s as [| c s IH]; simpl.
  - destruct (Regex.match_here r ""); [eexists |]; reflexivity.
  - destruct (Regex.match_here r (String c s)); [eexists; reflexivity |].
    destruct (Regex.search r s) as [[[pre m] post] |]; exact IH.
Qed.

Lemma replace_all_skip (r : Regex.regex) (rep x y : string) :
  Regex.replace_all_from r rep (String.length x) (x +:+ y) =
  Regex.replace_all_from r rep 0 y.
Proof. induction x as [| c x IH]; simpl; [reflexivity | exact IH]. Qed.

(** [replace] with the [g] flag and a non-empty leftmost match: the text
    before the match stays, the match goes, and the rest is treated the
    same way. *)
Lemma replace_all_search (r : Regex.regex) (rep s pre m post : string) :
  Regex.search r s = Some (pre, m, post) ->
  m <> EmptyString ->
  Regex.replace_all r rep s = pre +:+ rep +:+ Regex.replace_all r rep post.
Proof.
  unfold Regex.replace_all. revert pre. induction s as [| c s IH]; intros pre; simpl.
  - destruct (Regex.match_here r "") as [rest |] eqn:Hm; [| discriminate].
    intros [= <- <- <-]. destruct (match_here_sound _ _ _ Hm) as [Hs _].
    destruct (Regex.consumed "" rest); [congruence | discriminate].
  - destruct (Regex.match_here r (String c s)) as [rest |] eqn:Hm.
    + intros [= <- <- <-] Hne. destruct (match_here_sound _ _ _ Hm) as [Hs _].
      destruct (Regex.consumed (String c s) rest) as [| d m'] eqn:Hcons; [congruence |].
      simpl in Hs. injection Hs as -> ->. simpl.
      now rewrite replace_all_skip.
    + destruct (Regex.search r s) as [[[pre' m'] post'] |]; [| discriminate].
      intros [= <- <- <-] Hne. simpl. now rewrite (IH pre' eq_refl Hne).
Qed.

Lemma replace_all_none (r : Regex.regex) (rep s : string) :
  Regex.search r s = None -> Regex.replace_all r rep s = s.
Proof.
  unfold Regex.replace_all. induction s as [| c s IH]; simpl.
  - destruct (Regex.match_here r ""); [discriminate | reflexivity].
  - destruct (Regex.match_here r (String c s)); [discriminate |].
    destruct (Regex.search r s) as [[[pre m] post] |]; [discriminate |].
    intros _. now rewrite IH.
Qed.

(** ** The dosage pattern *)

Lemma lang_star_all (p : ascii -> bool) (m : string) :
  lang (Regex.Star p) m -> all_chars p m = true.
Proof.
  intros H. remember (Regex.Star p) as r eqn:Hr.
  induction H as [| | | | | q | q c m Hc Hm IH |]; try discriminate.
  - reflexivity.
  - injection Hr as ->. simpl. rewrite Hc. now apply IH.
Qed.

Lemma lang_plus (p : ascii -> bool) (m : string) :
  lang (Regex.Plus p) m ->
  exists c m', m = String c m' /\ p c = true /\ all_chars p m' = true.
Proof.
  unfold Regex.Plus. intros H. inversion H as [| | r1 r2 m1 m2 H1 H2 | | | | |]; subst.
  inversion H1; subst. apply lang_star_all in H2.
  eexists _, _. repeat split; eauto.
Qed.

(** The texts of [numberPattern]: digits, then possibly a point and
    digits. *)
Lemma number_shape (num : string) :
  lang numberPattern num ->
  exists d ds frac,
    num = String d (ds +:+ frac)
    /\ Js.is_digit d = true /\ all_chars Js.is_digit ds = true
    /\ (frac = EmptyString
        \/ exists d' ds', frac = String "." (String d' ds')
                          /\ Js.is_digit d' = true /\ all_chars Js.is_digit ds' = true).
Proof.
  unfold numberPattern, Regex.Opt. intros H.
  inversion H as [| | r1 r2 m1 m2 H1 H2 | | | | |]; subst.
  apply lang_plus in H1 as (d & ds & -> & Hd & Hds).
  exists d, ds, m2. repeat split; auto.
  inversion H2 as [| | | r1 r2 m Hl | r1 r2 m Hr | | |]; subst.
  - right. inversion Hl as [| | r1 r2 m3 m4 H3 H4 | | | | |]; subst.
    inversion H3; subst. apply lang_plus in H4 as (d' & ds' & -> & Hd' & Hds').
    exists d', ds'. repeat split; auto.
    match goal with Hp : Ascii.eqb "." ?c = true |- _ => apply Ascii.eqb_eq in Hp as <- end.
    reflexivity.
  - left. now inversion Hr.
Qed.

(** A greedy repetition that can run to the end of its class and then
    go on does so. *)
Lemma star_match_greedy {A : Type} (p : ascii -> bool) (ds rest : string)
      (k : string -> option A) (x : A) :
  all_chars p ds = true -> k rest = Some x ->
  match rest with String c _ => p c = false | EmptyString => True end ->
  Regex.star_match p (ds +:+ rest) k = Some x.
Proof.
  intros Hds Hk Hrest. induction ds as [| d ds IH].
  - change ("" +:+ rest) with rest. destruct rest as [| c rest]; simpl; [assumption |].
    now rewrite Hrest.
  - rewrite append_cons. simpl in Hds |- *. apply andb_true_iff in Hds as [Hd Hds].
    rewrite Hd, (IH Hds). reflexivity.
Qed.

Lemma number_rematch (num rest : string) :
  lang numberPattern num -> after_number rest ->
  Regex.match_here numberPattern (num +:+ rest) = Some rest.
Proof.
  intros Hnum Hrest.
  destruct (number_shape num Hnum) as (d & ds & frac & -> & Hd & Hds & Hfrac).
  unfold Regex.match_here, numberPattern, Regex.Plus, Regex.Opt.
  rewrite append_cons, append_assoc. cbn [Regex.rmatch]. rewrite Hd.
  destruct Hfrac as [-> | (d' & ds' & -> & Hd' & Hds')].
  - change ("" +:+ rest) with rest.
    apply star_match_greedy; [assumption | | destruct rest; [exact I | apply Hrest]].
    destruct rest as [| c rest]; [reflexivity |].
    destruct Hrest as [_ Hc]. destruct (Ascii.eqb_spec "." c); [congruence | reflexivity].
  - apply star_match_greedy; [assumption | | reflexivity].
    rewrite !append_cons. cbn [Ascii.eqb Bool.eqb]. simpl. rewrite Hd'.
    rewrite (star_match_greedy (A := string) Js.is_digit ds' rest Some rest);
      [reflexivity | assumption | reflexivity |].
    destruct rest; [exact I | apply Hrest].
Qed.

Lemma toLowerCase_append (a b : string) :
  Js.toLowerCase (a +:+ b) = Js.toLowerCase a +:+ Js.toLowerCase b.
Proof.
  induction a as [| c a IH]; [reflexivity |].
  rewrite append_cons. simpl. now rewrite IH.
Qed.

Lemma all_chars_append (p : ascii -> bool) (a b : string) :
  all_chars p (a +:+ b) = all_chars p a && all_chars p b.
Proof.
  induction a as [| c a IH]; [reflexivity |].
  rewrite append_cons. simpl. now rewrite IH, andb_assoc.
Qed.

Lemma all_chars_impl (p q : ascii -> bool) (s : string) :
  (forall c, p c = true -> q c = true) -> all_chars p s = true -> all_chars q s = true.
Proof.
  intros Hpq. induction s as [| c s IH]; simpl; [reflexivity |].
  rewrite !andb_true_iff. intros [Hc Hs]. split; [now apply Hpq | now apply IH].
Qed.

Lemma lower_char_number_or_space (c : ascii) :
  number_or_space c = true -> Js.lower_char c = c.
Proof.
  destruct c as [[] [] [] [] [] [] [] []]; intros H; try reflexivity; discriminate H.
Qed.

Lemma toLowerCase_number_or_space (s : string) :
  all_chars number_or_space s = true -> Js.toLowerCase s = s.
Proof.
  induction s as [| c s IH]; simpl; [reflexivity |].
  rewrite andb_true_iff. intros [Hc Hs].
  now rewrite (lower_char_number_or_space c Hc), IH.
Qed.

(** No unit starts with a digit, a blank or a point. *)
Lemma unit_not_here (c : ascii) (s : string) :
  number_or_space c = true -> Regex.match_here unitPattern (String c s) = None.
Proof.
  destruct c as [[] [] [] [] [] [] [] []]; intros H; try discriminate H; reflexivity.
Qed.

Lemma search_skip (r : Regex.regex) (x y : string) :
  (forall c s, In c (chars x) -> Regex.match_here r (String c s) = None) ->
  Regex.search r (x +:+ y) =
  match Regex.search r y with
  | Some (pre, m, post) => Some (x +:+ pre, m, post)
  | None => None
  end.
Proof.
  induction x as [| c x IH]; intros Hx.
  - change ("" +:+ y) with y. now destruct (Regex.search r y) as [[[pre m] post] |].
  - rewrite append_cons. simpl. rewrite Hx by now left.
    rewrite IH by (intros c' s' Hc'; apply Hx; now right).
    now destruct (Regex.search r y) as [[[pre m] post] |].
Qed.

Lemma all_chars_In (p : ascii -> bool) (s : string) (c : ascii) :
  all_chars p s = true -> In c (chars s) -> p c = true.
Proof.
  induction s as [| d s IH]; simpl; [tauto |].
  rewrite andb_true_iff. intros [Hd Hs] [<- | Hc]; auto.
Qed.

(** The texts of a literal under the [i] flag. *)
Lemma lang_lit_ci (w u : string) :
  lang (Regex.lit_ci w) u -> Js.toLowerCase u = Js.toLowerCase w.
Proof.
  revert u. induction w as [| c w IH]; intros u H; simpl in H.
  - now inversion H.
  - inversion H as [| | r1 r2 m1 m2 H1 H2 | | | | |]; subst.
    inversion H1 as [| q d Hd | | | | | |]; subst.
    rewrite append_cons. change ("" +:+ m2) with m2. simpl.
    apply Ascii.eqb_eq in Hd. rewrite Hd. now rewrite (IH m2 H2).
Qed.

(** The texts of [unitPattern]: the units, in any letter case. *)
Lemma lang_unit (u : string) : lang unitPattern u -> In (Js.toLowerCase u) UNITS.
Proof.
  unfold unitPattern. cbn [map Regex.alts]. intros H.
  repeat match goal with
         | H : lang (Regex.Alt _ _) _ |- _ => inversion H; subst; clear H
         end;
    match goal with
    | H : lang _ u |- _ =>
        first [ apply (lang_lit_ci "mg" u) in H
              | apply (lang_lit_ci "gm" u) in H
              | apply (lang_lit_ci "ml" u) in H
              | apply (lang_lit_ci "mcg" u) in H
              | apply (lang_lit_ci "g" u) in H
              | apply (lang_lit_ci "l" u) in H
              | apply (lang_lit_ci "iu" u) in H
              | apply (lang_lit_ci "%" u) in H ];
        rewrite H; simpl; tauto
    end.
Qed.

Lemma search_here (r : Regex.regex) (s rest : string) :
  Regex.match_here r s = Some rest ->
  Regex.search r s = Some ("", Regex.consumed s rest, rest).
Proof. intros H. destruct s; simpl; now rewrite H. Qed.

Lemma digit_not_space (c : ascii) : Js.is_digit c = true -> Js.is_space c = false.
Proof. destruct c as [[] [] [] [] [] [] [] []]; intros H; try reflexivity; discriminate H. Qed.

Lemma space_after_number (c : ascii) (s : string) :
  Js.is_space c = true -> after_number (String c s).
Proof.
  destruct c as [[] [] [] [] [] [] [] []]; intros H; try discriminate H;
    (split; [reflexivity | discriminate]).
Qed.

Lemma trimEnd_append (x y : string) :
  Js.trimEnd y = y -> y <> EmptyString -> Js.trimEnd (x +:+ y) = x +:+ y.
Proof.
  intros Hy Hne. induction x as [| c x IH]; [exact Hy |].
  rewrite append_cons. simpl. rewrite IH.
  destruct (x +:+ y) as [| e z] eqn:E; [| reflexivity].
  exfalso. apply Hne. destruct x; [exact E | discriminate E].
Qed.

(** The units are matched whole by [unitPattern], stay as they are in
    lower case and under [trim], and cannot follow a number directly
    as part of it. *)
Lemma unit_facts (lu : string) :
  In lu UNITS ->
  Regex.search unitPattern lu = Some ("", lu, "")
  /\ Js.toLowerCase lu = lu
  /\ Js.trimEnd lu = lu
  /\ lu <> EmptyString
  /\ after_number lu.
Proof.
  simpl. intros H. repeat destruct H as [<- | H]; try contradiction;
    (split; [vm_compute; reflexivity |
     split; [reflexivity |
     split; [reflexivity |
     split; [discriminate | split; [reflexivity | discriminate]]]]]).
Qed.

(** C5 (as amended).  When the dosage pattern (a number, optional white
    space, a unit in any letter case) occurs in the input,
    [extractStrengthFromName] works from its leftmost occurrence: the
    strength is the number of that occurrence, the unit its unit in lower
    case, the dose the occurrence in lower case; the name is the input
    with that occurrence and every later one removed and then trimmed at
    both ends, the white space inside being left as it is.  When the
    pattern does not occur the name is the trimmed input and the other
    three are absent.  On "Paracetamol 500mg" the name is "Paracetamol",
    the strength "500" and the unit "mg". *)
Theorem dosage_extraction :
  (forall s : string,
      Regex.search strengthPattern s = None ->
      extractStrengthFromName s = mkExtracted (Js.trim s) None None None)
  /\ (forall s pre m post : string,
        Regex.search strengthPattern s = Some (pre, m, post) ->
        s = pre +:+ m +:+ post
        /\ (forall k, k < String.length pre ->
                      Regex.match_here strengthPattern (drop k s) = None)
        /\ exists num ws u : string,
             m = num +:+ ws +:+ u
             /\ lang numberPattern num
             /\ all_chars Js.is_space ws = true
             /\ In (Js.toLowerCase u) UNITS
             /\ extractStrengthFromName s =
                mkExtracted (Js.trim (pre +:+ Regex.replace_all strengthPattern "" post))
                            (Some num) (Some (Js.toLowerCase u))
                            (Some (Js.toLowerCase m)))
  /\ extractStrengthFromName "Paracetamol 500mg"
     = mkExtracted "Paracetamol" (Some "500") (Some "mg") (Some "500mg").
Proof.
  split; [| split; [| vm_compute; reflexivity]].
  - intros s Hnone. unfold extractStrengthFromName.
    destruct s as [| c s]; [reflexivity |].
    pose proof (match_all_search strengthPattern (String c s)) as Hall.
    rewrite Hnone in Hall. now rewrite Hall.
  - intros s pre m post Hsearch.
    destruct (search_sound _ _ _ _ _ Hsearch) as (Hs & Hlang & _ & Hleft).
    split; [exact Hs | split; [exact Hleft |]].
    unfold strengthPattern in Hlang.
    inversion Hlang as [| | r1 r2 num m2 Hnum H2 | | | | |]; subst r1 r2 m.
    inversion H2 as [| | r1 r2 ws u Hws Hu | | | | |]; subst r1 r2 m2.
    apply lang_star_all in Hws. apply lang_unit in Hu.
    exists num, ws, u. repeat split; try assumption.
    destruct (unit_facts _ Hu) as (Hunit & Hlower & Htrim & Hne & Hafter).
    destruct (number_shape num Hnum) as (d & ds & frac & Hshape & Hd & Hds & Hfrac).
    (* the pieces of the match in lower case *)
    assert (Hnumchars : all_chars number_or_space num = true).
    { rewrite Hshape. simpl. unfold number_or_space at 1. rewrite Hd. simpl.
      rewrite all_chars_append.
      rewrite (all_chars_impl Js.is_digit number_or_space ds)
        by (assumption || (intros c Hc; unfold number_or_space; now rewrite Hc)).
      destruct Hfrac as [-> | (d' & ds' & -> & Hd' & Hds')]; [reflexivity |].
      simpl. unfold number_or_space at 1 2. rewrite Hd'. simpl.
      apply (all_chars_impl Js.is_digit); [| assumption].
      intros c Hc. unfold number_or_space. now rewrite Hc. }
    assert (Hwschars : all_chars number_or_space ws = true).
    { apply (all_chars_impl Js.is_space); [| assumption].
      intros c Hc. unfold number_or_space. rewrite Hc. now rewrite orb_true_r. }
    assert (Hlowm : Js.toLowerCase (num +:+ ws +:+ u) = num +:+ ws +:+ Js.toLowerCase u).
    { rewrite !toLowerCase_append.
      now rewrite (toLowerCase_number_or_space num), (toLowerCase_number_or_space ws). }
    assert (Hfull : Js.trim (Js.toLowerCase (num +:+ ws +:+ u))
                    = num +:+ ws +:+ Js.toLowerCase u).
    { rewrite Hlowm. unfold Js.trim.
      assert (Hstart : Js.trimStart (num +:+ ws +:+ Js.toLowerCase u)
                       = num +:+ ws +:+ Js.toLowerCase u).
      { rewrite Hshape, append_cons. simpl. now rewrite (digit_not_space d Hd). }
      rewrite Hstart, <- append_assoc. now apply trimEnd_append. }
    assert (Hrest : after_number (ws +:+ Js.toLowerCase u)).
    { destruct ws as [| c ws]; [exact Hafter |].
      rewrite append_cons. apply space_after_number.
      simpl in Hws. now apply andb_true_iff in Hws as [Hc _]. }
    (* the function, step by step *)
    unfold extractStrengthFromName.
    destruct s as [| c0 s0].
    { exfalso. rewrite Hshape in Hs. destruct pre; discriminate Hs. }
    pose proof (match_all_search strengthPattern (String c0 s0)) as Hall.
    rewrite Hsearch in Hall. destruct Hall as (more & ->).
    rewrite Hfull.
    rewrite (search_here numberPattern _ _ (number_rematch num _ Hnum Hrest)).
    rewrite consumed_append.
    rewrite <- (append_assoc num ws).
    rewrite (search_skip unitPattern (num +:+ ws)).
    2: { intros c s Hc. apply unit_not_here.
         apply (all_chars_In number_or_space (num +:+ ws)); [| exact Hc].
         rewrite all_chars_append, Hnumchars, Hwschars. reflexivity. }
    rewrite Hunit, Hlower, append_assoc, <- Hlowm.
    rewrite (replace_all_search strengthPattern "" _ _ _ _ Hsearch).
    + reflexivity.
    + rewrite Hshape. discriminate.
Qed.

Lemma dosage_extraction_witness :
  ex_name (extractStrengthFromName "Calpol 1.5 ML syrup") = "Calpol  syrup"
  /\ ex_fullDose (extractStrengthFromName "Calpol 1.5 ML syrup") = Some "1.5 ml".
Proof.
  destruct dosage_extraction as (_ & H & _).
  destruct (H "Calpol 1.5 ML syrup" "Calpol " "1.5 ML" " syrup" eq_refl)
    as (_ & _ & num & ws & u & _ & _ & _ & _ & ->).
  split; reflexivity.
Defined.

(** C5 as stated fails on the name: the blanks around a removed dose are
    kept, so the white space is not collapsed, and a second dose is
    removed as well as the first. *)
Lemma dosage_extraction_counterexample :
  (ex_name (extractStrengthFromName "Paracetamol 500mg Tablet") = "Paracetamol  Tablet"
   /\ specified_base_name "Paracetamol 500mg Tablet" = "Paracetamol Tablet"
   /\ ex_name (extractStrengthFromName "Paracetamol 500mg Tablet")
      <> specified_base_name "Paracetamol 500mg Tablet")
  /\ (ex_name (extractStrengthFromName "Amoxicillin 500mg Clavulanate 125mg")
      = "Amoxicillin  Clavulanate"
      /\ specified_base_name "Amoxicillin 500mg Clavulanate 125mg"
         = "Amoxicillin Clavulanate 125mg"
      /\ ex_name (extractStrengthFromName "Amoxicillin 500mg Clavulanate 125mg")
         <> specified_base_name "Amoxicillin 500mg Clavulanate 125mg").
Proof.
  split; (split; [vm_compute; reflexivity |
                  split; [vm_compute; reflexivity | vm_compute; discriminate]]).
Qed.

(** ** Suffixes *)

Lemma suffix_not_here (y : string) (c : ascii) (s : string) :
  Js.is_space c = false -> Regex.match_here (suffixPattern y) (String c s) = None.
Proof.
  intros Hc. unfold Regex.match_here, suffixPattern, Regex.Plus.
  cbn [Regex.rmatch]. now rewrite Hc.
Qed.

Lemma suffix_not_at_end (y : string) : Regex.match_here (suffixPattern y) "" = None.
Proof. reflexivity. Qed.

(** A text without white space has no match of a suffix pattern. *)
Lemma suffix_search_word (y w : string) :
  all_chars not_space w = true -> Regex.search (suffixPattern y) w = None.
Proof.
  induction w as [| c w IH]; simpl; [reflexivity |].
  rewrite andb_true_iff. intros [Hc Hw].
  rewrite suffix_not_here by (unfold not_space in Hc; now destruct (Js.is_space c)).
  now rewrite IH.
Qed.

Lemma suffix_at_blank_table :
  forallb (fun x => forallb (suffix_at_blank x) MEDICINE_SUFFIXES) MEDICINE_SUFFIXES = true.
Proof. vm_compute. reflexivity. Qed.

Lemma suffix_words :
  forallb (fun x => all_chars not_space x && String.eqb (Js.toLowerCase x) x
                    && negb (String.eqb x ""))
          MEDICINE_SUFFIXES = true.
Proof. vm_compute. reflexivity. Qed.

(** One round of the loop of [removeSuffixes] on a word followed by a
    blank and a suffix of the table. *)
Lemma suffix_round (b x y : string) :
  all_chars not_space b = true ->
  In x MEDICINE_SUFFIXES -> In y MEDICINE_SUFFIXES ->
  Regex.replace_all (suffixPattern y) "" (b +:+ String " " x)
  = if String.eqb x y then b else b +:+ String " " x.
Proof.
  intros Hb Hx Hy.
  pose proof suffix_at_blank_table as Htable.
  rewrite forallb_forall in Htable. specialize (Htable x Hx).
  rewrite forallb_forall in Htable. specialize (Htable y Hy).
  pose proof suffix_words as Hwords.
  rewrite forallb_forall in Hwords. specialize (Hwords x Hx).
  apply andb_true_iff in Hwords as [Hwords _].
  apply andb_true_iff in Hwords as [Hxw _].
  assert (Hskip : forall c s, In c (chars b) ->
                              Regex.match_here (suffixPattern y) (String c s) = None).
  { intros c s Hc. apply suffix_not_here.
    pose proof (all_chars_In not_space b c Hb Hc) as H. unfold not_space in H.
    now destruct (Js.is_space c). }
  unfold suffix_at_blank in Htable.
  destruct (Regex.match_here (suffixPattern y) (String " " x)) as [rest |] eqn:Hhere.
  - apply andb_true_iff in Htable as [Hxy Hrest].
    apply String.eqb_eq in Hrest as ->. rewrite Hxy.
    assert (Hsearch : Regex.search (suffixPattern y) (b +:+ String " " x)
                      = Some (b +:+ "", String " " x, "")).
    { rewrite (search_skip _ b _ Hskip), (search_here _ _ _ Hhere).
      pose proof (consumed_append (String " " x) "") as Hc.
      rewrite append_nil_r in Hc. now rewrite Hc. }
    rewrite (replace_all_search _ _ _ _ _ _ Hsearch) by discriminate.
    now rewrite !append_nil_r.
  - apply negb_true_iff in Htable. rewrite Htable.
    apply replace_all_none.
    rewrite (search_skip _ b _ Hskip). simpl. rewrite Hhere.
    now rewrite (suffix_search_word y x Hxw).
Qed.

Lemma suffix_round_word (b y : string) :
  all_chars not_space b = true ->
  Regex.replace_all (suffixPattern y) "" b = b.
Proof. intros Hb. apply replace_all_none. now apply suffix_search_word. Qed.

Lemma suffix_loop_word (b : string) (l : list string) :
  all_chars not_space b = true ->
  foldl (fun cleaned suffix => Regex.replace_all (suffixPattern suffix) "" cleaned) b l = b.
Proof.
  intros Hb. induction l as [| y l IH]; simpl; [reflexivity |].
  now rewrite suffix_round_word.
Qed.

Lemma suffix_loop (b x : string) (l : list string) :
  all_chars not_space b = true ->
  In x MEDICINE_SUFFIXES ->
  (forall y, In y l -> In y MEDICINE_SUFFIXES) ->
  In x l ->
  foldl (fun cleaned suffix => Regex.replace_all (suffixPattern suffix) "" cleaned)
        (b +:+ String " " x) l = b.
Proof.
  intros Hb Hx. induction l as [| y l IH]; intros Hl Hin; [contradiction |].
  simpl. rewrite suffix_round by (auto; apply Hl; now left).
  destruct (String.eqb_spec x y) as [-> | Hne].
  - now apply suffix_loop_word.
  - apply IH; [intros z Hz; apply Hl; now right |].
    destruct Hin as [-> | Hin]; [congruence | assumption].
Qed.

Lemma not_space_lower (c : ascii) : not_space (Js.lower_char c) = not_space c.
Proof. destruct c as [[] [] [] [] [] [] [] []]; reflexivity. Qed.

Lemma all_not_space_lower (s : string) :
  all_chars not_space (Js.toLowerCase s) = all_chars not_space s.
Proof.
  induction s as [| c s IH]; simpl; [reflexivity |]. now rewrite not_space_lower, IH.
Qed.

Lemma trimEnd_word (w : string) : all_chars not_space w = true -> Js.trimEnd w = w.
Proof.
  induction w as [| c w IH]; simpl; [reflexivity |].
  rewrite andb_true_iff. intros [Hc Hw]. rewrite (IH Hw).
  unfold not_space in Hc. destruct w; [| reflexivity].
  now destruct (Js.is_space c).
Qed.

Lemma trim_word (w : string) : all_chars not_space w = true -> Js.trim w = w.
Proof.
  intros Hw. unfold Js.trim. destruct w as [| c w]; [reflexivity |].
  simpl in Hw |- *. apply andb_true_iff in Hw as [Hc Hw'].
  unfold not_space in Hc. destruct (Js.is_space c) eqn:Hsp; [discriminate |].
  apply (trimEnd_word (String c w)). simpl. unfold not_space. now rewrite Hsp.
Qed.

(** A word, a blank and a word are not touched by [trim]. *)
Lemma trim_two_words (b x : string) :
  b <> EmptyString -> x <> EmptyString ->
  all_chars not_space b = true -> all_chars not_space x = true ->
  Js.trim (b +:+ String " " x) = b +:+ String " " x.
Proof.
  intros Hb Hx Hbw Hxw. unfold Js.trim.
  destruct b as [| c b]; [congruence |].
  rewrite append_cons. simpl in Hbw |- *. apply andb_true_iff in Hbw as [Hc Hbw].
  unfold not_space in Hc. destruct (Js.is_space c) eqn:Hsp; [discriminate |].
  rewrite <- append_cons.
  change (String c b +:+ String " " x) with (String c b +:+ " " +:+ x).
  rewrite <- append_assoc. apply trimEnd_append; [now apply trimEnd_word | assumption].
Qed.

(** [removeSuffixes] on a word followed by a blank and a suffix of the
    table in any letter case: the word in lower case. *)
Lemma removeSuffixes_word (base suffix : string) :
  base <> EmptyString ->
  all_chars not_space base = true ->
  In (Js.toLowerCase suffix) MEDICINE_SUFFIXES ->
  removeSuffixes (base +:+ String " " suffix) = Js.toLowerCase base.
Proof.
  intros Hne Hbase Hsuffix.
  pose proof suffix_words as Hwords.
  rewrite forallb_forall in Hwords. specialize (Hwords _ Hsuffix).
  apply andb_true_iff in Hwords as [Hwords Hnonempty].
  apply andb_true_iff in Hwords as [Hxw _].
  apply negb_true_iff, String.eqb_neq in Hnonempty.
  assert (Hlb : all_chars not_space (Js.toLowerCase base) = true)
    by now rewrite all_not_space_lower.
  assert (Hlne : Js.toLowerCase base <> EmptyString)
    by (destruct base; [congruence | discriminate]).
  unfold removeSuffixes.
  destruct (base +:+ String " " suffix) as [| c0 s0] eqn:E.
  { destruct base; discriminate E. }
  rewrite <- E. rewrite toLowerCase_append.
  change (Js.toLowerCase (String " " suffix)) with (String " " (Js.toLowerCase suffix)).
  rewrite trim_two_words by assumption.
  rewrite suffix_loop; auto.
  now apply trim_word.
Qed.

Lemma stripped_form_kept (medicineName : string) :
  medicineName <> EmptyString ->
  removeSuffixes (Js.trim medicineName) <> Js.toLowerCase (Js.trim medicineName) ->
  2 <= String.length (removeSuffixes (Js.trim medicineName)) ->
  In (removeSuffixes (Js.trim medicineName)) (generateMedicineNameVariations medicineName).
Proof.
  set (cleaned := Js.trim medicineName).
  set (withoutSuffix := removeSuffixes cleaned).
  intros Hname Hdiff Hlen.
  unfold generateMedicineNameVariations.
  destruct medicineName as [| c0 s0]; [congruence |].
  fold cleaned. fold withoutSuffix.
  apply filter_In. split; [| now apply Nat.leb_le].
  apply ocr_loop_keeps.
  assert (Htruthy : Js.truthy (Some withoutSuffix) = true).
  { destruct withoutSuffix; [simpl in Hlen; lia | reflexivity]. }
  rewrite Htruthy.
  destruct (String.eqb_spec withoutSuffix (Js.toLowerCase cleaned)) as [| _]; [congruence |].
  simpl. apply set_add_In_new.
Qed.

(** C6 (as amended).  Whatever the name, its variations include the name
    with its suffixes removed, [removeSuffixes] of the trimmed name,
    whenever that differs from the lower-case trimmed name and has at
    least two characters.  For a single word of at least two characters
    followed by a blank and a suffix of the table, in any letter case,
    that is the word in lower case; the variations of
    "Paracetamol Tablet" include "paracetamol". *)
Theorem suffix_stripped_variant :
  (forall medicineName : string,
      let cleaned := Js.trim medicineName in
      let withoutSuffix := removeSuffixes cleaned in
      medicineName <> EmptyString ->
      withoutSuffix <> Js.toLowerCase cleaned ->
      2 <= String.length withoutSuffix ->
      In withoutSuffix (generateMedicineNameVariations medicineName))
  /\ (forall base suffix : string,
        In (Js.toLowerCase suffix) MEDICINE_SUFFIXES ->
        all_chars not_space base = true ->
        2 <= String.length base ->
        removeSuffixes (base +:+ String " " suffix) = Js.toLowerCase base
        /\ In (Js.toLowerCase base)
              (generateMedicineNameVariations (base +:+ String " " suffix)))
  /\ In "paracetamol" (generateMedicineNameVariations "Paracetamol Tablet").
Proof.
  split; [| split; [| vm_compute; tauto]].
  - intros medicineName cleaned withoutSuffix. apply stripped_form_kept.
  - intros base suffix Hsuffix Hbase Hlen.
    assert (Hne : base <> EmptyString) by (intros ->; simpl in Hlen; lia).
    split; [now apply removeSuffixes_word |].
    pose proof suffix_words as Hwords.
    rewrite forallb_forall in Hwords. specialize (Hwords _ Hsuffix).
    apply andb_true_iff in Hwords as [Hwords Hnonempty].
    apply andb_true_iff in Hwords as [Hxw _].
    rewrite all_not_space_lower in Hxw.
    assert (Hsne : suffix <> EmptyString).
    { intros ->. now apply negb_true_iff, String.eqb_neq in Hnonempty. }
    pose proof (stripped_form_kept (base +:+ String " " suffix)) as Hkept.
    rewrite trim_two_words in Hkept by assumption.
    rewrite removeSuffixes_word in Hkept by assumption.
    apply Hkept.
    + destruct base; [congruence | discriminate].
    + intros Heq. apply (f_equal String.length) in Heq.
      rewrite !toLowerCase_length, append_length in Heq. simpl in Heq. lia.
    + now rewrite toLowerCase_length.
Qed.

Lemma suffix_stripped_variant_witness :
  In "crocin advance" (generateMedicineNameVariations " Crocin Advance Tabs ")
  /\ In "dolo" (generateMedicineNameVariations "Dolo SR").
Proof.
  destruct suffix_stripped_variant as (H1 & H2 & _). split.
  - apply (H1 " Crocin Advance Tabs "); vm_compute; [discriminate | discriminate | lia].
  - apply (H2 "Dolo" "SR"); vm_compute; [tauto | reflexivity | lia].
Defined.

(** C6 as stated fails when what is left has a single character: the
    last step of [generateMedicineNameVariations] drops it. *)
Lemma suffix_stripped_variant_counterexample :
  removeSuffixes (Js.trim "A Tablet") = "a"
  /\ "a" <> Js.toLowerCase (Js.trim "A Tablet")
  /\ ~ In "a" (generateMedicineNameVariations "A Tablet").
Proof.
  split; [vm_compute; reflexivity |]. split; [vm_compute; discriminate |].
  vm_compute. intros H. repeat destruct H as [H | H]; try discriminate H. exact H.
Qed.


(* ===================================================================== *)
(** * Further properties of the matcher *)
(* ===================================================================== *)

(** ** [levenshteinDistance] as a distance *)

Lemma subst_cost_sym (a b : ascii) : subst_cost a b = subst_cost b a.
Proof. unfold subst_cost. now rewrite Ascii.eqb_sym. Qed.

Lemma subst_cost_zero (a b : ascii) :
  subst_cost a b = 0 <-> Js.lower_char a = Js.lower_char b.
Proof.
  unfold subst_cost. destruct (Ascii.eqb_spec (Js.lower_char a) (Js.lower_char b));
    split; intros; congruence || lia.
Qed.

Lemma subst_cost_triangle (a b c : ascii) :
  subst_cost a c <= subst_cost a b + subst_cost b c.
Proof.
  unfold subst_cost.
  destruct (Ascii.eqb_spec (Js.lower_char a) (Js.lower_char c)); [lia |].
  destruct (Ascii.eqb_spec (Js.lower_char a) (Js.lower_char b)); [| lia].
  destruct (Ascii.eqb_spec (Js.lower_char b) (Js.lower_char c)); [congruence | lia].
Qed.

(** A script read backwards turns the second string into the first. *)
Lemma script_swap (s t : list ascii) (n : nat) :
  edit_script s t n -> edit_script t s n.
Proof.
  induction 1 as [| a s t n _ IH | b s t n _ IH | a b s t n _ IH].
  - constructor.
  - now apply script_insert.
  - now apply script_delete.
  - rewrite subst_cost_sym. now apply script_substitute.
Qed.

Lemma edit_distance_sym (s t : list ascii) : edit_distance s t = edit_distance t s.
Proof.
  apply Nat.le_antisymm; apply edit_distance_least, script_swap, edit_distance_script.
Qed.

Lemma edit_distance_delete (a : ascii) (s t : list ascii) :
  edit_distance (a :: s) t <= edit_distance s t + 1.
Proof.
  destruct t as [| b t].
  - rewrite !edit_distance_nil_r. simpl. lia.
  - rewrite edit_distance_cons. unfold min3. lia.
Qed.

Lemma edit_distance_insert (b : ascii) (s t : list ascii) :
  edit_distance s (b :: t) <= edit_distance s t + 1.
Proof.
  destruct s as [| a s].
  - simpl. lia.
  - rewrite edit_distance_cons. unfold min3. lia.
Qed.

Lemma edit_distance_substitute (a b : ascii) (s t : list ascii) :
  edit_distance (a :: s) (b :: t) <= edit_distance s t + subst_cost a b.
Proof. rewrite edit_distance_cons. unfold min3. lia. Qed.

(** A script changes the length by at most its cost. *)
Lemma script_lengths (s t : list ascii) (n : nat) :
  edit_script s t n -> length s <= length t + n /\ length t <= length s + n.
Proof.
  induction 1 as [| a s t n _ IH | b s t n _ IH | a b s t n _ IH]; simpl; lia.
Qed.

(** Two scripts in a row are no cheaper than the best direct script. *)
Lemma script_compose (s t : list ascii) (n : nat) :
  edit_script s t n ->
  forall (u : list ascii) (m : nat), edit_script t u m -> edit_distance s u <= n + m.
Proof.
  induction 1 as [| a s t n _ IH | b s t n _ IH | a b s t n _ IH]; intros u m Hu.
  - apply script_lengths in Hu. simpl in *. lia.
  - pose proof (IH u m Hu). pose proof (edit_distance_delete a s u). lia.
  - remember (b :: t) as bt eqn:Hbt. revert Hbt.
    induction Hu as [| b' t' u m Hu _ | c t' u m Hu IHu | b' c t' u m Hu _]; intros Hbt.
    + discriminate.
    + injection Hbt as -> ->. pose proof (IH u m Hu). lia.
    + pose proof (IHu Hbt). pose proof (edit_distance_insert c s u). lia.
    + injection Hbt as -> ->. pose proof (IH u m Hu).
      pose proof (edit_distance_insert c s u). lia.
  - remember (b :: t) as bt eqn:Hbt. revert Hbt.
    induction Hu as [| b' t' u m Hu _ | c t' u m Hu IHu | b' c t' u m Hu _]; intros Hbt.
    + discriminate.
    + injection Hbt as -> ->. pose proof (IH u m Hu).
      pose proof (edit_distance_delete a s u). lia.
    + pose proof (IHu Hbt). pose proof (edit_distance_insert c (a :: s) u). lia.
    + injection Hbt as -> ->. pose proof (IH u m Hu).
      pose proof (edit_distance_substitute a c s u).
      pose proof (subst_cost_triangle a b c). lia.
Qed.

Lemma chars_toLowerCase (s : string) :
  chars (Js.toLowerCase s) = map Js.lower_char (chars s).
Proof. induction s as [| c s IH]; simpl; [reflexivity | now rewrite <- IH]. Qed.

Lemma chars_inj (s t : string) : chars s = chars t -> s = t.
Proof.
  intros H. rewrite <- (string_of_list_ascii_of_string s), <- (string_of_list_ascii_of_string t).
  unfold chars in H. now rewrite H.
Qed.

Lemma script_free (s t : list ascii) (n : nat) :
  edit_script s t n -> n = 0 -> map Js.lower_char s = map Js.lower_char t.
Proof.
  induction 1 as [| a s t n _ IH | b s t n _ IH | a b s t n _ IH]; intros Hn;
    try discriminate; [reflexivity |].
  simpl. assert (Hc : subst_cost a b = 0) by lia.
  apply subst_cost_zero in Hc. rewrite Hc, IH by lia. reflexivity.
Qed.

Lemma same_letters_script (s t : list ascii) :
  map Js.lower_char s = map Js.lower_char t -> edit_script s t 0.
Proof.
  revert t. induction s as [| a s IH]; intros [| b t] H; try discriminate H.
  - constructor.
  - simpl in H. injection H as Hab Hst. apply subst_cost_zero in Hab.
    rewrite <- Hab. apply (script_substitute a b s t 0). now apply IH.
Qed.

(** X1.  [levenshteinDistance] does not depend on the order of its
    arguments. *)
Theorem levenshteinDistance_symmetric :
  forall str1 str2 : string,
    levenshteinDistance str1 str2 = levenshteinDistance str2 str1.
Proof.
  intros str1 str2. rewrite !levenshteinDistance_edit_distance. apply edit_distance_sym.
Qed.

Lemma edit_distance_zero (str1 str2 : string) :
  edit_distance (chars str1) (chars str2) = 0
  <-> Js.toLowerCase str1 = Js.toLowerCase str2.
Proof.
  split.
  - intros H. apply chars_inj. rewrite !chars_toLowerCase.
    apply (script_free _ _ _ (edit_distance_script (chars str1) (chars str2)) H).
  - intros H. apply (f_equal chars) in H. rewrite !chars_toLowerCase in H.
    apply same_letters_script, edit_distance_least in H. lia.
Qed.

(** X2.  [levenshteinDistance] is 0 exactly for two strings that are the
    same up to the case of their letters. *)
Theorem levenshteinDistance_zero :
  forall str1 str2 : string,
    levenshteinDistance str1 str2 = 0 <-> Js.toLowerCase str1 = Js.toLowerCase str2.
Proof.
  intros str1 str2. rewrite levenshteinDistance_edit_distance. apply edit_distance_zero.
Qed.

(** X3.  [levenshteinDistance] obeys the triangle inequality. *)
Theorem levenshteinDistance_triangle :
  forall str1 str2 str3 : string,
    levenshteinDistance str1 str3
    <= levenshteinDistance str1 str2 + levenshteinDistance str2 str3.
Proof.
  intros str1 str2 str3. rewrite !levenshteinDistance_edit_distance.
  eapply script_compose; apply edit_distance_script.
Qed.

Lemma edit_distance_upper (s t : list ascii) :
  edit_distance s t <= Nat.max (length s) (length t).
Proof.
  revert t. induction s as [| a s IH]; intros t; [simpl; lia |].
  destruct t as [| b t]; [rewrite edit_distance_nil_r; lia |].
  pose proof (edit_distance_substitute a b s t). pose proof (IH t).
  assert (subst_cost a b <= 1) by (unfold subst_cost; destruct (Ascii.eqb _ _); lia).
  simpl length. lia.
Qed.

(** X4.  [levenshteinDistance] lies between the difference of the two
    lengths and the longer of them. *)
Theorem levenshteinDistance_bounds :
  forall str1 str2 : string,
    String.length str1 - String.length str2 <= levenshteinDistance str1 str2
    /\ String.length str2 - String.length str1 <= levenshteinDistance str1 str2
    /\ levenshteinDistance str1 str2 <= Nat.max (String.length str1) (String.length str2).
Proof.
  intros str1 str2. rewrite levenshteinDistance_edit_distance.
  pose proof (script_lengths _ _ _ (edit_distance_script (chars str1) (chars str2))) as H.
  pose proof (edit_distance_upper (chars str1) (chars str2)) as Hu.
  rewrite !chars_length in *. lia.
Qed.

(** ** [calculateSimilarity] as a score *)

Lemma edit_distance_upper_lengths (s1 s2 : string) :
  levenshteinDistance s1 s2 <= Nat.max (String.length s1) (String.length s2).
Proof.
  rewrite levenshteinDistance_edit_distance.
  pose proof (edit_distance_upper (chars s1) (chars s2)) as H.
  now rewrite !chars_length in H.
Qed.

Lemma lower_char_idem (c : ascii) : Js.lower_char (Js.lower_char c) = Js.lower_char c.
Proof. destruct c as [[] [] [] [] [] [] [] []]; reflexivity. Qed.

Lemma toLowerCase_idem (s : string) :
  Js.toLowerCase (Js.toLowerCase s) = Js.toLowerCase s.
Proof. induction s as [| c s IH]; simpl; [reflexivity | now rewrite lower_char_idem, IH]. Qed.

Lemma is_space_lower (c : ascii) : Js.is_space (Js.lower_char c) = Js.is_space c.
Proof. destruct c as [[] [] [] [] [] [] [] []]; reflexivity. Qed.

Lemma toLowerCase_trimStart (s : string) :
  Js.toLowerCase (Js.trimStart s) = Js.trimStart (Js.toLowerCase s).
Proof.
  induction s as [| c s IH]; simpl; [reflexivity |].
  rewrite is_space_lower. destruct (Js.is_space c); [exact IH | reflexivity].
Qed.

Lemma toLowerCase_trimEnd (s : string) :
  Js.toLowerCase (Js.trimEnd s) = Js.trimEnd (Js.toLowerCase s).
Proof.
  induction s as [| c s IH]; simpl; [reflexivity |].
  rewrite <- IH, is_space_lower.
  destruct (Js.trimEnd s) as [| d t]; simpl; [destruct (Js.is_space c) |]; reflexivity.
Qed.

Lemma toLowerCase_trim (s : string) :
  Js.toLowerCase (Js.trim s) = Js.trim (Js.toLowerCase s).
Proof. unfold Js.trim. now rewrite toLowerCase_trimEnd, toLowerCase_trimStart. Qed.

(** The strings [calculateSimilarity] compares are in lower case. *)
Lemma normalised_lower (s : string) :
  Js.toLowerCase (Js.trim (Js.toLowerCase s)) = Js.trim (Js.toLowerCase s).
Proof. now rewrite toLowerCase_trim, toLowerCase_idem. Qed.

Lemma num_nonneg (n : nat) : (0 <= Js.num n)%Q.
Proof. unfold Js.num. rewrite <- (Zle_Qle 0). lia. Qed.

Lemma num_pos (n : nat) : 0 < n -> (0 < Js.num n)%Q.
Proof. intros H. unfold Js.num. rewrite <- (Zlt_Qlt 0). lia. Qed.

Lemma num_le (a b : nat) : a <= b -> (Js.num a <= Js.num b)%Q.
Proof. intros H. unfold Js.num. rewrite <- Zle_Qle. lia. Qed.

(** A count over a count at least as large is between 0 and 1. *)
Lemma num_ratio (a b : nat) :
  a <= b -> (0 <= Js.num a / Js.num b)%Q /\ (Js.num a / Js.num b <= 1)%Q.
Proof.
  intros Hab. destruct b as [| b].
  - replace a with 0 by lia. split; vm_compute; discriminate.
  - pose proof (num_pos (S b) ltac:(lia)) as Hb.
    split.
    + apply Qle_shift_div_l; [exact Hb |]. rewrite Qmult_0_l. apply num_nonneg.
    + apply Qle_shift_div_r; [exact Hb |]. rewrite Qmult_1_l. now apply num_le.
Qed.

Lemma num_ratio_pos (a b : nat) : 0 < a -> 0 < b -> (0 < Js.num a / Js.num b)%Q.
Proof.
  intros Ha Hb. apply Qlt_shift_div_l; [now apply num_pos |].
  rewrite Qmult_0_l. now apply num_pos.
Qed.

(** X5.  [calculateSimilarity] gives the same score whichever string
    comes first, absent strings included. *)
Theorem calculateSimilarity_symmetric :
  forall str1 str2 : option string,
    calculateSimilarity str1 str2 = calculateSimilarity str2 str1.
Proof.
  intros [[| c1 r1] |] [[| c2 r2] |]; try reflexivity.
  unfold calculateSimilarity.
  set (s1 := Js.trim (Js.toLowerCase (String c1 r1))).
  set (s2 := Js.trim (Js.toLowerCase (String c2 r2))).
  rewrite (String.eqb_sym s2 s1). destruct (String.eqb s1 s2); [reflexivity |].
  rewrite (orb_comm (Js.includes s2 s1)).
  destruct (Js.includes s1 s2 || Js.includes s2 s1).
  - destruct (Nat.ltb_spec (String.length s2) (String.length s1)) as [H21 | H21];
      destruct (Nat.ltb_spec (String.length s1) (String.length s2)) as [H12 | H12];
      try reflexivity; try lia.
    assert (Heq : String.length s1 = String.length s2) by lia.
    now rewrite Heq.
  - rewrite (Nat.max_comm (String.length s2)).
    destruct (Nat.max (String.length s1) (String.length s2) =? 0); [reflexivity |].
    now rewrite !levenshteinDistance_edit_distance, (edit_distance_sym (chars s2)).
Qed.

Lemma calculateSimilarity_shape (str1 str2 : option string) :
  (calculateSimilarity str1 str2 == 0)%Q \/ (calculateSimilarity str1 str2 == 1)%Q
  \/ (exists x y, x <= y
                  /\ calculateSimilarity str1 str2 = (0.8 * (Js.num x / Js.num y))%Q)
  \/ (exists r, calculateSimilarity str1 str2 = Qmax 0 (1 - r) /\ (0 <= r)%Q).
Proof.
  destruct str1 as [[| c1 r1] |], str2 as [[| c2 r2] |]; try (left; reflexivity).
  unfold calculateSimilarity.
  set (s1 := Js.trim (Js.toLowerCase (String c1 r1))).
  set (s2 := Js.trim (Js.toLowerCase (String c2 r2))).
  destruct (String.eqb s1 s2); [right; left; reflexivity |].
  destruct (Js.includes s1 s2 || Js.includes s2 s1).
  - right. right. left.
    destruct (Nat.ltb_spec (String.length s2) (String.length s1));
      eexists _, _; (split; [| reflexivity]); lia.
  - destruct (Nat.max (String.length s1) (String.length s2) =? 0);
      [right; left; reflexivity |].
    right. right. right. eexists. split; [reflexivity |].
    apply num_ratio. apply edit_distance_upper_lengths.
Qed.

Lemma calculateSimilarity_bounds (str1 str2 : option string) :
  (0 <= calculateSimilarity str1 str2)%Q /\ (calculateSimilarity str1 str2 <= 1)%Q.
Proof.
  destruct (calculateSimilarity_shape str1 str2)
    as [H | [H | [(x & y & Hxy & H) | (r & H & Hr)]]]; rewrite H.
  - split; [apply Qle_refl | discriminate].
  - split; [discriminate | apply Qle_refl].
  - destruct (num_ratio x y Hxy). split; lra.
  - split; [apply Q.le_max_l | apply Q.max_lub; lra].
Qed.

(** X6.  Every score of [calculateSimilarity] is between 0 and 1, and a
    score given for one string containing the other is at most 0.8. *)
Theorem calculateSimilarity_range :
  forall str1 str2 : option string,
    (0 <= calculateSimilarity str1 str2)%Q
    /\ (calculateSimilarity str1 str2 <= 1)%Q
    /\ (forall a b,
          str1 = Some a -> str2 = Some b ->
          Js.trim (Js.toLowerCase a) <> Js.trim (Js.toLowerCase b) ->
          Js.includes (Js.trim (Js.toLowerCase a)) (Js.trim (Js.toLowerCase b))
          || Js.includes (Js.trim (Js.toLowerCase b)) (Js.trim (Js.toLowerCase a)) = true ->
          (calculateSimilarity str1 str2 <= 0.8)%Q).
Proof.
  intros str1 str2.
  destruct (calculateSimilarity_bounds str1 str2) as [Hlow Hhigh].
  split; [exact Hlow | split; [exact Hhigh |]].
  intros a b -> -> Hne Hinc.
  destruct a as [| c1 r1]; [vm_compute; discriminate |].
  destruct b as [| c2 r2]; [vm_compute; discriminate |].
  unfold calculateSimilarity.
  destruct (String.eqb_spec (Js.trim (Js.toLowerCase (String c1 r1)))
                            (Js.trim (Js.toLowerCase (String c2 r2)))); [congruence |].
  rewrite Hinc.
  match goal with
  | |- (0.8 * (Js.num ?x / Js.num ?y) <= 0.8)%Q =>
      assert (Hxy : x <= y)
        by (destruct (Nat.ltb_spec (String.length (Js.trim (Js.toLowerCase (String c2 r2))))
                                   (String.length (Js.trim (Js.toLowerCase (String c1 r1)))));
            lia);
      destruct (num_ratio x y Hxy)
  end.
  lra.
Qed.

Lemma calculateSimilarity_range_witness :
  (calculateSimilarity (Some "Crocin") (Some "Crocin Advance") <= 0.8)%Q.
Proof.
  destruct (calculateSimilarity_range (Some "Crocin") (Some "Crocin Advance")) as (_ & _ & H).
  apply (H "Crocin" "Crocin Advance"); try reflexivity.
  vm_compute. discriminate.
Defined.

(** X7.  The score of [calculateSimilarity] is 1 exactly when both
    strings are non-empty and equal once put in lower case and trimmed. *)
Theorem calculateSimilarity_one :
  forall a b : string,
    (calculateSimilarity (Some a) (Some b) == 1)%Q
    <-> a <> EmptyString /\ b <> EmptyString
        /\ Js.trim (Js.toLowerCase a) = Js.trim (Js.toLowerCase b).
Proof.
  intros a b. split.
  - destruct a as [| c1 r1]; [intros H; vm_compute in H; discriminate |].
    destruct b as [| c2 r2]; [intros H; vm_compute in H; discriminate |].
    unfold calculateSimilarity.
    set (s1 := Js.trim (Js.toLowerCase (String c1 r1))).
    set (s2 := Js.trim (Js.toLowerCase (String c2 r2))).
    destruct (String.eqb_spec s1 s2) as [Heq | Hne]; [intros _; repeat split; discriminate || assumption |].
    intros H. exfalso.
    destruct (Js.includes s1 s2 || Js.includes s2 s1).
    + match type of H with
      | (0.8 * (Js.num ?x / Js.num ?y) == 1)%Q =>
          assert (Hxy : x <= y)
            by (destruct (Nat.ltb_spec (String.length s2) (String.length s1)); lia);
          destruct (num_ratio x y Hxy)
      end.
      lra.
    + destruct (Nat.eqb_spec (Nat.max (String.length s1) (String.length s2)) 0) as [Hz | Hz].
      * apply Hne. destruct s1, s2; simpl in Hz; try lia. reflexivity.
      * assert (Hd : 0 < levenshteinDistance s1 s2).
        { destruct (levenshteinDistance s1 s2) eqn:Hd0; [| lia].
          exfalso. apply Hne.
          rewrite levenshteinDistance_edit_distance in Hd0.
          apply edit_distance_zero in Hd0.
          unfold s1, s2 in Hd0. rewrite !normalised_lower in Hd0. exact Hd0. }
        assert (Hm : 0 < Nat.max (String.length s1) (String.length s2)) by lia.
        pose proof (num_ratio_pos _ _ Hd Hm) as Hr.
        assert (Hlt : (Qmax 0 (1 - Js.num (levenshteinDistance s1 s2)
                                   / Js.num (Nat.max (String.length s1) (String.length s2))) < 1)%Q).
        { apply Q.max_lub_lt; lra. }
        rewrite H in Hlt. now apply Qlt_irrefl in Hlt.
  - intros (Ha & Hb & Heq).
    destruct a as [| c1 r1]; [congruence |]. destruct b as [| c2 r2]; [congruence |].
    unfold calculateSimilarity. rewrite Heq, String.eqb_refl. reflexivity.
Qed.

(** ** The set of name variations *)

Lemma set_has_In (x : string) (vs : list string) : set_has x vs = true <-> In x vs.
Proof.
  unfold set_has. rewrite existsb_exists. split.
  - intros (y & Hy & Heq). apply String.eqb_eq in Heq. now subst.
  - intros H. exists x. split; [assumption | apply String.eqb_refl].
Qed.

Lemma NoDup_snoc (x : string) (vs : list string) :
  List.NoDup vs -> ~ In x vs -> List.NoDup (vs ++ [x]).
Proof.
  induction 1 as [| y vs Hy Hvs IH]; intros Hx; simpl.
  - constructor; [intros [] | constructor].
  - constructor.
    + intros Hin. apply in_app_or in Hin as [Hin | [<- | []]]; [contradiction |].
      apply Hx. now left.
    + apply IH. intros Hin. apply Hx. now right.
Qed.

Lemma set_add_NoDup (x : string) (vs : list string) :
  List.NoDup vs -> List.NoDup (set_add x vs).
Proof.
  intros Hvs. unfold set_add. destruct (set_has x vs) eqn:Hx; [assumption |].
  apply NoDup_snoc; [assumption |]. rewrite <- set_has_In. congruence.
Qed.

Lemma set_add_length (x : string) (vs : list string) :
  length (set_add x vs) <= S (length vs).
Proof.
  unfold set_add. destruct (set_has x vs); [lia |]. rewrite length_app. simpl. lia.
Qed.

Lemma set_add_head (x c : string) (vs : list string) :
  exists rest, set_add x (c :: vs) = c :: rest.
Proof. unfold set_add. destruct (set_has x (c :: vs)); eexists; reflexivity. Qed.

Lemma ocr_variations_NoDup (vs : list string) (base : string) :
  List.NoDup vs -> List.NoDup (ocr_variations vs base).
Proof.
  intros H. unfold ocr_variations.
  repeat match goal with
         | |- context [if ?b then _ else _] => destruct b
         | |- List.NoDup (set_add _ _) => apply set_add_NoDup
         end; assumption.
Qed.

Ltac set_add_bound :=
  repeat match goal with
         | |- context [length (set_add ?x ?l)] =>
             pose proof (set_add_length x l);
             generalize dependent (length (set_add x l)); intros
         | H : context [length (set_add ?x ?l)] |- _ =>
             pose proof (set_add_length x l);
             generalize dependent (length (set_add x l)); intros
         end.

Lemma ocr_variations_length (vs : list string) (base : string) :
  length (ocr_variations vs base) <= length vs + 7.
Proof.
  unfold ocr_variations. cbv zeta.
  repeat match goal with
         | |- context [if ?b then _ else _] => destruct b
         end; set_add_bound; lia.
Qed.

Lemma ocr_variations_head (c : string) (vs : list string) (base : string) :
  exists rest, ocr_variations (c :: vs) base = c :: rest.
Proof.
  unfold ocr_variations.
  repeat match goal with
         | |- context [if ?b then _ else _] => destruct b
         end;
    repeat match goal with
           | |- context [set_add ?x (c :: ?l)] =>
               let r := fresh "r" in
               destruct (set_add_head x c l) as [r ->]
           end; eexists; reflexivity.
Qed.

Lemma ocr_loop_NoDup (bases vs : list string) :
  List.NoDup vs -> List.NoDup (foldl ocr_variations vs bases).
Proof.
  revert vs. induction bases as [| b bases IH]; intros vs H; simpl; [assumption |].
  apply IH. now apply ocr_variations_NoDup.
Qed.

Lemma ocr_loop_length (bases vs : list string) :
  length (foldl ocr_variations vs bases) <= length vs + 7 * length bases.
Proof.
  revert vs. induction bases as [| b bases IH]; intros vs; simpl; [lia |].
  pose proof (IH (ocr_variations vs b)). pose proof (ocr_variations_length vs b). lia.
Qed.

Lemma ocr_loop_head (bases : list string) (c : string) (vs : list string) :
  exists rest, foldl ocr_variations (c :: vs) bases = c :: rest.
Proof.
  revert vs. induction bases as [| b bases IH]; intros vs; simpl; [now eexists |].
  destruct (ocr_variations_head c vs b) as [r ->]. apply IH.
Qed.

Lemma filter_length_le {A : Type} (f : A -> bool) (l : list A) :
  length (List.filter f l) <= length l.
Proof. induction l as [| x l IH]; simpl; [lia |]. destruct (f x); simpl; lia. Qed.

Lemma variations_count (medicineName : string) :
  length (generateMedicineNameVariations medicineName) <= 26.
Proof.
  unfold generateMedicineNameVariations.
  destruct medicineName as [| c0 s0]; [simpl; lia |].
  match goal with
  | |- length (List.filter _ (foldl ocr_variations ?vs (firstn 3 ?vs))) <= _ =>
      pose proof (filter_length_le (fun v => 2 <=? String.length v)
                    (foldl ocr_variations vs (firstn 3 vs))) as Hf;
      pose proof (ocr_loop_length (firstn 3 vs) vs) as Ho;
      pose proof (length_firstn 3 vs) as H3;
      assert (Hinit : length vs <= 5)
  end.
  { repeat match goal with
           | |- context [if ?b then _ else _] => destruct b
           end; set_add_bound; simpl in *; lia. }
  lia.
Qed.

(** X8.  The variations of a name form a set without duplicates, each
    variation has at least two characters, and there are at most 26 of
    them. *)
Theorem variations_set :
  forall medicineName : string,
    let variations := generateMedicineNameVariations medicineName in
    List.NoDup variations
    /\ (forall v, In v variations -> 2 <= String.length v)
    /\ length variations <= 26.
Proof.
  intros medicineName variations. subst variations.
  split; [| split; [intros v; apply variations_length | apply variations_count]].
  unfold generateMedicineNameVariations.
  destruct medicineName as [| c0 s0]; [constructor |].
  apply List.NoDup_filter, ocr_loop_NoDup.
  repeat match goal with
         | |- context [if ?b then _ else _] => destruct b
         | |- List.NoDup (set_add _ _) => apply set_add_NoDup
         end; constructor.
Qed.

Lemma replace_char_absent (a b : ascii) (s : string) :
  Js.has_char a s = false -> Js.replace_char a b s = s.
Proof.
  induction s as [| c s IH]; simpl; [reflexivity |].
  intros H. apply orb_false_iff in H as [Hc Hs]. now rewrite Hc, IH.
Qed.

Lemma replace_char_length (a b : ascii) (s : string) :
  String.length (Js.replace_char a b s) = String.length s.
Proof. induction s as [| c s IH]; simpl; congruence. Qed.

Lemma ocr_variations_adds (vs : list string) (base : string) (a b : ascii) :
  In (Js.toLowerCase base) vs ->
  In (a, b) [("o", "0"); ("0", "o"); ("i", "1"); ("1", "i"); ("l", "i");
             ("s", "5"); ("5", "s")]%char ->
  In (Js.replace_char a b (Js.toLowerCase base)) (ocr_variations vs base).
Proof.
  intros Hbase Hab. unfold ocr_variations. cbv zeta.
  set (lowerBase := Js.toLowerCase base) in *.
  destruct (Js.has_char "o" lowerBase) eqn:Ho, (Js.has_char "0" lowerBase) eqn:H0,
    (Js.has_char "i" lowerBase) eqn:Hi, (Js.has_char "1" lowerBase) eqn:H1,
    (Js.has_char "l" lowerBase) eqn:Hl, (Js.has_char "s" lowerBase) eqn:Hs,
    (Js.has_char "5" lowerBase) eqn:H5; cbn [orb];
    simpl in Hab; intuition (try discriminate);
    match goal with
    | H : (_, _) = (a, b) |- _ => injection H as <- <-
    end;
    try (rewrite replace_char_absent by assumption);
    repeat first [ assumption
                 | apply set_add_In_new
                 | apply set_add_In_old ].
Qed.

(** X9.  What the variations of a name always contain.  For a name whose
    trimmed form has at least two characters, the first variation, the one
    the strategies try first, is the trimmed name as typed; the variations
    also hold its lower-case form, every reading of that form under one of
    the seven character confusions o/0, i/1, l/i and s/5, and, when a dose
    was split off the name leaving at least two characters, the name
    without the dose and its lower-case form. *)
Theorem variations_members :
  forall medicineName : string,
    let cleaned := Js.trim medicineName in
    let base := ex_name (extractStrengthFromName cleaned) in
    let variations := generateMedicineNameVariations medicineName in
    medicineName <> EmptyString ->
    2 <= String.length cleaned ->
    (exists rest, variations = cleaned :: rest)
    /\ In (Js.toLowerCase cleaned) variations
    /\ (forall a b : ascii,
          In (a, b) [("o", "0"); ("0", "o"); ("i", "1"); ("1", "i"); ("l", "i");
                     ("s", "5"); ("5", "s")]%char ->
          In (Js.replace_char a b (Js.toLowerCase cleaned)) variations)
    /\ (base <> cleaned -> 2 <= String.length base ->
        In base variations /\ In (Js.toLowerCase base) variations).
Proof.
  intros medicineName cleaned base variations Hname Hlen. subst variations.
  unfold generateMedicineNameVariations.
  destruct medicineName as [| c0 s0]; [congruence |].
  cbv zeta. fold cleaned. fold base.
  set (v0 := set_add (Js.toLowerCase cleaned) (set_add cleaned [])).
  set (v1 := if Js.truthy (Some base) && negb (String.eqb base cleaned)
             then set_add (Js.toLowerCase base) (set_add base v0) else v0).
  set (v2 := if Js.truthy (Some (removeSuffixes cleaned))
                && negb (String.eqb (removeSuffixes cleaned) (Js.toLowerCase cleaned))
             then set_add (removeSuffixes cleaned) v1 else v1).
  assert (Hlow0 : In (Js.toLowerCase cleaned) v0) by apply set_add_In_new.
  assert (Hv01 : forall x, In x v0 -> In x v1).
  { intros x Hx. unfold v1.
    destruct (Js.truthy (Some base) && negb (String.eqb base cleaned));
      [now apply set_add_In_old, set_add_In_old | assumption]. }
  assert (Hv12 : forall x, In x v1 -> In x v2).
  { intros x Hx. unfold v2.
    destruct (Js.truthy (Some (removeSuffixes cleaned))
              && negb (String.eqb (removeSuffixes cleaned) (Js.toLowerCase cleaned)));
      [now apply set_add_In_old | assumption]. }
  assert (Hhead : exists rest, v2 = cleaned :: rest).
  { assert (H0 : exists rest, v0 = cleaned :: rest).
    { unfold v0. change (set_add cleaned []) with [cleaned]. apply set_add_head. }
    destruct H0 as [r0 E0].
    assert (H1 : exists rest, v1 = cleaned :: rest).
    { unfold v1. rewrite E0.
      destruct (Js.truthy (Some base) && negb (String.eqb base cleaned));
        [| now eexists].
      destruct (set_add_head base cleaned r0) as [r ->]. apply set_add_head. }
    destruct H1 as [r1 E1]. unfold v2. rewrite E1.
    destruct (Js.truthy (Some (removeSuffixes cleaned))
              && negb (String.eqb (removeSuffixes cleaned) (Js.toLowerCase cleaned)));
      [apply set_add_head | now eexists]. }
  destruct Hhead as [r2 E2].
  assert (Hb1 : base <> cleaned -> 2 <= String.length base ->
                In base v1 /\ In (Js.toLowerCase base) v1).
  { intros Hdiff Hbl.
    assert (Hcond : Js.truthy (Some base) && negb (String.eqb base cleaned) = true).
    { apply andb_true_iff. split.
      - destruct base; [simpl in Hbl; lia | reflexivity].
      - apply negb_true_iff, String.eqb_neq. assumption. }
    unfold v1. rewrite Hcond. split;
      [apply set_add_In_old, set_add_In_new | apply set_add_In_new]. }
  clearbody v2 v1 v0.
  assert (Hkeep : forall x, In x v2 -> 2 <= String.length x ->
                  In x (List.filter (fun v => 2 <=? String.length v)
                          (foldl ocr_variations v2 (firstn 3 v2)))).
  { intros x Hx Hl. apply filter_In. split; [| now apply Nat.leb_le].
    now apply ocr_loop_keeps. }
  split; [| split; [| split]].
  - destruct (ocr_loop_head (firstn 3 v2) cleaned r2) as [r Hr].
    rewrite <- E2 in Hr. rewrite Hr.
    cbn [List.filter]. apply Nat.leb_le in Hlen. rewrite Hlen. now eexists.
  - apply Hkeep; [auto |]. now rewrite toLowerCase_length.
  - intros a b Hab. apply filter_In. split.
    + assert (E3 : firstn 3 v2 = cleaned :: firstn 2 r2) by now rewrite E2.
      rewrite E3. cbn [foldl]. apply ocr_loop_keeps.
      apply ocr_variations_adds; auto.
    + apply Nat.leb_le. now rewrite replace_char_length, toLowerCase_length.
  - intros Hdiff Hbl. destruct (Hb1 Hdiff Hbl) as [Hb Hlb].
    split; apply Hkeep; auto. now rewrite toLowerCase_length.
Qed.

Lemma variations_members_witness :
  let variations := generateMedicineNameVariations " Dolo 650 mg " in
  (exists rest, variations = "Dolo 650 mg" :: rest)
  /\ In "dolo 650 mg" variations
  /\ (forall a b : ascii,
        In (a, b) [("o", "0"); ("0", "o"); ("i", "1"); ("1", "i"); ("l", "i");
                   ("s", "5"); ("5", "s")]%char ->
        In (Js.replace_char a b "dolo 650 mg") variations)
  /\ (ex_name (extractStrengthFromName "Dolo 650 mg") <> "Dolo 650 mg" ->
      2 <= String.length (ex_name (extractStrengthFromName "Dolo 650 mg")) ->
      In (ex_name (extractStrengthFromName "Dolo 650 mg")) variations
      /\ In (Js.toLowerCase (ex_name (extractStrengthFromName "Dolo 650 mg"))) variations).
Proof.
  apply (variations_members " Dolo 650 mg "); [discriminate | vm_compute; lia].
Defined.

(** ** The order of the candidates *)

Lemma compareCandidates_ranks (a b : Candidate) :
  Qle_bool (compareCandidates a b) 0 = true <-> ranks_no_lower a b.
Proof.
  unfold compareCandidates, ranks_no_lower. fold (weight a). fold (weight b).
  destruct (Z.eqb_spec (matchScore b) (matchScore a)) as [Hs | Hs]; cbn [negb].
  - destruct (Qeq_bool (similarity b) (similarity a)) eqn:Hq; cbn [negb].
    + apply Qeq_bool_iff in Hq. rewrite Qle_bool_iff. unfold Qle. simpl. split.
      * intros H. right. right. repeat split; [assumption | assumption | lia].
      * intros [H | [[_ H] | (_ & _ & H)]]; [lia | | lia].
        rewrite Hq in H. exfalso. eapply Qlt_irrefl; eauto.
    + assert (Hne : ~ (similarity b == similarity a)%Q).
      { intros H. apply Qeq_bool_iff in H. congruence. }
      rewrite Qle_bool_iff. split.
      * intros H. right. left. split; [assumption |].
        assert (Hle : (similarity b <= similarity a)%Q) by lra.
        apply Qle_lteq in Hle as [| Heq]; [assumption | contradiction].
      * intros [H | [[_ H] | (_ & H & _)]]; [lia | lra | contradiction].
  - rewrite Qle_bool_iff. unfold Qle. simpl. split.
    + intros H. left. lia.
    + intros [H | [[H _] | (H & _)]]; [lia | contradiction | contradiction].
Qed.

Lemma ranks_no_lower_trans (a b c : Candidate) :
  ranks_no_lower a b -> ranks_no_lower b c -> ranks_no_lower a c.
Proof.
  unfold ranks_no_lower.
  intros [H1 | [[H1 H1'] | (H1 & H1' & H1'')]] [H2 | [[H2 H2'] | (H2 & H2' & H2'')]];
    first [ left; lia
          | right; left; split; [lia | lra]
          | right; right; split; [lia | split; [lra | lia]] ].
Qed.

Lemma ranks_no_lower_total (a b : Candidate) :
  ranks_no_lower a b \/ ranks_no_lower b a.
Proof.
  unfold ranks_no_lower.
  destruct (Z.lt_trichotomy (matchScore a) (matchScore b)) as [H | [H | H]];
    [right; left; lia | | left; left; lia].
  destruct (Q_dec (similarity a) (similarity b)) as [[Hq | Hq] | Hq].
  - right. right. left. split; [lia | assumption].
  - left. right. left. split; [lia | assumption].
  - destruct (Z.le_gt_cases (weight a) (weight b)).
    + right. right. right. split; [lia | split; [assumption | lia]].
    + left. right. right. split; [lia | split; [now symmetry | lia]].
Qed.

Lemma ranks_no_lower_refl (a : Candidate) : ranks_no_lower a a.
Proof. now destruct (ranks_no_lower_total a a). Qed.

Lemma compareCandidates_not_ranks (a b : Candidate) :
  Qle_bool (compareCandidates a b) 0 = false -> ranks_no_lower b a.
Proof.
  intros H. destruct (ranks_no_lower_total a b) as [Hab |]; [| assumption].
  apply compareCandidates_ranks in Hab. congruence.
Qed.

(** X10.  [sort] only reorders the candidates, and orders them by match
    score, then similarity, then weightage, highest first; so the best
    match the resolver takes, the first of the sorted array, ranks no
    lower than any candidate found. *)
Theorem sortCandidates_ranked :
  forall fuzzyResults : list Candidate,
    Permutation (sortCandidates fuzzyResults) fuzzyResults
    /\ StronglySorted ranks_no_lower (sortCandidates fuzzyResults)
    /\ (forall bestMatch rest,
          sortCandidates fuzzyResults = bestMatch :: rest ->
          forall c, In c fuzzyResults -> ranks_no_lower bestMatch c).
Proof.
  intros l.
  assert (Hperm : Permutation (sortCandidates l) l) by apply stable_sort_perm.
  assert (Hsorted : StronglySorted ranks_no_lower (sortCandidates l)).
  { apply stable_sort_sorted.
    - apply ranks_no_lower_trans.
    - intros a b. apply compareCandidates_ranks.
    - apply compareCandidates_not_ranks. }
  repeat split; [assumption | assumption |].
  intros best rest E c Hc.
  rewrite E in Hsorted, Hperm.
  apply (Permutation_in _ (Permutation_sym Hperm)) in Hc.
  destruct Hc as [<- | Hc]; [apply ranks_no_lower_refl |].
  apply StronglySorted_inv in Hsorted as [_ Hall].
  rewrite List.Forall_forall in Hall. now apply Hall.
Qed.

Section Stability.
Context {A : Type} (before : A -> A -> bool) (keep : A -> bool).
Hypothesis keep_before :
  forall x y, keep x = true -> keep y = true -> before x y = true.

Lemma insert_sorted_filter (x : A) (l : list A) :
  List.filter keep (insert_sorted before x l) = List.filter keep (x :: l).
Proof.
  induction l as [| y l IH]; [reflexivity |].
  cbn [insert_sorted]. destruct (before x y) eqn:Hxy; [reflexivity |].
  cbn [List.filter] in *. rewrite IH.
  destruct (keep x) eqn:Hx, (keep y) eqn:Hy; try reflexivity.
  rewrite keep_before in Hxy by assumption. discriminate.
Qed.

Lemma stable_sort_filter (l : list A) :
  List.filter keep (stable_sort before l) = List.filter keep l.
Proof.
  induction l as [| x l IH]; [reflexivity |].
  cbn [stable_sort foldr]. fold (stable_sort before l).
  rewrite insert_sorted_filter. cbn [List.filter]. now rewrite IH.
Qed.
End Stability.

Lemma ties_rank (c x y : Candidate) :
  ties c x = true -> ties c y = true -> Qle_bool (compareCandidates x y) 0 = true.
Proof.
  unfold ties. rewrite !andb_true_iff, !Z.eqb_eq, !Qeq_bool_iff.
  intros [[Hs Hq] Hw] [[Hs' Hq'] Hw'].
  apply compareCandidates_ranks. right. right.
  split; [lia | split; [| lia]]. now rewrite <- Hq, <- Hq'.
Qed.

(** X11.  [sort] is stable: the candidates that tie with a given one on
    match score, similarity and weightage come out in the order in which
    the strategies found them. *)
Theorem sortCandidates_stable :
  forall (fuzzyResults : list Candidate) (c : Candidate),
    List.filter (ties c) (sortCandidates fuzzyResults)
    = List.filter (ties c) fuzzyResults.
Proof.
  intros l c. apply stable_sort_filter. apply ties_rank.
Qed.

(** ** The statements a search sends *)

Lemma tryExactMatch_asks (pool : Pool) (variations : list string) :
  forall log, exists k,
    snd (tryExactMatch pool variations log)
    = log ++ map ExactQuery (firstn k variations).
Proof.
  induction variations as [| v rest IH]; intros log; simpl.
  - exists 0. now rewrite app_nil_r.
  - unfold bind, pool_query.
    destruct (if query_throws pool log (ExactQuery v) then None else _)
      as [[| row rows] |].
    2: { exists 1. reflexivity. }
    all: destruct (IH (log ++ [ExactQuery v])) as (k & ->);
      exists (S k); now rewrite <- app_assoc.
Qed.

Lemma tryFuzzyLikeSearch_asks (pool : Pool) (variations : list string) (n : Z) :
  forall acc log,
    snd (tryFuzzyLikeSearch_from pool acc variations n log)
    = log ++ map (fun v => FuzzyQuery v n) variations.
Proof.
  induction variations as [| v rest IH]; intros acc log; simpl.
  - now rewrite app_nil_r.
  - unfold bind, pool_query. rewrite IH. now rewrite <- app_assoc.
Qed.

Lemma tryCompositionSearch_asks (pool : Pool) (salt : option string) (n : Z)
      (log : list Query) :
  exists comp,
    snd (tryCompositionSearch pool salt n log) = log ++ comp
    /\ (comp = [] \/ exists q, comp = [q] /\ is_composition_query q = true).
Proof.
  destruct (Js.truthy salt) eqn:Hsalt.
  - destruct (tryCompositionSearch_sent pool salt n log Hsalt) as (q & Hq & Hc).
    exists [q]. split; [assumption | right; now exists q].
  - exists []. split; [| now left].
    destruct salt as [[| c0 s0] |]; try discriminate; simpl; now rewrite app_nil_r.
Qed.

Lemma search_traffic (pool : Pool) (medicineName : string) (options : Options)
      (log : list Query) :
  let variations := generateMedicineNameVariations medicineName in
  let limit := default 5%Z (maxResults options) in
  exists (k : nat) (fuzzy comp : list Query),
    snd (fuzzySearchMedicine pool (Name medicineName) options log)
    = log ++ map ExactQuery (firstn k variations) ++ fuzzy ++ comp
    /\ (preferExactMatch options = Some false -> k = 0)
    /\ (fuzzy = [] \/ fuzzy = map (fun v => FuzzyQuery v limit) variations)
    /\ (comp = [] \/ exists q, comp = [q] /\ is_composition_query q = true).
Proof.
  intros variations limit.
  assert (Hquiet : forall (r : SearchResult) (k : nat),
             (preferExactMatch options = Some false -> k = 0) ->
             exists (k : nat) (fuzzy comp : list Query),
               log ++ map ExactQuery (firstn k variations)
               = log ++ map ExactQuery (firstn k variations) ++ fuzzy ++ comp
               /\ (preferExactMatch options = Some false -> k = 0)
               /\ (fuzzy = [] \/ fuzzy = map (fun v => FuzzyQuery v limit) variations)
               /\ (comp = [] \/ exists q, comp = [q] /\ is_composition_query q = true)).
  { intros _ k Hk. exists k, [], []. rewrite !app_nil_r. auto. }
  rewrite fuzzySearchMedicine_steps. cbn [snd].
  unfold upto_step4, upto_step3, bind.
  destruct (String.length (Js.trim medicineName) <? 2).
  { destruct (Hquiet validationFailure 0) as (k & f & c & H); [auto |].
    exists 0, [], []. simpl. rewrite !app_nil_r. auto. }
  fold variations. fold limit.
  assert (Hexact : exists k,
             snd ((if default true (preferExactMatch options)
                   then tryExactMatch pool variations else ret None) log)
             = log ++ map ExactQuery (firstn k variations)
             /\ (preferExactMatch options = Some false -> k = 0)).
  { destruct (preferExactMatch options) as [[|] |]; simpl.
    - destruct (tryExactMatch_asks pool variations log) as [k Hk].
      exists k. split; [assumption | discriminate].
    - exists 0. split; [now rewrite app_nil_r | reflexivity].
    - destruct (tryExactMatch_asks pool variations log) as [k Hk].
      exists k. split; [assumption | discriminate]. }
  destruct Hexact as (k & Hk & Hpref).
  destruct ((if default true (preferExactMatch options)
             then tryExactMatch pool variations else ret None) log)
    as [[found |] log1]; cbn [snd] in Hk; subst log1.
  { exists k, [], []. cbn [ret step4 snd]. rewrite !app_nil_r. auto. }
  unfold tryFuzzyLikeSearch.
  pose proof (tryFuzzyLikeSearch_asks pool variations limit []
                (log ++ map ExactQuery (firstn k variations))) as Hf.
  destruct (tryFuzzyLikeSearch_from pool [] variations limit _) as [fuzzyResults log2].
  cbn [snd] in Hf. subst log2. cbn [ret step4]. fold limit.
  destruct (Js.truthy (includeSalt options) && (length fuzzyResults =? 0)).
  - unfold bind.
    match goal with
    | |- context [tryCompositionSearch pool _ _ ?log2] =>
        destruct (tryCompositionSearch_asks pool (includeSalt options) limit log2)
          as (comp & Hcomp & Hshape)
    end.
    destruct (tryCompositionSearch pool _ _ _) as [compositionResults log3].
    cbn [snd] in Hcomp. subst log3. cbn [ret snd].
    exists k, (map (fun v => FuzzyQuery v limit) variations), comp.
    rewrite <- !app_assoc. auto.
  - cbn [ret snd].
    exists k, (map (fun v => FuzzyQuery v limit) variations), [].
    rewrite <- !app_assoc, app_nil_r. auto.
Qed.

Lemma search_budget (pool : Pool) (medicineName : NameArg) (options : Options)
      (log : list Query) :
  exists sent,
    snd (fuzzySearchMedicine pool medicineName options log) = log ++ sent
    /\ length sent <= 53.
Proof.
  destruct medicineName as [| s].
  { exists []. simpl. split; [now rewrite app_nil_r | lia]. }
  destruct (search_traffic pool s options log) as (k & fuzzy & comp & E & _ & Hf & Hc).
  eexists. split; [exact E |].
  pose proof (variations_count s) as Hn.
  rewrite !length_app, length_map, length_firstn.
  assert (length fuzzy <= 26).
  { destruct Hf as [-> | ->]; [simpl; lia | now rewrite length_map]. }
  assert (length comp <= 1).
  { destruct Hc as [-> | (q & -> & _)]; simpl; lia. }
  lia.
Qed.

(** X12.  The statements one search sends, in order: exact statements
    for the first [k] variations (none when [preferExactMatch] is false),
    then either nothing or one fuzzy statement per variation, each with
    the limit [maxResults], then at most one composition statement; 53
    statements at most.  The log only grows. *)
Theorem search_statements :
  forall (pool : Pool) (medicineName : string) (options : Options) (log : list Query),
    let variations := generateMedicineNameVariations medicineName in
    let limit := default 5%Z (maxResults options) in
    exists (k : nat) (fuzzy comp : list Query),
      snd (fuzzySearchMedicine pool (Name medicineName) options log)
      = log ++ map ExactQuery (firstn k variations) ++ fuzzy ++ comp
      /\ (preferExactMatch options = Some false -> k = 0)
      /\ (fuzzy = [] \/ fuzzy = map (fun v => FuzzyQuery v limit) variations)
      /\ (comp = [] \/ exists q, comp = [q] /\ is_composition_query q = true)
      /\ length (map ExactQuery (firstn k variations) ++ fuzzy ++ comp) <= 53.
Proof.
  intros pool s options log variations limit.
  destruct (search_traffic pool s options log) as (k & fuzzy & comp & E & Hp & Hf & Hc).
  exists k, fuzzy, comp. repeat split; try assumption.
  pose proof (variations_count s) as Hn. fold variations in Hn.
  rewrite !length_app, length_map, length_firstn.
  assert (length fuzzy <= 26).
  { destruct Hf as [-> | ->]; [simpl; lia | now rewrite length_map]. }
  assert (length comp <= 1).
  { destruct Hc as [-> | (q & -> & _)]; simpl; lia. }
  lia.
Qed.

Lemma batch_loop_budget (pool : Pool) (options : Options) (l : list Item) :
  forall i log, exists sent,
    snd (batch_loop pool options [] i l log) = log ++ sent
    /\ length sent <= 53 * length l.
Proof.
  induction l as [| m rest IH]; intros i log.
  - exists []. simpl. split; [now rewrite app_nil_r | lia].
  - rewrite batch_loop_cons. cbv zeta. cbn [snd].
    destruct (search_budget pool (medicine_name m) (item_options options m) log)
      as (sent1 & -> & H1).
    destruct (IH (S i) (log ++ sent1)) as (sent2 & -> & H2).
    exists (sent1 ++ sent2). split; [now rewrite app_assoc |].
    rewrite length_app. simpl. lia.
Qed.

(** X13.  A batch of [n] items sends at most [53 * n] statements, and
    nothing when [medicines] is not an array. *)
Theorem batch_statements :
  forall (pool : Pool) (medicines : BatchArg) (options : Options) (log : list Query),
    exists sent,
      snd (batchFuzzySearch pool medicines options log) = log ++ sent
      /\ length sent <= 53 * match medicines with
                               | Items l => length l
                               | NotAnArray _ => 0
                               end.
Proof.
  intros pool [t | l] options log.
  - exists []. simpl. split; [now rewrite app_nil_r | lia].
  - rewrite batchFuzzySearch_loop. apply batch_loop_budget.
Qed.

(** ** A store that gives nothing *)

Section Barren.
Variable pool : Pool.
Hypothesis Hbarren :
  forall q log, fst (pool_query pool q log) = None
                \/ fst (pool_query pool q log) = Some [].

Lemma tryExactMatch_barren (variations : list string) :
  forall log, fst (tryExactMatch pool variations log) = None.
Proof.
  induction variations as [| v rest IH]; intros log; [reflexivity |].
  cbn [tryExactMatch]. unfold bind.
  destruct (Hbarren (ExactQuery v) log) as [H | H];
    destruct (pool_query pool (ExactQuery v) log) as [res log1];
    cbn [fst] in H; subst res; apply IH.
Qed.

Lemma tryFuzzyLikeSearch_barren (variations : list string) (n : Z) :
  forall acc log, fst (tryFuzzyLikeSearch_from pool acc variations n log) = acc.
Proof.
  induction variations as [| v rest IH]; intros acc log; [reflexivity |].
  cbn [tryFuzzyLikeSearch_from]. unfold bind.
  destruct (Hbarren (FuzzyQuery v n) log) as [H | H];
    destruct (pool_query pool (FuzzyQuery v n) log) as [res log1];
    cbn [fst] in H; subst res; rewrite IH; [reflexivity |].
  cbn [map]. apply app_nil_r.
Qed.


End Barren.



(** ** The candidates of the fuzzy strategy *)

Lemma fuzzy_statement_rows (cat : list MedDetails) (v : string) (n : Z)
      (rows : list Row) (row : Row) :
  fuzzy_statement cat v n = Some rows -> In row rows ->
  match_score row = Some (fuzzy_match_score v (row_med row))
  /\ Sql.holds (Sql.like (Sql.lower (med_brand_name (row_med row)))
                         (Sql.concat (Sql.concat (Some "%") (Sql.lower (Some v)))
                                     (Some "%"))) = true.
Proof.
  unfold fuzzy_statement. intros Hrows Hin.
  apply (limit_In _ _ _ _ Hrows), stable_sort_In in Hin.
  apply in_map_iff in Hin as (r & <- & Hin).
  apply filter_In in Hin as [_ Hw]. apply and3_holds in Hw as [_ Hw].
  split; [reflexivity | exact Hw].
Qed.

Lemma fuzzy_match_score_cases (v : string) (r : MedDetails) :
  Sql.holds (Sql.like (Sql.lower (med_brand_name r))
                      (Sql.concat (Sql.concat (Some "%") (Sql.lower (Some v)))
                                  (Some "%"))) = true ->
  (fuzzy_match_score v r = 100%Z
   /\ Sql.lower (med_brand_name r) = Some (Js.toLowerCase v))
  \/ ((fuzzy_match_score v r = 90%Z \/ fuzzy_match_score v r = 80%Z)
      /\ Sql.lower (med_brand_name r) <> Some (Js.toLowerCase v)).
Proof.
  intros Hw. unfold fuzzy_match_score. cbv zeta.
  destruct (Sql.holds (Sql.eq_text (Sql.lower (med_brand_name r)) (Sql.lower (Some v))))
    eqn:Heq.
  - left. split; [reflexivity |]. now apply eq_text_holds in Heq.
  - right. split.
    + destruct (Sql.holds (Sql.like _ (Sql.concat (Sql.lower (Some v)) (Some "%"))));
        [now left |]. rewrite Hw. now right.
    + intros H. apply (eq_text_holds _ (Js.toLowerCase v)) in H.
      simpl in Heq, H. congruence.
Qed.

Lemma tryFuzzyLikeSearch_candidates (pool : Pool) (n : Z) (P : Candidate -> Prop)
      (variations : list string) :
  (forall v row rows log,
      In v variations ->
      fst (pool_query pool (FuzzyQuery v n) log) = Some rows -> In row rows ->
      P {| medicine := formatMedicineResult (row_med row);
           similarity := calculateSimilarity (Some v) (med_brand_name (row_med row));
           matchScore := default 0%Z (match_score row);
           cand_searchTerm := v |}) ->
  forall acc log,
    Forall P acc ->
    Forall P (fst (tryFuzzyLikeSearch_from pool acc variations n log)).
Proof.
  induction variations as [| v rest IH]; intros HP acc log Hacc; [exact Hacc |].
  cbn [tryFuzzyLikeSearch_from]. unfold bind.
  destruct (pool_query pool (FuzzyQuery v n) log) as [res log1] eqn:Hq.
  assert (Hres : fst (pool_query pool (FuzzyQuery v n) log) = res) by now rewrite Hq.
  apply IH.
  - intros v' row rows log' Hv'. apply HP. now right.
  - destruct res as [rows |]; [| exact Hacc].
    apply Forall_app. split; [exact Hacc |].
    rewrite List.Forall_forall. intros c Hc.
    apply in_map_iff in Hc as (row & <- & Hrow).
    eapply HP; eauto. now left.
Qed.

Lemma pool_query_fuzzy (pool : Pool) (v : string) (n : Z) (log : list Query)
      (rows : list Row) :
  fst (pool_query pool (FuzzyQuery v n) log) = Some rows ->
  fuzzy_statement (catalog pool) v n = Some rows.
Proof.
  unfold pool_query. cbn [fst]. destruct (query_throws pool log _); [discriminate |].
  auto.
Qed.

(** X15.  Every candidate of the fuzzy strategy carries the variation it
    was found with and a match score of 100, 90 or 80: the rows selected
    all satisfy the third condition of the CASE expression, so its ELSE
    branch (70) is never taken.  The score is 100 exactly when the brand
    name is the variation up to letter case, and the similarity of such a
    candidate is 1. *)
Theorem fuzzy_candidate_scores :
  forall (pool : Pool) (variations : list string) (maxResults : Z)
         (log : list Query) (c : Candidate),
    In c (fst (tryFuzzyLikeSearch pool variations maxResults log)) ->
    In (cand_searchTerm c) variations
    /\ (matchScore c = 100 \/ matchScore c = 90 \/ matchScore c = 80)%Z
    /\ (matchScore c = 100%Z <->
        Sql.lower (drug_name (medicine c)) = Some (Js.toLowerCase (cand_searchTerm c)))
    /\ (matchScore c = 100%Z -> cand_searchTerm c <> EmptyString ->
        similarity c = 1%Q).
Proof.
  intros pool variations n log c Hc.
  pose proof (tryFuzzyLikeSearch_candidates pool n
    (fun c => In (cand_searchTerm c) variations
              /\ (matchScore c = 100 \/ matchScore c = 90 \/ matchScore c = 80)%Z
              /\ (matchScore c = 100%Z <->
                  Sql.lower (drug_name (medicine c))
                  = Some (Js.toLowerCase (cand_searchTerm c)))
              /\ (matchScore c = 100%Z -> cand_searchTerm c <> EmptyString ->
                  similarity c = 1%Q))
    variations) as H.
  unfold tryFuzzyLikeSearch in Hc.
  eapply List.Forall_forall in H; [exact H | | constructor | exact Hc].
  clear. intros v row rows log Hv Hq Hrow. cbn [cand_searchTerm matchScore similarity
    medicine formatMedicineResult drug_name].
  apply pool_query_fuzzy in Hq.
  destruct (fuzzy_statement_rows _ _ _ _ _ Hq Hrow) as [-> Hw]. cbn [default].
  split; [assumption |].
  destruct (fuzzy_match_score_cases v (row_med row) Hw) as [[-> Hb] | [Hs Hb]].
  - split; [now left |]. split; [tauto |]. intros _ Hne.
    destruct (med_brand_name (row_med row)) as [b |]; [| discriminate].
    injection Hb as Hb. apply calculateSimilarity_same_letters; [assumption | now symmetry].
  - split; [destruct Hs as [-> | ->]; auto |].
    split; [| destruct Hs as [-> | ->]; discriminate].
    split; [destruct Hs as [-> | ->]; discriminate | contradiction].
Qed.

Lemma fuzzy_candidate_scores_witness :
  exists c : Candidate,
    fst (tryFuzzyLikeSearch (reliable_pool sample_catalog) ["dolo"] 5 []) = [c]
    /\ In (cand_searchTerm c) ["dolo"]
    /\ (matchScore c = 100 \/ matchScore c = 90 \/ matchScore c = 80)%Z
    /\ (matchScore c = 100%Z <->
        Sql.lower (drug_name (medicine c)) = Some (Js.toLowerCase (cand_searchTerm c)))
    /\ (matchScore c = 100%Z -> cand_searchTerm c <> EmptyString ->
        similarity c = 1%Q).
Proof.
  eexists. split; [vm_compute; reflexivity |].
  apply (fuzzy_candidate_scores (reliable_pool sample_catalog) ["dolo"] 5 []).
  vm_compute. left. reflexivity.
Defined.

(** ** After the exact strategy has failed *)

Lemma exact_statement_none (cat : list MedDetails) (v : string) (r : MedDetails) :
  exact_statement cat v = Some [] ->
  live_in cat r ->
  Sql.lower (med_brand_name r) <> Some (Js.toLowerCase v).
Proof.
  unfold exact_statement, Sql.limit. cbn [Z.ltb Z.compare Z.to_nat Pos.to_nat Pos.iter_op].
  intros H (Hin & Ha & Hd) Hb. injection H as H.
  assert (Hr : In r (List.filter (fun r =>
                 Sql.holds (Sql.and3 (where_active r)
                                     (Sql.eq_text (Sql.lower (med_brand_name r))
                                                  (Sql.lower (Some v))))) cat)).
  { apply filter_In. split; [assumption |]. apply and3_holds. split.
    - now apply where_active_holds.
    - now apply (eq_text_holds _ (Js.toLowerCase v)). }
  apply (stable_sort_In (fun a b =>
           Sql.not_after (Sql.desc_nulls_last (med_weightage a) (med_weightage b)))) in Hr.
  destruct (stable_sort _ _) as [| x l]; [destruct Hr | discriminate H].
Qed.

Lemma tryExactMatch_none (pool : Pool) (variations : list string) :
  (forall h q, query_throws pool h q = false) ->
  forall log,
    fst (tryExactMatch pool variations log) = None ->
    forall v, In v variations -> exact_statement (catalog pool) v = Some [].
Proof.
  intros Hok. induction variations as [| v rest IH]; intros log Hnone v' Hv';
    [destruct Hv' |].
  cbn [tryExactMatch] in Hnone. unfold bind, pool_query in Hnone.
  rewrite Hok in Hnone. cbn [run_statement] in Hnone.
  destruct (exact_statement (catalog pool) v) as [[| row rows] |] eqn:Hst.
  - destruct Hv' as [<- | Hv']; [assumption | eapply IH; eauto].
  - discriminate Hnone.
  - unfold exact_statement, Sql.limit in Hst. discriminate Hst.
Qed.

Lemma fuzzy_after_exact (pool : Pool) (variations : list string) (n : Z) :
  (forall v, In v variations -> exact_statement (catalog pool) v = Some []) ->
  forall log c,
    In c (fst (tryFuzzyLikeSearch pool variations n log)) ->
    (matchScore c = 90 \/ matchScore c = 80)%Z.
Proof.
  intros Hnone log c Hc.
  pose proof (tryFuzzyLikeSearch_candidates pool n
    (fun c => (matchScore c = 90 \/ matchScore c = 80)%Z) variations) as H.
  unfold tryFuzzyLikeSearch in Hc.
  eapply List.Forall_forall in H; [exact H | | constructor | exact Hc].
  clear log c Hc H. intros v row rows log Hv Hq Hrow. cbn [matchScore].
  pose proof (pool_query_live _ _ _ _ _ Hq Hrow) as Hlive.
  apply pool_query_fuzzy in Hq.
  destruct (fuzzy_statement_rows _ _ _ _ _ Hq Hrow) as [-> Hw]. cbn [default].
  destruct (fuzzy_match_score_cases v (row_med row) Hw) as [[_ Hb] | [Hs _]];
    [| assumption].
  exfalso. eapply exact_statement_none; eauto.
Qed.

Lemma upto_step3_exact_hit (pool : Pool) (medicineName : NameArg) (options : Options)
      (log : list Query) (found : SearchResult) :
  fst (upto_step3 pool medicineName options log) = ExactHit found ->
  matchType found = Some "exact".
Proof.
  unfold upto_step3, bind. destruct medicineName as [| s]; [discriminate |].
  destruct (String.length (Js.trim s) <? 2); [discriminate |].
  destruct (default true (preferExactMatch options)).
  - destruct (tryExactMatch pool (generateMedicineNameVariations s) log)
      as [[found' |] log1] eqn:He.
    + cbn [ret fst]. intros [= <-].
      destruct (tryExactMatch_hit pool (generateMedicineNameVariations s) log found')
        as (_ & _ & Ht & _); [intros v; apply variations_length | now rewrite He | exact Ht].
    + destruct (tryFuzzyLikeSearch pool _ _ log1). discriminate.
  - cbn [ret]. destruct (tryFuzzyLikeSearch pool _ _ log). discriminate.
Qed.

(** X16.  When the exact strategy is tried first (the default) and the
    store answers every statement, a search that goes on to the fuzzy
    strategy finds no candidate of match score 100 there: such a row
    would have been an exact hit.  So a result labelled
    "exact-composition" then always comes from the composition strategy:
    a salt was given and the fuzzy strategy found nothing. *)
Theorem hundred_is_composition :
  forall (pool : Pool) (medicineName : string) (options : Options) (log : list Query),
    (forall h q, query_throws pool h q = false) ->
    preferExactMatch options <> Some false ->
    (forall fuzzyResults c,
        fst (upto_step3 pool (Name medicineName) options log) = Candidates fuzzyResults ->
        In c fuzzyResults ->
        (matchScore c = 90 \/ matchScore c = 80)%Z)
    /\ (matchType (fst (fuzzySearchMedicine pool (Name medicineName) options log))
        = Some "exact-composition" ->
        Js.truthy (includeSalt options) = true
        /\ fst (upto_step3 pool (Name medicineName) options log) = Candidates []).
Proof.
  intros pool s options log Hok Hpref.
  assert (Hp : default true (preferExactMatch options) = true).
  { destruct (preferExactMatch options) as [[|] |]; [reflexivity | congruence | reflexivity]. }
  assert (Hfuzzy : forall fuzzyResults c,
             fst (upto_step3 pool (Name s) options log) = Candidates fuzzyResults ->
             In c fuzzyResults ->
             (matchScore c = 90 \/ matchScore c = 80)%Z).
  { intros f c Hst Hc. unfold upto_step3, bind in Hst. rewrite Hp in Hst.
    destruct (String.length (Js.trim s) <? 2); [discriminate |].
    destruct (tryExactMatch pool (generateMedicineNameVariations s) log)
      as [[found |] log1] eqn:He; [discriminate |].
    assert (Hnone : fst (tryExactMatch pool (generateMedicineNameVariations s) log) = None)
      by now rewrite He.
    pose proof (tryExactMatch_none pool _ Hok log Hnone) as Hall.
    pose proof (fuzzy_after_exact pool (generateMedicineNameVariations s)
                  (default 5%Z (maxResults options)) Hall log1 c) as Hconcl.
    destruct (tryFuzzyLikeSearch pool _ _ log1) as [f' log2].
    cbn [ret fst] in Hst. injection Hst as ->. now apply Hconcl. }
  split; [exact Hfuzzy |].
  rewrite fuzzySearchMedicine_steps. cbn [fst]. unfold upto_step4, bind.
  pose proof (upto_step3_exact_hit pool (Name s) options log) as Hexact.
  destruct (upto_step3 pool (Name s) options log) as [st log1]. cbn [fst] in *.
  destruct st as [| found | f].
  - discriminate.
  - cbn [step4 ret fst step5]. rewrite (Hexact found eq_refl). discriminate.
  - cbn [step4]. destruct f as [| c0 f].
    + destruct (Js.truthy (includeSalt options)); [intros _; split; reflexivity |].
      cbn. discriminate.
    + cbn [length Nat.eqb]. rewrite andb_false_r. cbn [ret fst step5].
      pose proof (stable_sort_In (fun a b => Qle_bool (compareCandidates a b) 0)
                    (c0 :: f)) as Hin.
      fold (sortCandidates (c0 :: f)) in Hin.
      destruct (sortCandidates (c0 :: f)) as [| best rest]; [discriminate |].
      destruct (Qle_bool _ (similarity best)); [| discriminate].
      cbn [matchType].
      destruct (Hfuzzy (c0 :: f) best eq_refl) as [Hb | Hb];
        [apply Hin; now left | rewrite Hb; discriminate | rewrite Hb; discriminate].
Qed.

Lemma hundred_is_composition_witness :
  let pool := reliable_pool sample_catalog in
  (forall fuzzyResults c,
      fst (upto_step3 pool (Name "dolo") default_options []) = Candidates fuzzyResults ->
      In c fuzzyResults ->
      (matchScore c = 90 \/ matchScore c = 80)%Z)
  /\ (matchType (fst (fuzzySearchMedicine pool (Name "dolo") default_options []))
      = Some "exact-composition" ->
      Js.truthy (includeSalt default_options) = true
      /\ fst (upto_step3 pool (Name "dolo") default_options []) = Candidates []).
Proof.
  apply (hundred_is_composition (reliable_pool sample_catalog) "dolo" default_options []);
    [reflexivity | discriminate].
Defined.

(** ** The candidates of the composition strategy *)

Lemma or3_holds (a b : Sql.tv) :
  Sql.holds (Sql.or3 a b) = true <-> Sql.holds a = true \/ Sql.holds b = true.
Proof.
  destruct a as [[] |], b as [[] |]; simpl; split; auto; intros [? | ?]; discriminate.
Qed.

Section CompositionRows.
Variable cat : list MedDetails.
Variable sim : string -> string -> Q.
Variable th : Q.

Lemma where_composition_slot (p1 : string) (r : MedDetails) :
  Sql.holds (where_composition sim th p1 r) = true ->
  exists s, In s (slots r) /\ Sql.holds (slot_similar sim th p1 s) = true.
Proof.
  unfold where_composition. rewrite and3_holds, !or3_holds. unfold slots.
  intros [_ [[[[H | H] | H] | H] | H]]; eexists; (split; [| exact H]); simpl; auto 6.
Qed.

Lemma slot_similar_threshold (p1 : string) (s : Slot) :
  Sql.holds (slot_similar sim th p1 s) = true ->
  exists a, slot_name s = Some a
            /\ (th <= sim (Js.toLowerCase a) (Js.toLowerCase p1))%Q.
Proof.
  unfold slot_similar, trgm_similar. destruct (slot_name s) as [a |]; [| discriminate].
  simpl. destruct (Qle_bool th _) eqn:H; [| discriminate].
  intros _. exists a. split; [reflexivity | now apply Qle_bool_iff].
Qed.

Lemma comp_similarity_of_slot (p1 : string) (r : MedDetails) (s : Slot) (a : string) :
  In s (slots r) -> slot_name s = Some a ->
  (sim (Js.toLowerCase a) (Js.toLowerCase p1) <= comp_similarity_of sim p1 r)%Q.
Proof.
  unfold slots, comp_similarity_of. cbv zeta.
  intros [<- | [<- | [<- | [<- | [<- | []]]]]] ->; cbn [Sql.coalesce].
  - apply Q.le_max_l.
  - eapply Qle_trans; [| apply Q.le_max_r]. apply Q.le_max_l.
  - eapply Qle_trans; [| apply Q.le_max_r]. eapply Qle_trans; [| apply Q.le_max_r].
    apply Q.le_max_l.
  - eapply Qle_trans; [| apply Q.le_max_r]. eapply Qle_trans; [| apply Q.le_max_r].
    eapply Qle_trans; [| apply Q.le_max_r]. apply Q.le_max_l.
  - eapply Qle_trans; [| apply Q.le_max_r]. eapply Qle_trans; [| apply Q.le_max_r].
    eapply Qle_trans; [| apply Q.le_max_r]. apply Q.le_max_r.
Qed.

Lemma comp_match_score_cases (p1 p2 p3 : string) (r : MedDetails) :
  (exists s, In s (slots r) /\ Sql.holds (slot_similar sim th p1 s) = true) ->
  comp_match_score_of sim th p1 p2 p3 r = 100%Z
  \/ comp_match_score_of sim th p1 p2 p3 r = 80%Z.
Proof.
  intros (s & Hs & Hsim). unfold comp_match_score_of.
  destruct (existsb (fun s => Sql.holds (slot_exact sim th p1 p2 p3 s)) (slots r));
    [now left | right].
  assert (H : existsb (fun s => Sql.holds (slot_similar sim th p1 s)) (slots r) = true).
  { apply existsb_exists. now exists s. }
  now rewrite H.
Qed.

Lemma where_composition_similarity (p1 : string) (r : MedDetails) :
  Sql.holds (where_composition sim th p1 r) = true ->
  (th <= comp_similarity_of sim p1 r)%Q.
Proof.
  intros H. apply where_composition_slot in H as (s & Hs & Hsim).
  apply slot_similar_threshold in Hsim as (a & Ha & Hth).
  eapply Qle_trans; [exact Hth |]. eapply comp_similarity_of_slot; eauto.
Qed.

Lemma composition_strength_statement_rows (p1 p2 p3 : string) (n : Z)
      (rows : list Row) (row : Row) :
  composition_strength_statement cat sim th p1 p2 p3 n = Some rows -> In row rows ->
  exists q z, comp_similarity row = Some q /\ (th <= q)%Q
              /\ comp_match_score row = Some z /\ (z = 100 \/ z = 80)%Z.
Proof.
  unfold composition_strength_statement. intros Hrows Hin.
  apply (limit_In _ _ _ _ Hrows), stable_sort_In in Hin.
  apply in_map_iff in Hin as (r & <- & Hin).
  apply distinct_from_In, filter_In in Hin as [_ Hw].
  eexists _, _. cbn [comp_similarity comp_match_score].
  split; [reflexivity |]. split; [now apply where_composition_similarity |].
  split; [reflexivity |]. apply comp_match_score_cases.
  now apply where_composition_slot.
Qed.

Lemma composition_statement_rows (p1 : string) (n : Z) (rows : list Row) (row : Row) :
  composition_statement cat sim th p1 n = Some rows -> In row rows ->
  exists q, comp_similarity row = Some q /\ (th <= q)%Q
            /\ comp_match_score row = None.
Proof.
  unfold composition_statement. intros Hrows Hin.
  apply (limit_In _ _ _ _ Hrows), stable_sort_In in Hin.
  apply in_map_iff in Hin as (r & <- & Hin).
  apply distinct_from_In, filter_In in Hin as [_ Hw].
  eexists. cbn [comp_similarity comp_match_score].
  split; [reflexivity |]. split; [now apply where_composition_similarity | reflexivity].
Qed.
End CompositionRows.

(** X17.  Every candidate of the composition strategy carries the salt
    as its search term and a match score of 100 or 80, never the 70 of
    the ELSE branch; 80 whenever the salt holds no dose.  Its
    similarity is at least the threshold of the operator [%], or it is
    the fallback 0.7, which takes the place of a zero similarity and can
    only occur when that threshold is not positive. *)
Theorem composition_candidates :
  forall (pool : Pool) (salt : option string) (maxResults : Z) (log : list Query)
         (c : Candidate),
    In c (fst (tryCompositionSearch pool salt maxResults log)) ->
    salt = Some (cand_searchTerm c)
    /\ (matchScore c = 100 \/ matchScore c = 80)%Z
    /\ (ex_strength (extractStrengthFromName (cand_searchTerm c)) = None ->
        matchScore c = 80%Z)
    /\ ((pg_similarity_threshold pool <= similarity c)%Q
        \/ ((pg_similarity_threshold pool <= 0)%Q /\ similarity c = 0.7%Q)).
Proof.
  intros pool salt n log c.
  destruct salt as [[| c0 s0] |]; try (intros []).
  unfold tryCompositionSearch, bind.
  set (salt := String c0 s0). set (extracted := extractStrengthFromName salt).
  set (name := or_text (ex_name extracted) salt).
  assert (Hsim : forall q : Q,
             (pg_similarity_threshold pool <= q)%Q ->
             (pg_similarity_threshold pool <= (if Qeq_bool q 0 then 0.7 else q))%Q
             \/ ((pg_similarity_threshold pool <= 0)%Q
                 /\ (if Qeq_bool q 0 then 0.7%Q else q) = 0.7%Q)).
  { intros q Hq. destruct (Qeq_bool q 0) eqn:H0; [right | now left].
    apply Qeq_bool_iff in H0. split; [now rewrite <- H0 | reflexivity]. }
  destruct (ex_strength extracted) as [strength |] eqn:Hst.
  1: destruct (ex_unit extracted) as [unit |] eqn:Hu.
  1: destruct (Js.truthy (Some strength) && Js.truthy (Some unit)).
  1: { (* the statement with strength matching *)
    unfold pool_query. cbn [fst snd].
    destruct (query_throws pool log _); [intros [] |].
    cbn [run_statement].
    destruct (composition_strength_statement _ _ _ name strength unit n)
      as [rows |] eqn:Hrows; [| intros []].
    cbn [ret fst]. intros Hc. apply in_map_iff in Hc as (row & <- & Hrow).
    destruct (composition_strength_statement_rows _ _ _ _ _ _ _ _ _ Hrows Hrow)
      as (q & z & -> & Hq & -> & Hz).
    cbn [cand_searchTerm matchScore similarity]. fold extracted. rewrite Hst.
    split; [reflexivity |].
    assert (Hz' : (if (z =? 0)%Z then 80%Z else z) = z)
      by (destruct Hz as [-> | ->]; reflexivity).
    rewrite Hz'. split; [assumption |]. split; [discriminate | now apply Hsim]. }
  all: unfold pool_query; cbn [fst snd];
    (destruct (query_throws pool log _); [intros [] |]);
    cbn [run_statement];
    (destruct (composition_statement _ _ _ name n) as [rows |] eqn:Hrows;
     [| intros []]);
    cbn [ret fst]; intros Hc; apply in_map_iff in Hc as (row & <- & Hrow);
    destruct (composition_statement_rows _ _ _ _ _ _ _ Hrows Hrow)
      as (q & -> & Hq & ->);
    cbn [cand_searchTerm matchScore similarity];
    (split; [reflexivity |]); (split; [now right |]);
    (split; [reflexivity | now apply Hsim]).
Qed.

Lemma composition_candidates_witness :
  exists c : Candidate,
    fst (tryCompositionSearch (reliable_pool calpol_catalog)
           (Some "Paracetamol 500mg") 5 []) = [c]
    /\ Some "Paracetamol 500mg" = Some (cand_searchTerm c)
    /\ (matchScore c = 100 \/ matchScore c = 80)%Z
    /\ (ex_strength (extractStrengthFromName (cand_searchTerm c)) = None ->
        matchScore c = 80%Z)
    /\ ((pg_similarity_threshold (reliable_pool calpol_catalog) <= similarity c)%Q
        \/ ((pg_similarity_threshold (reliable_pool calpol_catalog) <= 0)%Q
            /\ similarity c = 0.7%Q)).
Proof.
  eexists. split; [vm_compute; reflexivity |].
  apply (composition_candidates (reliable_pool calpol_catalog)
           (Some "Paracetamol 500mg") 5 []).
  vm_compute. left. reflexivity.
Defined.

(** ** Result formatting *)

Lemma flat_map_nil_iff {A B : Type} (f : A -> list B) (l : list A) :
  flat_map f l = [] <-> forall x, In x l -> f x = [].
Proof.
  induction l as [| a l IH]; simpl.
  - split; [intros _ x [] | reflexivity].
  - split.
    + intros H. apply app_eq_nil in H as [Ha Hl].
      intros x [<- | Hx]; [assumption | now apply IH].
    + intros H. rewrite (H a) by now left. apply IH. intros x Hx. apply H. now right.
Qed.

(** X18.  [buildCompositionString] returns [null] exactly when the
    object has no non-empty property [compositionN_name] for N from 1 to
    5.  [formatMedicineResult] calls it on the raw row of the store, whose
    composition columns are named [med_composition_name_N], so the
    property [composition] of every formatted medicine is [null]. *)
Theorem composition_string :
  (forall medicine : Obj,
      buildCompositionString medicine = None <->
      forall i, In i (seq 1 5) ->
                Js.truthy (medicine ("composition" +:+ index_text i +:+ "_name")) = false)
  /\ (forall row : MedDetails, composition (formatMedicineResult row) = None).
Proof.
  split.
  - intros medicine. unfold buildCompositionString.
    match goal with
    | |- context [flat_map ?f (seq 1 5)] => set (part := f)
    end.
    assert (Hpart : forall i,
               part i = [] <->
               Js.truthy (medicine ("composition" +:+ index_text i +:+ "_name")) = false).
    { intros i. unfold part.
      destruct (medicine ("composition" +:+ index_text i +:+ "_name")) as [[| c n] |];
        simpl; split; try reflexivity; discriminate. }
    destruct (flat_map part (seq 1 5)) as [| p ps] eqn:Hparts.
    + split; [intros _ | reflexivity].
      intros i Hi. apply Hpart. revert i Hi. now apply flat_map_nil_iff.
    + split; [discriminate |]. intros H. exfalso.
      assert (Hnil : flat_map part (seq 1 5) = []).
      { apply flat_map_nil_iff. intros i Hi. apply Hpart. now apply H. }
      congruence.
  - intros row. reflexivity.
Qed.

(** ** The shape of a result *)

Lemma tryExactMatch_shape (pool : Pool) (variations : list string) :
  forall log found,
    fst (tryExactMatch pool variations log) = Some found ->
    exists variant row,
      In variant variations
      /\ found = {| success := true;
                    match_ := Some (formatMedicineResult row);
                    confidence := 1;
                    matchType := Some "exact";
                    searchTerm := Some variant;
                    message := None |}.
Proof.
  induction variations as [| v rest IH]; intros log found; [discriminate |].
  cbn [tryExactMatch]. unfold bind.
  destruct (pool_query pool (ExactQuery v) log) as [[[| row rows] |] log1].
  - intros H. destruct (IH _ _ H) as (variant & r & Hin & ->).
    exists variant, r. split; [now right | reflexivity].
  - cbn [ret fst]. intros [= <-]. exists v, (row_med row). split; [now left | reflexivity].
  - intros H. destruct (IH _ _ H) as (variant & r & Hin & ->).
    exists variant, r. split; [now right | reflexivity].
Qed.

Lemma tryFuzzyLikeSearch_term (pool : Pool) (variations : list string) (n : Z)
      (log : list Query) (c : Candidate) :
  In c (fst (tryFuzzyLikeSearch pool variations n log)) ->
  In (cand_searchTerm c) variations.
Proof.
  intros Hc.
  pose proof (tryFuzzyLikeSearch_candidates pool n
                (fun c => In (cand_searchTerm c) variations) variations) as H.
  unfold tryFuzzyLikeSearch in Hc.
  eapply List.Forall_forall in H; [exact H | | constructor | exact Hc].
  intros v row rows log' Hv _ _. exact Hv.
Qed.

Lemma tryCompositionSearch_term (pool : Pool) (salt : option string) (n : Z)
      (log : list Query) (c : Candidate) :
  In c (fst (tryCompositionSearch pool salt n log)) ->
  salt = Some (cand_searchTerm c).
Proof.
  destruct salt as [[| c0 s0] |]; try (intros []).
  unfold tryCompositionSearch, bind.
  match goal with
  | |- context [pool_query pool ?q log] =>
      destruct (pool_query pool q log) as [[rows |] log1]
  end; [| intros []].
  cbn [ret fst]. intros Hc. apply in_map_iff in Hc as (row & <- & _). reflexivity.
Qed.

Lemma upto_step4_stage (pool : Pool) (medicineName : string) (options : Options)
      (log : list Query) :
  match fst (upto_step4 pool (Name medicineName) options log) with
  | Rejected => True
  | ExactHit found =>
      exists variant row,
        In variant (generateMedicineNameVariations medicineName)
        /\ found = {| success := true;
                      match_ := Some (formatMedicineResult row);
                      confidence := 1;
                      matchType := Some "exact";
                      searchTerm := Some variant;
                      message := None |}
  | Candidates merged =>
      forall c, In c merged ->
                In (cand_searchTerm c) (generateMedicineNameVariations medicineName)
                \/ includeSalt options = Some (cand_searchTerm c)
  end.
Proof.
  unfold upto_step4, upto_step3, bind.
  destruct (String.length (Js.trim medicineName) <? 2); [exact I |].
  set (variations := generateMedicineNameVariations medicineName).
  assert (Hexact : forall found,
             fst ((if default true (preferExactMatch options)
                   then tryExactMatch pool variations else ret None) log) = Some found ->
             exists variant row,
               In variant variations
               /\ found = {| success := true;
                             match_ := Some (formatMedicineResult row);
                             confidence := 1;
                             matchType := Some "exact";
                             searchTerm := Some variant;
                             message := None |}).
  { destruct (default true (preferExactMatch options));
      [apply tryExactMatch_shape | discriminate]. }
  destruct ((if default true (preferExactMatch options)
             then tryExactMatch pool variations else ret None) log) as [[found |] log1].
  { cbn [ret step4 fst]. now apply Hexact. }
  pose proof (tryFuzzyLikeSearch_term pool variations
                (default 5%Z (maxResults options)) log1) as Hf.
  destruct (tryFuzzyLikeSearch pool variations _ log1) as [f log2].
  cbn [fst] in Hf. cbn [ret step4].
  destruct (Js.truthy (includeSalt options) && (length f =? 0)).
  - unfold bind.
    pose proof (tryCompositionSearch_term pool (includeSalt options)
                  (default 5%Z (maxResults options)) log2) as Hc.
    destruct (tryCompositionSearch pool _ _ log2) as [comp log3].
    cbn [fst] in Hc. cbn [ret fst].
    intros c Hin. apply in_app_or in Hin as [Hin | Hin]; [left | right]; auto.
  - cbn [ret fst]. intros c Hin. left. auto.
Qed.

(** X19.  What [fuzzySearchMedicine] returns is one of three things: the
    validation failure, the "No matching medicine found" failure (both
    with [success] false, no match and confidence 0), or a success with a
    match, no message, one of the match types "exact", "fuzzy" and
    "exact-composition", and a search term that is one of the variations
    of the name or, for a candidate of the composition strategy, the salt
    itself. *)
Theorem result_shape :
  forall (pool : Pool) (medicineName : NameArg) (options : Options) (log : list Query),
    let result := fst (fuzzySearchMedicine pool medicineName options log) in
    result = validationFailure
    \/ result = noMatch
    \/ (success result = true
        /\ message result = None
        /\ (exists m, match_ result = Some m)
        /\ (matchType result = Some "exact" \/ matchType result = Some "fuzzy"
            \/ matchType result = Some "exact-composition")
        /\ exists term,
             searchTerm result = Some term
             /\ ((exists s, medicineName = Name s
                            /\ In term (generateMedicineNameVariations s))
                 \/ includeSalt options = Some term)).
Proof.
  intros pool medicineName options log result. subst result.
  destruct medicineName as [| s]; [now left |].
  rewrite fuzzySearchMedicine_steps. cbn [fst].
  pose proof (upto_step4_stage pool s options log) as Hstage.
  destruct (fst (upto_step4 pool (Name s) options log)) as [| found | merged].
  - now left.
  - destruct Hstage as (variant & row & Hin & ->). right. right. cbn.
    repeat split; eauto. exists variant. split; [reflexivity |]. left. eauto.
  - unfold step5.
    pose proof (stable_sort_In (fun a b => Qle_bool (compareCandidates a b) 0) merged)
      as Hsort.
    fold (sortCandidates merged) in Hsort.
    destruct (sortCandidates merged) as [| best rest]; [right; now left |].
    destruct (Qle_bool _ (similarity best)); [| right; now left].
    right. right. cbn. repeat split; eauto.
    + destruct (matchScore best =? 100)%Z; auto.
    + exists (cand_searchTerm best). split; [reflexivity |].
      destruct (Hstage best) as [H | H]; [apply Hsort; now left | left | right]; eauto.
Qed.

(** ** Which row the exact strategy returns *)

Lemma desc_nulls_last_trans (a b c : option Z) :
  Sql.not_after (Sql.desc_nulls_last a b) = true ->
  Sql.not_after (Sql.desc_nulls_last b c) = true ->
  Sql.not_after (Sql.desc_nulls_last a c) = true.
Proof.
  destruct a as [x |], b as [y |], c as [z |]; simpl; try reflexivity; try discriminate.
  destruct (Z.compare_spec y x), (Z.compare_spec z y), (Z.compare_spec z x);
    simpl; try reflexivity; try discriminate; lia.
Qed.

Lemma desc_nulls_last_total (a b : option Z) :
  Sql.not_after (Sql.desc_nulls_last a b) = false ->
  Sql.not_after (Sql.desc_nulls_last b a) = true.
Proof.
  destruct a as [x |], b as [y |]; simpl; try reflexivity; try discriminate.
  destruct (Z.compare_spec y x), (Z.compare_spec x y);
    simpl; try reflexivity; try discriminate; lia.
Qed.

Lemma exact_statement_first (cat : list MedDetails) (v : string)
      (row : Row) (rows : list Row) :
  exact_statement cat v = Some (row :: rows) ->
  live_in cat (row_med row)
  /\ Sql.lower (med_brand_name (row_med row)) = Some (Js.toLowerCase v)
  /\ forall r, live_in cat r ->
               Sql.lower (med_brand_name r) = Some (Js.toLowerCase v) ->
               Sql.not_after (Sql.desc_nulls_last (med_weightage (row_med row))
                                                  (med_weightage r)) = true.
Proof.
  intros H.
  assert (Hlive : live_in cat (row_med row))
    by (eapply (exact_statement_live cat (fun _ _ => 0%Q)); [exact H | now left]).
  revert H. unfold exact_statement, Sql.limit.
  cbn [Z.ltb Z.compare Z.to_nat Pos.to_nat Pos.iter_op].
  set (matching := List.filter _ cat).
  set (before := fun a b : MedDetails =>
                   Sql.not_after (Sql.desc_nulls_last (med_weightage a) (med_weightage b))).
  pose proof (stable_sort_In before matching) as Hin.
  assert (Hsorted : StronglySorted (fun a b => before a b = true)
                                   (stable_sort before matching)).
  { apply stable_sort_sorted.
    - intros a b c. apply desc_nulls_last_trans.
    - auto.
    - intros a b. apply desc_nulls_last_total. }
  destruct (stable_sort before matching) as [| x l]; [discriminate |].
  cbn [map firstn Nat.add]. intros [= <- <-]. cbn [row_med].
  split; [assumption |].
  assert (Hx : In x matching) by (apply Hin; now left).
  apply filter_In in Hx as [_ Hx]. apply and3_holds in Hx as [_ Hx].
  apply (eq_text_holds _ (Js.toLowerCase v)) in Hx.
  split; [assumption |].
  intros r (Hr & Ha & Hd) Hb.
  assert (Hrm : In r matching).
  { apply filter_In. split; [assumption |]. apply and3_holds. split.
    - now apply where_active_holds.
    - now apply (eq_text_holds _ (Js.toLowerCase v)). }
  apply Hin in Hrm. destruct Hrm as [<- | Hrm].
  - destruct (med_weightage x) as [w |]; simpl; [| reflexivity].
    now rewrite Z.compare_refl.
  - apply StronglySorted_inv in Hsorted as [_ Hall].
    rewrite List.Forall_forall in Hall. now apply Hall.
Qed.

Lemma exact_statement_some (cat : list MedDetails) (v : string) :
  exists rows, exact_statement cat v = Some rows.
Proof. unfold exact_statement, Sql.limit. simpl. eauto. Qed.

(** X20.  With a store that answers every statement, the exact strategy
    succeeds exactly when some variation is, up to letter case, the brand
    name of a live row.  It then answers for the first such variation, in
    the order of the variations, with a live row of that brand name whose
    weightage is the highest among them, a row without weightage coming
    after every row with one. *)
Theorem exact_match_choice :
  forall (pool : Pool) (variations : list string) (log : list Query),
    (forall h q, query_throws pool h q = false) ->
    let matches (v : string) (r : MedDetails) :=
      live_in (catalog pool) r
      /\ Sql.lower (med_brand_name r) = Some (Js.toLowerCase v) in
    match fst (tryExactMatch pool variations log) with
    | None => forall v r, In v variations -> ~ matches v r
    | Some found =>
        exists earlier variant later row,
          variations = earlier ++ variant :: later
          /\ (forall v r, In v earlier -> ~ matches v r)
          /\ matches variant row
          /\ (forall r, matches variant r ->
                        Sql.not_after (Sql.desc_nulls_last (med_weightage row)
                                                           (med_weightage r)) = true)
          /\ searchTerm found = Some variant
          /\ match_ found = Some (formatMedicineResult row)
    end.
Proof.
  intros pool variations log Hok matches. revert log.
  induction variations as [| v rest IH]; intros log.
  - simpl. intros v r [].
  - cbn [tryExactMatch]. unfold bind, pool_query. rewrite Hok. cbn [run_statement].
    destruct (exact_statement_some (catalog pool) v) as [rows Hrows]. rewrite Hrows.
    destruct rows as [| row rows].
    + specialize (IH (log ++ [ExactQuery v])).
      assert (Hv : forall r, ~ matches v r).
      { intros r [Hlive Hb]. eapply exact_statement_none; eauto. }
      destruct (fst (tryExactMatch pool rest (log ++ [ExactQuery v]))) as [found |].
      * destruct IH as (earlier & variant & later & row & -> & He & Hm & Hw & Ht & Hr).
        exists (v :: earlier), variant, later, row.
        split; [reflexivity |]. split; [| tauto].
        intros v' r [<- | Hin]; [apply Hv | now apply He].
      * intros v' r [<- | Hin]; [apply Hv | now apply IH].
    + cbn [ret fst searchTerm match_].
      destruct (exact_statement_first _ _ _ _ Hrows) as (Hlive & Hb & Hw).
      exists [], v, rest, (row_med row).
      split; [reflexivity |]. split; [intros v' r [] |].
      split; [split; assumption |].
      split; [intros r [Hl Hbr]; now apply Hw | split; reflexivity].
Qed.

Lemma exact_match_choice_witness :
  let pool := reliable_pool sample_catalog in
  let matches (v : string) (r : MedDetails) :=
    live_in (catalog pool) r
    /\ Sql.lower (med_brand_name r) = Some (Js.toLowerCase v) in
  match fst (tryExactMatch pool ["Dolo"; "dolo 650"] []) with
  | None => forall v r, In v ["Dolo"; "dolo 650"] -> ~ matches v r
  | Some found =>
      exists earlier variant later row,
        ["Dolo"; "dolo 650"] = earlier ++ variant :: later
        /\ (forall v r, In v earlier -> ~ matches v r)
        /\ matches variant row
        /\ (forall r, matches variant r ->
                      Sql.not_after (Sql.desc_nulls_last (med_weightage row)
                                                         (med_weightage r)) = true)
        /\ searchTerm found = Some variant
        /\ match_ found = Some (formatMedicineResult row)
  end.
Proof.
  apply (exact_match_choice (reliable_pool sample_catalog) ["Dolo"; "dolo 650"] []).
  reflexivity.
Defined.

(** ** LIKE without wildcards is the substring test *)

Lemma like_any (p s : string) :
  Sql.like_match (String "%" p) s
  = Sql.like_match p s
    || match s with
       | EmptyString => false
       | String _ s' => Sql.like_match (String "%" p) s'
       end.
Proof. destruct s; reflexivity. Qed.

Lemma like_percent (s : string) : Sql.like_match "%" s = true.
Proof.
  induction s as [| c s IH]; [reflexivity |].
  rewrite like_any, IH. apply orb_true_r.
Qed.

Lemma like_plain_cons (c : ascii) (p s : string) :
  plain_char c = true ->
  Sql.like_match (String c p) s
  = match s with
    | EmptyString => false
    | String d s' => Ascii.eqb c d && Sql.like_match p s'
    end.
Proof.
  destruct c as [b0 b1 b2 b3 b4 b5 b6 b7].
  destruct b0, b1, b2, b3, b4, b5, b6, b7; try discriminate;
    intros _; destruct s; reflexivity.
Qed.

Lemma like_prefix (q s : string) :
  plain q = true -> Sql.like_match (q +:+ "%") s = Js.startsWith s q.
Proof.
  revert s. induction q as [| c q IH]; intros s Hq.
  - change ("" +:+ "%") with "%". rewrite like_percent. now destruct s.
  - apply andb_true_iff in Hq as [Hc Hq].
    rewrite append_cons, like_plain_cons by assumption.
    destruct s as [| d s]; [reflexivity |]. cbn [Js.startsWith]. now rewrite IH.
Qed.

Lemma like_contains (q s : string) :
  plain q = true -> Sql.like_match (("%" +:+ q) +:+ "%") s = Js.includes s q.
Proof.
  intros Hq. change (("%" +:+ q) +:+ "%") with (String "%" (q +:+ "%")).
  induction s as [| d s IH].
  - rewrite like_any, like_prefix by assumption. reflexivity.
  - rewrite like_any, like_prefix by assumption. cbn [Js.includes]. now rewrite IH.
Qed.

Lemma plain_char_lower (c : ascii) : plain_char (Js.lower_char c) = plain_char c.
Proof.
  destruct c as [b0 b1 b2 b3 b4 b5 b6 b7].
  destruct b0, b1, b2, b3, b4, b5, b6, b7; reflexivity.
Qed.

Lemma plain_lower (s : string) : plain (Js.toLowerCase s) = plain s.
Proof.
  induction s as [| c s IH]; [reflexivity |].
  unfold plain in *. cbn [Js.toLowerCase all_chars]. now rewrite plain_char_lower, IH.
Qed.

(** ** Substrings and [trim] *)

Lemma trimStart_length (s : string) : String.length (Js.trimStart s) <= String.length s.
Proof.
  induction s as [| c s IH]; [simpl; lia |].
  cbn [Js.trimStart]. destruct (Js.is_space c); simpl in *; lia.
Qed.

Lemma trimEnd_length (s : string) : String.length (Js.trimEnd s) <= String.length s.
Proof.
  induction s as [| c s IH]; [simpl; lia |].
  cbn [Js.trimEnd]. destruct (Js.trimEnd s); [destruct (Js.is_space c) |]; simpl in *; lia.
Qed.

Lemma trim_fixed (s : string) :
  Js.trim s = s -> Js.trimStart s = s /\ Js.trimEnd s = s.
Proof.
  intros H. assert (Hs : Js.trimStart s = s).
  { destruct s as [| c s]; [reflexivity |]. cbn [Js.trimStart].
    destruct (Js.is_space c) eqn:Hc; [| reflexivity]. exfalso.
    unfold Js.trim in H. cbn [Js.trimStart] in H. rewrite Hc in H.
    pose proof (trimEnd_length (Js.trimStart s)) as H1.
    pose proof (trimStart_length s) as H2.
    rewrite H in H1. simpl in H1. lia. }
  split; [assumption |]. unfold Js.trim in H. now rewrite Hs in H.
Qed.

Lemma includes_nil (sub : string) : sub <> EmptyString -> Js.includes "" sub = false.
Proof. destruct sub; [congruence | reflexivity]. Qed.

Lemma includes_trimStart (s sub : string) :
  sub <> EmptyString -> Js.trimStart sub = sub ->
  Js.includes s sub = true -> Js.includes (Js.trimStart s) sub = true.
Proof.
  intros Hne Hsub. destruct sub as [| c sub]; [congruence |].
  assert (Hc : Js.is_space c = false).
  { cbn [Js.trimStart] in Hsub. destruct (Js.is_space c) eqn:Hc; [| reflexivity].
    exfalso. pose proof (trimStart_length sub) as H. rewrite Hsub in H. simpl in H. lia. }
  induction s as [| d s IH]; [auto |].
  cbn [Js.trimStart]. destruct (Js.is_space d) eqn:Hd; [| auto].
  cbn [Js.includes Js.startsWith].
  destruct (Ascii.eqb_spec c d) as [-> | _]; [congruence |]. cbn [andb orb]. exact IH.
Qed.

Lemma trimEnd_tail (c : ascii) (s : string) :
  s <> EmptyString -> Js.trimEnd (String c s) = String c s -> Js.trimEnd s = s.
Proof.
  intros Hne. cbn [Js.trimEnd]. destruct (Js.trimEnd s) as [| d t].
  - destruct (Js.is_space c); [discriminate |].
    intros [= <-]. congruence.
  - now intros [= <-].
Qed.

Lemma startsWith_trimEnd (sub : string) :
  sub <> EmptyString -> Js.trimEnd sub = sub ->
  forall s, Js.startsWith s sub = true -> Js.startsWith (Js.trimEnd s) sub = true.
Proof.
  induction sub as [| c sub IH]; [congruence |]. intros _ Hsub s.
  destruct s as [| d s]; [discriminate |].
  cbn [Js.startsWith]. intros H. apply andb_true_iff in H as [Hcd Hs].
  destruct sub as [| c2 sub].
  - (* the last character, which is not white space *)
    apply Ascii.eqb_eq in Hcd as <-.
    cbn [Js.trimEnd] in *. destruct (Js.is_space c); [discriminate |].
    destruct (Js.trimEnd s); cbn [Js.startsWith]; now rewrite Ascii.eqb_refl.
  - assert (Htail : Js.trimEnd (String c2 sub) = String c2 sub)
      by (eapply trimEnd_tail; [discriminate | exact Hsub]).
    specialize (IH ltac:(discriminate) Htail s Hs).
    cbn [Js.trimEnd]. destruct (Js.trimEnd s) as [| e t]; [discriminate IH |].
    cbn [Js.startsWith] in *. now rewrite Hcd.
Qed.

Lemma includes_trimEnd (s sub : string) :
  sub <> EmptyString -> Js.trimEnd sub = sub ->
  Js.includes s sub = true -> Js.includes (Js.trimEnd s) sub = true.
Proof.
  intros Hne Hsub. induction s as [| d s IH]; [auto |].
  cbn [Js.includes]. intros H. apply orb_true_iff in H as [H | H].
  - apply (startsWith_trimEnd sub Hne Hsub) in H.
    destruct (Js.trimEnd (String d s)); cbn [Js.includes]; now rewrite H.
  - specialize (IH H). cbn [Js.trimEnd].
    destruct (Js.trimEnd s) as [| e t].
    + now rewrite includes_nil in IH.
    + cbn [Js.includes] in *. rewrite IH. apply orb_true_r.
Qed.

Lemma includes_trim (s sub : string) :
  sub <> EmptyString -> Js.trim sub = sub ->
  Js.includes s sub = true -> Js.includes (Js.trim s) sub = true.
Proof.
  intros Hne Hsub H. apply trim_fixed in Hsub as [Hs He].
  unfold Js.trim. now apply includes_trimEnd, includes_trimStart.
Qed.

Lemma includes_length (s sub : string) :
  Js.includes s sub = true ->
  String.length sub <= String.length s
  /\ (String.length sub = String.length s -> s = sub).
Proof.
  intros H. apply includes_substring in H as (pre & post & ->).
  rewrite !append_length. split; [lia |].
  intros Hl. assert (String.length pre = 0 /\ String.length post = 0) as [Hp Hq] by lia.
  destruct pre, post; try discriminate. now rewrite append_nil_r.
Qed.

Lemma calculateSimilarity_contained (v b : string) :
  v <> EmptyString -> Js.trim v = v ->
  Js.includes (Js.toLowerCase b) (Js.toLowerCase v) = true ->
  let s2 := Js.trim (Js.toLowerCase b) in
  (s2 = Js.toLowerCase v /\ calculateSimilarity (Some v) (Some b) = 1%Q)
  \/ (s2 <> Js.toLowerCase v
      /\ String.length v < String.length s2
      /\ calculateSimilarity (Some v) (Some b)
         = (0.8 * (Js.num (String.length v) / Js.num (String.length s2)))%Q).
Proof.
  intros Hv Htrim Hinc s2.
  assert (Hlv : Js.toLowerCase v <> EmptyString) by (destruct v; [congruence | discriminate]).
  assert (Hb : b <> EmptyString).
  { intros ->. rewrite includes_nil in Hinc by assumption. discriminate. }
  assert (Hs1 : Js.trim (Js.toLowerCase v) = Js.toLowerCase v)
    by now rewrite <- toLowerCase_trim, Htrim.
  assert (Hin2 : Js.includes s2 (Js.toLowerCase v) = true)
    by now apply includes_trim.
  destruct (includes_length _ _ Hin2) as [Hle Heq].
  rewrite toLowerCase_length in Hle, Heq.
  destruct v as [| c1 r1]; [congruence |]. destruct b as [| c2 r2]; [congruence |].
  unfold calculateSimilarity. fold s2. rewrite Hs1.
  destruct (String.eqb_spec (Js.toLowerCase (String c1 r1)) s2) as [E | E].
  - left. split; [now symmetry | reflexivity].
  - right. split; [congruence |].
    assert (Hlt : String.length (String c1 r1) < String.length s2).
    { destruct (Nat.eq_dec (String.length (String c1 r1)) (String.length s2)) as [El |];
        [| lia].
      exfalso. apply E. symmetry. now apply Heq. }
    split; [exact Hlt |].
    rewrite Hin2, orb_true_r.
    pose proof (toLowerCase_length (String c1 r1)) as Hl.
    destruct (Nat.ltb_spec (String.length s2)
                (String.length (Js.toLowerCase (String c1 r1)))); [lia |].
    now rewrite Hl.
Qed.

Lemma fuzzy_row_includes (v : string) (brand : option string) :
  plain v = true ->
  Sql.holds (Sql.like (Sql.lower brand)
                      (Sql.concat (Sql.concat (Some "%") (Sql.lower (Some v)))
                                  (Some "%"))) = true ->
  exists b, brand = Some b
            /\ Js.includes (Js.toLowerCase b) (Js.toLowerCase v) = true.
Proof.
  intros Hp. destruct brand as [b |]; [| discriminate].
  cbn [Sql.lower option_map Sql.concat Sql.like Sql.holds].
  rewrite like_contains by now rewrite plain_lower.
  intros H. exists b. split; [reflexivity |].
  destruct (Js.includes _ _); [reflexivity | discriminate].
Qed.

(** X21.  For a variation without the characters [%], [_] and
    backslash, LIKE is the substring test, so the brand name of every
    candidate of the fuzzy strategy holds the variation up to letter
    case.  The similarity of such a candidate is therefore 1 when the
    trimmed brand name is the variation up to letter case, and otherwise
    0.8 times the length of the variation over the length of the trimmed
    brand name, the brand name being the longer of the two. *)
Theorem fuzzy_candidate_similarity :
  forall (pool : Pool) (variations : list string) (maxResults : Z)
         (log : list Query) (c : Candidate),
    In c (fst (tryFuzzyLikeSearch pool variations maxResults log)) ->
    let term := cand_searchTerm c in
    plain term = true -> term <> EmptyString -> Js.trim term = term ->
    exists brand,
      drug_name (medicine c) = Some brand
      /\ Js.includes (Js.toLowerCase brand) (Js.toLowerCase term) = true
      /\ let s2 := Js.trim (Js.toLowerCase brand) in
         (s2 = Js.toLowerCase term /\ similarity c = 1%Q)
         \/ (s2 <> Js.toLowerCase term
             /\ String.length term < String.length s2
             /\ similarity c
                = (0.8 * (Js.num (String.length term) / Js.num (String.length s2)))%Q).
Proof.
  intros pool variations n log c Hc.
  pose proof (tryFuzzyLikeSearch_candidates pool n
    (fun c =>
       let term := cand_searchTerm c in
       plain term = true -> term <> EmptyString -> Js.trim term = term ->
       exists brand,
         drug_name (medicine c) = Some brand
         /\ Js.includes (Js.toLowerCase brand) (Js.toLowerCase term) = true
         /\ let s2 := Js.trim (Js.toLowerCase brand) in
            (s2 = Js.toLowerCase term /\ similarity c = 1%Q)
            \/ (s2 <> Js.toLowerCase term
                /\ String.length term < String.length s2
                /\ similarity c
                   = (0.8 * (Js.num (String.length term) / Js.num (String.length s2)))%Q))
    variations) as H.
  unfold tryFuzzyLikeSearch in Hc.
  eapply List.Forall_forall in H; [exact H | | constructor | exact Hc].
  clear. intros v row rows log _ Hq Hrow.
  cbn [cand_searchTerm similarity medicine formatMedicineResult drug_name].
  intros Hp Hne Htrim.
  apply pool_query_fuzzy in Hq.
  destruct (fuzzy_statement_rows _ _ _ _ _ Hq Hrow) as [_ Hw].
  destruct (fuzzy_row_includes v _ Hp Hw) as (b & Hb & Hinc).
  exists b. rewrite Hb. split; [reflexivity |]. split; [assumption |].
  now apply calculateSimilarity_contained.
Qed.

Lemma fuzzy_candidate_similarity_witness :
  exists c : Candidate,
    fst (tryFuzzyLikeSearch (reliable_pool sample_catalog) ["dolo"] 5 []) = [c]
    /\ (plain (cand_searchTerm c) = true /\ cand_searchTerm c <> EmptyString
        /\ Js.trim (cand_searchTerm c) = cand_searchTerm c)
    /\ exists brand,
         drug_name (medicine c) = Some brand
         /\ Js.includes (Js.toLowerCase brand) (Js.toLowerCase (cand_searchTerm c)) = true
         /\ let s2 := Js.trim (Js.toLowerCase brand) in
            (s2 = Js.toLowerCase (cand_searchTerm c) /\ similarity c = 1%Q)
            \/ (s2 <> Js.toLowerCase (cand_searchTerm c)
                /\ String.length (cand_searchTerm c) < String.length s2
                /\ similarity c
                   = (0.8 * (Js.num (String.length (cand_searchTerm c))
                             / Js.num (String.length s2)))%Q).
Proof.
  eexists. split; [vm_compute; reflexivity |].
  split; [repeat split; discriminate |].
  apply (fuzzy_candidate_similarity (reliable_pool sample_catalog) ["dolo"] 5 []);
    [vm_compute; left; reflexivity | reflexivity | discriminate | reflexivity].
Defined.

(** ** Variations carry no white space around them *)

Lemma trimEnd_cons (c : ascii) (s : string) :
  Js.trimEnd (String c s)
  = match Js.trimEnd s with
    | EmptyString => if Js.is_space c then EmptyString else String c EmptyString
    | t => String c t
    end.
Proof. reflexivity. Qed.

Lemma trimEnd_idem (s : string) : Js.trimEnd (Js.trimEnd s) = Js.trimEnd s.
Proof.
  induction s as [| c s IH]; [reflexivity |].
  rewrite trimEnd_cons. destruct (Js.trimEnd s) as [| d t] eqn:E.
  - destruct (Js.is_space c) eqn:Hc; [reflexivity |].
    rewrite trimEnd_cons. cbn [Js.trimEnd]. now rewrite Hc.
  - rewrite trimEnd_cons, IH. reflexivity.
Qed.

Lemma trimStart_trimEnd (s : string) :
  Js.trimStart s = s -> Js.trimStart (Js.trimEnd s) = Js.trimEnd s.
Proof.
  destruct s as [| c s]; [reflexivity |].
  cbn [Js.trimStart]. destruct (Js.is_space c) eqn:Hc.
  - intros H. exfalso. pose proof (trimStart_length s) as Hl. rewrite H in Hl.
    simpl in Hl. lia.
  - intros _. cbn [Js.trimEnd].
    destruct (Js.trimEnd s); [rewrite Hc |]; cbn [Js.trimStart]; now rewrite Hc.
Qed.

Lemma trimStart_idem (s : string) : Js.trimStart (Js.trimStart s) = Js.trimStart s.
Proof.
  induction s as [| c s IH]; [reflexivity |].
  cbn [Js.trimStart]. destruct (Js.is_space c) eqn:Hc; [assumption |].
  cbn [Js.trimStart]. now rewrite Hc.
Qed.

Lemma trim_idem (s : string) : Js.trim (Js.trim s) = Js.trim s.
Proof.
  unfold Js.trim. rewrite trimStart_trimEnd by apply trimStart_idem.
  apply trimEnd_idem.
Qed.

Section ReplaceChar.
Variables a b : ascii.
Hypothesis Ha : Js.is_space a = false.
Hypothesis Hb : Js.is_space b = false.

Lemma replace_char_space (c : ascii) :
  Js.is_space (if Ascii.eqb c a then b else c) = Js.is_space c.
Proof. destruct (Ascii.eqb_spec c a) as [-> |]; congruence. Qed.

Lemma replace_char_trimStart (s : string) :
  Js.trimStart (Js.replace_char a b s) = Js.replace_char a b (Js.trimStart s).
Proof.
  induction s as [| c s IH]; [reflexivity |].
  cbn [Js.replace_char Js.trimStart]. rewrite replace_char_space.
  destruct (Js.is_space c); [assumption | reflexivity].
Qed.

Lemma replace_char_trimEnd (s : string) :
  Js.trimEnd (Js.replace_char a b s) = Js.replace_char a b (Js.trimEnd s).
Proof.
  induction s as [| c s IH]; [reflexivity |].
  cbn [Js.replace_char Js.trimEnd]. rewrite IH.
  destruct (Js.trimEnd s); cbn [Js.replace_char]; [| reflexivity].
  rewrite replace_char_space. destruct (Js.is_space c); reflexivity.
Qed.

Lemma replace_char_trim (s : string) :
  Js.trim s = s -> Js.trim (Js.replace_char a b s) = Js.replace_char a b s.
Proof.
  intros H. unfold Js.trim in *.
  now rewrite replace_char_trimStart, replace_char_trimEnd, H.
Qed.
End ReplaceChar.

Lemma set_add_Forall (P : string -> Prop) (x : string) (vs : list string) :
  P x -> Forall P vs -> Forall P (set_add x vs).
Proof.
  intros Hx Hvs. unfold set_add. destruct (set_has x vs); [assumption |].
  apply Forall_app. split; [assumption | now constructor].
Qed.

Lemma ocr_variations_trimmed (vs : list string) (base : string) :
  Js.trim base = base ->
  Forall (fun v => Js.trim v = v) vs ->
  Forall (fun v => Js.trim v = v) (ocr_variations vs base).
Proof.
  intros Hbase Hvs. unfold ocr_variations. cbv zeta.
  assert (Hl : Js.trim (Js.toLowerCase base) = Js.toLowerCase base)
    by now rewrite <- toLowerCase_trim, Hbase.
  repeat match goal with
         | |- context [if ?c then _ else _] => destruct c
         | |- Forall _ (set_add _ _) =>
             apply set_add_Forall; [now apply replace_char_trim |]
         end; assumption.
Qed.

Lemma ocr_loop_trimmed (bases vs : list string) :
  Forall (fun v => Js.trim v = v) bases ->
  Forall (fun v => Js.trim v = v) vs ->
  Forall (fun v => Js.trim v = v) (foldl ocr_variations vs bases).
Proof.
  revert vs. induction bases as [| b bases IH]; intros vs Hb Hvs; [assumption |].
  cbn [foldl]. apply Forall_cons in Hb as [Hb Hbs].
  apply IH; [assumption |]. now apply ocr_variations_trimmed.
Qed.

Lemma ex_name_trimmed (s : string) :
  Js.trim (ex_name (extractStrengthFromName s)) = ex_name (extractStrengthFromName s).
Proof.
  unfold extractStrengthFromName. destruct s as [| c0 s0]; [reflexivity |].
  destruct (Regex.match_all strengthPattern (String c0 s0)); cbn [ex_name];
    apply trim_idem.
Qed.

Lemma removeSuffixes_trimmed (s : string) :
  Js.trim (removeSuffixes s) = removeSuffixes s.
Proof.
  unfold removeSuffixes. destruct s; [reflexivity | apply trim_idem].
Qed.

(** X22.  No variation of a name has white space at its start or at its
    end. *)
Theorem variations_trimmed :
  forall medicineName v : string,
    In v (generateMedicineNameVariations medicineName) -> Js.trim v = v.
Proof.
  intros medicineName v Hv.
  assert (H : Forall (fun v => Js.trim v = v)
                     (generateMedicineNameVariations medicineName)).
  { unfold generateMedicineNameVariations.
    destruct medicineName as [| c0 s0]; [constructor |]. cbv zeta.
    set (cleaned := Js.trim (String c0 s0)).
    assert (Hc : Js.trim cleaned = cleaned) by apply trim_idem.
    assert (Hlower : forall s, Js.trim s = s -> Js.trim (Js.toLowerCase s) = Js.toLowerCase s).
    { intros s Hs. now rewrite <- toLowerCase_trim, Hs. }
    match goal with
    | |- Forall _ (List.filter _ (foldl ocr_variations ?vs _)) =>
        assert (Hvs : Forall (fun v => Js.trim v = v) vs)
    end.
    { repeat match goal with
             | |- context [if ?c then _ else _] => destruct c
             | |- Forall _ (set_add _ _) => apply set_add_Forall
             end;
        first [ constructor
              | assumption
              | apply ex_name_trimmed
              | apply removeSuffixes_trimmed
              | apply Hlower; first [assumption | apply ex_name_trimmed] ]. }
    rewrite List.Forall_forall. intros x Hx. apply filter_In in Hx as [Hx _].
    revert x Hx. rewrite <- List.Forall_forall.
    apply ocr_loop_trimmed; [| assumption].
    rewrite List.Forall_forall in *. intros x Hx. apply Hvs. eapply In_firstn; eauto. }
  rewrite List.Forall_forall in H. now apply H.
Qed.

Lemma variations_trimmed_witness :
  In "dolo" (generateMedicineNameVariations "  Dolo 650 mg ")
  /\ Js.trim "dolo" = "dolo".
Proof.
  assert (H : In "dolo" (generateMedicineNameVariations "  Dolo 650 mg "))
    by (vm_compute; tauto).
  split; [exact H |].
  exact (variations_trimmed "  Dolo 650 mg " "dolo" H).
Defined.

(** ** The limit on the rows of a statement *)

Lemma limit_length {A : Type} (n : Z) (l out : list A) :
  Sql.limit n l = Some out -> (0 <= n)%Z /\ length out <= Z.to_nat n.
Proof.
  unfold Sql.limit. destruct (Z.ltb_spec n 0); [discriminate |].
  intros [= <-]. split; [assumption |]. rewrite length_firstn. lia.
Qed.

Lemma run_statement_limit (cat : list MedDetails) (sim : string -> string -> Q) (th : Q)
      (q : Query) (rows : list Row) :
  run_statement cat sim th q = Some rows ->
  match q with
  | ExactQuery _ => length rows <= 1
  | FuzzyQuery _ n | CompositionStrengthQuery _ _ _ n | CompositionQuery _ n =>
      (0 <= n)%Z /\ length rows <= Z.to_nat n
  end.
Proof.
  destruct q; cbn [run_statement];
    [unfold exact_statement | unfold fuzzy_statement
     | unfold composition_strength_statement | unfold composition_statement];
    cbv zeta; intros H; apply limit_length in H; [| assumption ..].
  destruct H as [_ H]. exact H.
Qed.

Lemma pool_query_limit (pool : Pool) (q : Query) (log : list Query) (rows : list Row) :
  fst (pool_query pool q log) = Some rows ->
  match q with
  | ExactQuery _ => length rows <= 1
  | FuzzyQuery _ n | CompositionStrengthQuery _ _ _ n | CompositionQuery _ n =>
      (0 <= n)%Z /\ length rows <= Z.to_nat n
  end.
Proof.
  unfold pool_query. cbn [fst]. destruct (query_throws pool log q); [discriminate |].
  apply run_statement_limit.
Qed.

Lemma tryFuzzyLikeSearch_length (pool : Pool) (variations : list string) (n : Z) :
  forall acc log,
    length (fst (tryFuzzyLikeSearch_from pool acc variations n log))
    <= length acc + Z.to_nat n * length variations
    /\ ((n < 0)%Z ->
        fst (tryFuzzyLikeSearch_from pool acc variations n log) = acc).
Proof.
  induction variations as [| v rest IH]; intros acc log.
  - cbn. split; [lia | reflexivity].
  - cbn [tryFuzzyLikeSearch_from]. unfold bind.
    destruct (pool_query pool (FuzzyQuery v n) log) as [res log1] eqn:Hq.
    assert (Hres : fst (pool_query pool (FuzzyQuery v n) log) = res) by now rewrite Hq.
    destruct res as [rows |].
    + apply pool_query_limit in Hres as [Hn Hrows].
      destruct (IH (acc ++ map (fun row =>
                  {| medicine := formatMedicineResult (row_med row);
                     similarity :=
                       calculateSimilarity (Some v) (med_brand_name (row_med row));
                     matchScore := default 0%Z (match_score row);
                     cand_searchTerm := v |}) rows) log1) as [IHl _].
      rewrite length_app, length_map in IHl. cbn [length]. split; [lia | lia].
    + destruct (IH acc log1) as [IHl IHn]. cbn [length]. split; [lia | exact IHn].
Qed.

(** X23.  [maxResults] bounds what the strategies collect: the fuzzy
    strategy returns at most [maxResults] candidates for each variation
    and the composition strategy at most [maxResults] in all.  With a
    negative [maxResults] every such statement is refused by the store,
    the error is swallowed and both strategies return nothing. *)
Theorem maxResults_bounds :
  forall (pool : Pool) (variations : list string) (salt : option string)
         (maxResults : Z) (log : list Query),
    length (fst (tryFuzzyLikeSearch pool variations maxResults log))
    <= Z.to_nat maxResults * length variations
    /\ length (fst (tryCompositionSearch pool salt maxResults log))
       <= Z.to_nat maxResults
    /\ ((maxResults < 0)%Z ->
        fst (tryFuzzyLikeSearch pool variations maxResults log) = []
        /\ fst (tryCompositionSearch pool salt maxResults log) = []).
Proof.
  intros pool variations salt n log.
  destruct (tryFuzzyLikeSearch_length pool variations n [] log) as [Hl Hn].
  assert (Hcomp : length (fst (tryCompositionSearch pool salt n log)) <= Z.to_nat n
                  /\ ((n < 0)%Z -> fst (tryCompositionSearch pool salt n log) = [])).
  { destruct salt as [[| c0 s0] |]; try (cbn; split; [lia | reflexivity]).
    unfold tryCompositionSearch, bind.
    match goal with
    | |- context [pool_query pool ?q log] =>
        pose proof (pool_query_limit pool q log) as Hlim;
        destruct (pool_query pool q log) as [[rows |] log1];
        [specialize (Hlim rows eq_refl) | cbn; split; [lia | reflexivity]];
        assert (Hrows : (0 <= n)%Z /\ length rows <= Z.to_nat n)
    end.
    { destruct (ex_strength (extractStrengthFromName (String c0 s0))) as [st |];
        [destruct (ex_unit (extractStrengthFromName (String c0 s0))) as [u |];
         [destruct (Js.truthy (Some st) && Js.truthy (Some u)) |] |];
        exact Hlim. }
    cbn [ret fst]. rewrite length_map. split; [tauto | lia]. }
  unfold tryFuzzyLikeSearch. cbn [length] in Hl.
  repeat split; [lia | tauto | now apply Hn | now apply Hcomp].
Qed.

(** ** Names without digits *)

Lemma strengthPattern_needs_digit (s : string) :
  match s with
  | EmptyString => True
  | String c _ => Js.is_digit c = false
  end ->
  Regex.match_here strengthPattern s = None.
Proof.
  destruct s as [| c s]; [reflexivity |].
  intros Hc. unfold Regex.match_here, strengthPattern, numberPattern, Regex.Plus.
  cbn [Regex.rmatch]. now rewrite Hc.
Qed.

Lemma search_no_digit (s : string) :
  all_chars (fun c => negb (Js.is_digit c)) s = true ->
  Regex.search strengthPattern s = None.
Proof.
  induction s as [| c s IH]; intros H.
  - reflexivity.
  - cbn [all_chars] in H. apply andb_true_iff in H as [Hc Hs].
    apply negb_true_iff in Hc.
    cbn [Regex.search]. rewrite strengthPattern_needs_digit by exact Hc.
    now rewrite IH.
Qed.

Lemma extract_no_digit (s : string) :
  all_chars (fun c => negb (Js.is_digit c)) s = true ->
  extractStrengthFromName s = mkExtracted (Js.trim s) None None None.
Proof.
  intros H. apply search_no_digit in H.
  pose proof (match_all_search strengthPattern s) as Hall. rewrite H in Hall.
  unfold extractStrengthFromName. rewrite Hall. now destruct s.
Qed.

(** X24.  A text without a digit holds no dose: [extractStrengthFromName]
    returns it trimmed, with no strength, unit or dose.  For such a
    salt the composition strategy sends the statement without strength
    matching, on the trimmed salt (on the salt itself when it is all
    white space). *)
Theorem no_digit_no_dose :
  forall s : string,
    all_chars (fun c => negb (Js.is_digit c)) s = true ->
    extractStrengthFromName s = mkExtracted (Js.trim s) None None None
    /\ forall (pool : Pool) (maxResults : Z) (log : list Query),
         s <> EmptyString ->
         snd (tryCompositionSearch pool (Some s) maxResults log)
         = log ++ [CompositionQuery (or_text (Js.trim s) s) maxResults].
Proof.
  intros s H. split; [now apply extract_no_digit |].
  intros pool n log Hne. destruct s as [| c0 s0]; [congruence |].
  unfold tryCompositionSearch, bind. rewrite (extract_no_digit _ H).
  cbn [ex_strength ex_unit ex_name].
  destruct (pool_query pool _ log) as [[rows |] log1] eqn:Hq;
    unfold pool_query in Hq; injection Hq as _ <-; reflexivity.
Qed.

Lemma no_digit_no_dose_witness :
  extractStrengthFromName " Paracetamol "
  = mkExtracted (Js.trim " Paracetamol ") None None None
  /\ forall (pool : Pool) (maxResults : Z) (log : list Query),
       " Paracetamol " <> EmptyString ->
       snd (tryCompositionSearch pool (Some " Paracetamol ") maxResults log)
       = log ++ [CompositionQuery (or_text (Js.trim " Paracetamol ") " Paracetamol ")
                                  maxResults].
Proof.
  apply (no_digit_no_dose " Paracetamol "). reflexivity.
Defined.

(** ** The confidence of a result *)

Lemma comp_similarity_of_range (sim : string -> string -> Q) (p1 : string)
      (r : MedDetails) :
  (forall a b, (0 <= sim a b)%Q /\ (sim a b <= 1)%Q) ->
  (0 <= comp_similarity_of sim p1 r)%Q /\ (comp_similarity_of sim p1 r <= 1)%Q.
Proof.
  intros Hsim. unfold comp_similarity_of. cbv zeta. split.
  - eapply Qle_trans; [| apply Q.le_max_l]. apply Hsim.
  - repeat apply Q.max_lub; apply Hsim.
Qed.

Lemma composition_rows_similarity (cat : list MedDetails) (sim : string -> string -> Q)
      (th : Q) (q : Query) (rows : list Row) (row : Row) :
  is_composition_query q = true ->
  run_statement cat sim th q = Some rows -> In row rows ->
  exists p1, comp_similarity row = Some (comp_similarity_of sim p1 (row_med row)).
Proof.
  destruct q as [v | v n | p1 p2 p3 n | p1 n]; try discriminate; intros _;
    cbn [run_statement];
    [unfold composition_strength_statement | unfold composition_statement];
    intros Hrows Hin;
    apply (limit_In _ _ _ _ Hrows), stable_sort_In in Hin;
    apply in_map_iff in Hin as (r & <- & _); exists p1; reflexivity.
Qed.

Lemma tryCompositionSearch_similarity (pool : Pool) (salt : option string) (n : Z)
      (log : list Query) (c : Candidate) :
  (forall a b, (0 <= pg_similarity pool a b)%Q /\ (pg_similarity pool a b <= 1)%Q) ->
  In c (fst (tryCompositionSearch pool salt n log)) ->
  (0 <= similarity c)%Q /\ (similarity c <= 1)%Q.
Proof.
  intros Hsim. destruct salt as [[| c0 s0] |]; try (intros []).
  unfold tryCompositionSearch, bind.
  match goal with
  | |- context [pool_query pool ?x log] =>
      assert (Hq : is_composition_query x = true);
      [| generalize dependent x; intros q Hq ]
  end.
  { destruct (ex_strength (extractStrengthFromName (String c0 s0))) as [st |];
      [destruct (ex_unit (extractStrengthFromName (String c0 s0))) as [u |];
       [destruct (Js.truthy (Some st) && Js.truthy (Some u)) |] |];
      reflexivity. }
  unfold pool_query. cbn [fst snd].
  destruct (query_throws pool log q); [intros [] |].
  destruct (run_statement _ _ _ q) as [rows |] eqn:Hrows; [| intros []].
  cbn [ret fst]. intros Hc. apply in_map_iff in Hc as (row & <- & Hrow).
  destruct (composition_rows_similarity _ _ _ _ _ _ Hq Hrows Hrow) as [p1 ->].
  cbn [similarity].
  destruct (comp_similarity_of_range (pg_similarity pool) p1 (row_med row) Hsim).
  destruct (Qeq_bool _ 0); [split; discriminate | split; assumption].
Qed.

Lemma tryFuzzyLikeSearch_similarity (pool : Pool) (variations : list string) (n : Z)
      (log : list Query) (c : Candidate) :
  In c (fst (tryFuzzyLikeSearch pool variations n log)) ->
  (0 <= similarity c)%Q /\ (similarity c <= 1)%Q.
Proof.
  intros Hc.
  pose proof (tryFuzzyLikeSearch_candidates pool n
                (fun c => (0 <= similarity c)%Q /\ (similarity c <= 1)%Q) variations) as H.
  unfold tryFuzzyLikeSearch in Hc.
  eapply List.Forall_forall in H; [exact H | | constructor | exact Hc].
  intros v row rows log' _ _ _. cbn [similarity]. apply calculateSimilarity_bounds.
Qed.

(** X25.  When the trigram similarity of the store lies between 0 and 1,
    so does the confidence of every result of [fuzzySearchMedicine]: 0
    for a failure, 1 for an exact hit, and otherwise the similarity of
    the best candidate, which is a score of [calculateSimilarity], a
    trigram similarity or the fallback 0.7. *)
Theorem confidence_range :
  forall (pool : Pool) (medicineName : NameArg) (options : Options) (log : list Query),
    (forall a b, (0 <= pg_similarity pool a b)%Q /\ (pg_similarity pool a b <= 1)%Q) ->
    let result := fst (fuzzySearchMedicine pool medicineName options log) in
    (0 <= confidence result)%Q /\ (confidence result <= 1)%Q.
Proof.
  intros pool medicineName options log Hsim result. subst result.
  destruct medicineName as [| s]; [split; discriminate |].
  rewrite fuzzySearchMedicine_steps. cbn [fst].
  pose proof (upto_step4_stage pool s options log) as Hstage.
  assert (Hcand : forall merged c,
             fst (upto_step4 pool (Name s) options log) = Candidates merged ->
             In c merged -> (0 <= similarity c)%Q /\ (similarity c <= 1)%Q).
  { clear Hstage. unfold upto_step4, upto_step3, bind.
    destruct (String.length (Js.trim s) <? 2); [discriminate |].
    destruct ((if default true (preferExactMatch options)
               then tryExactMatch pool (generateMedicineNameVariations s)
               else ret None) log) as [[found |] log1]; [discriminate |].
    pose proof (tryFuzzyLikeSearch_similarity pool (generateMedicineNameVariations s)
                  (default 5%Z (maxResults options)) log1) as Hf.
    destruct (tryFuzzyLikeSearch pool _ _ log1) as [f log2].
    cbn [fst] in Hf. cbn [ret step4].
    destruct (Js.truthy (includeSalt options) && (length f =? 0)).
    - unfold bind.
      pose proof (tryCompositionSearch_similarity pool (includeSalt options)
                    (default 5%Z (maxResults options)) log2) as Hc.
      destruct (tryCompositionSearch pool _ _ log2) as [comp log3].
      cbn [fst] in Hc. cbn [ret fst].
      intros merged c [= <-] Hin. apply in_app_or in Hin as [Hin | Hin]; auto.
    - cbn [ret fst]. intros merged c [= <-] Hin. auto. }
  destruct (fst (upto_step4 pool (Name s) options log)) as [| found | merged].
  - split; discriminate.
  - destruct Hstage as (variant & row & _ & ->). split; discriminate.
  - unfold step5.
    pose proof (stable_sort_In (fun a b => Qle_bool (compareCandidates a b) 0) merged)
      as Hsort.
    fold (sortCandidates merged) in Hsort.
    destruct (sortCandidates merged) as [| best rest]; [split; discriminate |].
    destruct (Qle_bool _ (similarity best)); [| split; discriminate].
    cbn [confidence]. apply (Hcand merged best eq_refl). apply Hsort. now left.
Qed.

Lemma confidence_range_witness :
  let pool := {| catalog := sample_catalog;
                 pg_similarity := fun _ _ => 0.5%Q;
                 pg_similarity_threshold := 0.3%Q;
                 query_throws := fun _ _ => false |} in
  let result := fst (fuzzySearchMedicine pool (Name "Zz")
                       (salt_options "Paracetamol 500mg") []) in
  (0 <= confidence result)%Q /\ (confidence result <= 1)%Q.
Proof.
  apply (confidence_range
           {| catalog := sample_catalog;
              pg_similarity := fun _ _ => 0.5%Q;
              pg_similarity_threshold := 0.3%Q;
              query_throws := fun _ _ => false |}
           (Name "Zz") (salt_options "Paracetamol 500mg") []).
  intros a b. cbn [pg_similarity]. split; discriminate.
Defined.

(** ** Normalisation only removes characters *)

Lemma replace_all_from_sublist (r : Regex.regex) (s : string) :
  forall skip, chars (Regex.replace_all_from r "" skip s) `sublist_of` chars s.
Proof.
  induction s as [| c s IH]; intros [| n]; cbn [Regex.replace_all_from].
  - destruct (Regex.match_here r ""); reflexivity.
  - reflexivity.
  - destruct (Regex.match_here r (String c s)) as [rest |].
    + change (EmptyString +:+ ?x) with x.
      destruct (String.length (Regex.consumed (String c s) rest)).
      * apply sublist_skip, IH.
      * apply sublist_cons, IH.
    + apply sublist_skip, IH.
  - apply sublist_cons, IH.
Qed.

Lemma trimStart_sublist (s : string) : chars (Js.trimStart s) `sublist_of` chars s.
Proof.
  induction s as [| c s IH]; [reflexivity |].
  cbn [Js.trimStart]. destruct (Js.is_space c); [apply sublist_cons, IH | reflexivity].
Qed.

Lemma trimEnd_sublist (s : string) : chars (Js.trimEnd s) `sublist_of` chars s.
Proof.
  induction s as [| c s IH]; [reflexivity |].
  rewrite trimEnd_cons. destruct (Js.trimEnd s) as [| d t].
  - destruct (Js.is_space c); [apply sublist_nil_l |].
    apply sublist_skip, sublist_nil_l.
  - apply sublist_skip, IH.
Qed.

Lemma trim_sublist (s : string) : chars (Js.trim s) `sublist_of` chars s.
Proof.
  unfold Js.trim. etrans; [apply trimEnd_sublist | apply trimStart_sublist].
Qed.

Lemma suffix_loop_sublist (suffixes : list string) :
  forall cleaned,
    chars (foldl (fun cleaned suffix =>
                    Regex.replace_all (suffixPattern suffix) "" cleaned)
                 cleaned suffixes)
    `sublist_of` chars cleaned.
Proof.
  induction suffixes as [| x l IH]; intros cleaned; [reflexivity |].
  cbn [foldl]. etrans; [apply IH |]. apply replace_all_from_sublist.
Qed.

Lemma removeSuffixes_sublist (s : string) :
  chars (removeSuffixes s) `sublist_of` chars (Js.toLowerCase s).
Proof.
  unfold removeSuffixes. destruct s as [| c0 s0]; [reflexivity |].
  etrans; [apply trim_sublist |].
  etrans; [apply suffix_loop_sublist |]. apply trim_sublist.
Qed.

Lemma sublist_all {A : Type} (P : A -> Prop) (l1 l2 : list A) :
  l1 `sublist_of` l2 -> Forall P l2 -> Forall P l1.
Proof.
  induction 1 as [| x l1 l2 _ IH | x l1 l2 _ IH]; intros H; [constructor | |].
  - apply Forall_cons in H as [Hx H]. constructor; auto.
  - apply Forall_cons in H as [_ H]. auto.
Qed.

Lemma lower_fixed (s : string) :
  Forall (fun c => Js.lower_char c = c) (chars s) -> Js.toLowerCase s = s.
Proof.
  induction s as [| c s IH]; [reflexivity |].
  intros H. apply Forall_cons in H as [Hc H]. cbn [Js.toLowerCase]. now rewrite Hc, IH.
Qed.

(** X26.  Normalising a name only takes characters away.  The name
    [extractStrengthFromName] returns is the input with some characters
    removed, the others in their order; what [removeSuffixes] returns is
    the lower-case input with some characters removed, so it is in lower
    case and no longer than the input. *)
Theorem normalisation_only_removes :
  forall s : string,
    chars (ex_name (extractStrengthFromName s)) `sublist_of` chars s
    /\ chars (removeSuffixes s) `sublist_of` chars (Js.toLowerCase s)
    /\ Js.toLowerCase (removeSuffixes s) = removeSuffixes s
    /\ String.length (removeSuffixes s) <= String.length s.
Proof.
  intros s. split; [| split; [apply removeSuffixes_sublist | split]].
  - unfold extractStrengthFromName. destruct s as [| c0 s0]; [reflexivity |].
    destruct (Regex.match_all strengthPattern (String c0 s0)); cbn [ex_name].
    + apply trim_sublist.
    + etrans; [apply trim_sublist | apply replace_all_from_sublist].
  - apply lower_fixed.
    apply (sublist_all _ _ _ (removeSuffixes_sublist s)).
    rewrite chars_toLowerCase. apply List.Forall_forall. intros c Hc.
    apply in_map_iff in Hc as (d & <- & _). apply lower_char_idem.
  - pose proof (sublist_length _ _ (removeSuffixes_sublist s)) as H.
    rewrite !chars_length, toLowerCase_length in H. exact H.
Qed.

(* ===================================================================== *)
(** * The batch on elements of any type *)
(* ===================================================================== *)

(** ** The typed functions are the code on typed arguments *)






(** ** What ends the loop *)





(** ** One malformed item ends the batch *)

Lemma fuzzySearchMedicine_any_barren (pool : Pool) (medicineName : string)
      (options : Options) (log : list Query) :
  (forall q log, fst (pool_query pool q log) = None
                 \/ fst (pool_query pool q log) = Some []) ->
  2 <= String.length (Js.trim medicineName) ->
  fst (fuzzySearchMedicine_any pool (Name medicineName) options SaltOther log) = Threw.
Proof.
  intros Hbarren Hlen. unfold fuzzySearchMedicine_any, bind.
  apply Nat.ltb_ge in Hlen. rewrite Hlen.
  assert (Hexact : fst ((if default true (preferExactMatch options)
                         then tryExactMatch pool (generateMedicineNameVariations medicineName)
                         else ret None) log) = None).
  { destruct (default true (preferExactMatch options));
      [now apply tryExactMatch_barren | reflexivity]. }
  destruct ((if default true (preferExactMatch options)
             then tryExactMatch pool (generateMedicineNameVariations medicineName)
             else ret None) log) as [e log1].
  cbn [fst] in Hexact. subst e.
  unfold tryFuzzyLikeSearch.
  pose proof (tryFuzzyLikeSearch_barren pool Hbarren
                (generateMedicineNameVariations medicineName)
                (default 5%Z (maxResults options)) [] log1) as Hf.
  destruct (tryFuzzyLikeSearch_from pool [] _ _ log1) as [f log2].
  cbn [fst] in Hf. subst f. reflexivity.
Qed.

(** C8 (the code departs from it).  An element whose [medicine_salt] is
    a truthy value that is not a string ends the whole batch when the
    exact and the fuzzy strategy find nothing for its name:
    [tryCompositionSearch] throws before its [try], nothing catches, and
    [batchFuzzySearch] returns no entry at all, neither for the elements
    before nor for those after.  On the sample catalog the batch of
    "Zzqx" with the salt 500 and of "Crocin" throws, although "Crocin"
    alone is found and the same batch without the salt gives its two
    entries; and so does, with a store that gives nothing, every batch
    that starts with such an element, whatever follows. *)
Theorem batch_aborted_by_one_item :
  (let pool := reliable_pool sample_catalog in
   let crocin := Props (Name "Crocin") SaltFalsy in
   fst (batchFuzzySearch_any pool [Props (Name "Zzqx") SaltOther; crocin]
                             default_options []) = Threw
   /\ (exists r,
          fst (batchFuzzySearch_any pool [crocin] default_options [])
          = Returned [mkAnyEntry crocin r 0]
          /\ success r = true)
   /\ (exists r,
          fst (batchFuzzySearch_any pool [Props (Name "Zzqx") SaltFalsy; crocin]
                                    default_options [])
          = Returned [mkAnyEntry (Props (Name "Zzqx") SaltFalsy) noMatch 0;
                      mkAnyEntry crocin r 1]
          /\ success r = true))
  /\ (forall (pool : Pool) (medicineName : string) (rest : list Element)
             (options : Options) (log : list Query),
        (forall q log, fst (pool_query pool q log) = None
                       \/ fst (pool_query pool q log) = Some []) ->
        2 <= String.length (Js.trim medicineName) ->
        fst (batchFuzzySearch_any pool (Props (Name medicineName) SaltOther :: rest)
                                  options log) = Threw).
Proof.
  split.
  - cbv zeta. split; [vm_compute; reflexivity |].
    split; eexists; (split; [vm_compute; reflexivity | reflexivity]).
  - intros pool s rest options log Hbarren Hlen.
    unfold batchFuzzySearch_any. cbn [batch_loop_any]. unfold bind.
    pose proof (fuzzySearchMedicine_any_barren pool s options log Hbarren Hlen) as H.
    destruct (fuzzySearchMedicine_any pool (Name s) options SaltOther log) as [o log1].
    cbn [fst] in H. now subst o.
Qed.

Lemma batch_aborted_by_one_item_witness :
  let pool := {| catalog := [];
                 pg_similarity := PgTrgm.similarity;
                 pg_similarity_threshold := PgTrgm.threshold;
                 query_throws := fun _ _ => false |} in
  (forall q log, fst (pool_query pool q log) = None
                 \/ fst (pool_query pool q log) = Some [])
  /\ 2 <= String.length (Js.trim "Zzqx")
  /\ fst (batchFuzzySearch_any pool
            [Props (Name "Zzqx") SaltOther; Props (Name "Crocin") SaltFalsy]
            default_options []) = Threw.
Proof.
  cbv zeta.
  assert (Hbarren : forall q log,
             fst (pool_query {| catalog := [];
                                pg_similarity := PgTrgm.similarity;
                                pg_similarity_threshold := PgTrgm.threshold;
                                query_throws := fun _ _ => false |} q log) = None
             \/ fst (pool_query {| catalog := [];
                                   pg_similarity := PgTrgm.similarity;
                                   pg_similarity_threshold := PgTrgm.threshold;
                                   query_throws := fun _ _ => false |} q log) = Some []).
  { intros q log. unfold pool_query. cbn [fst query_throws catalog].
    destruct q as [v | v n | a b c n | a n]; cbn [run_statement];
      unfold exact_statement, fuzzy_statement, composition_strength_statement,
        composition_statement, Sql.limit; cbn;
      try destruct (n <? 0)%Z; auto;
      right; f_equal; apply firstn_nil. }
  assert (Hlen : 2 <= String.length (Js.trim "Zzqx")) by (vm_compute; lia).
  split; [exact Hbarren | split; [exact Hlen |]].
  exact (proj2 batch_aborted_by_one_item _ "Zzqx" _ default_options [] Hbarren Hlen).
Defined.
